(** * Kaldi-compatible feature extraction ([torchaudio/compliance/kaldi.py])

    A shallow embedding of the module and the properties its specification
    states about it.

    Conventions of the embedding.
    - Python [int] is [Z]; [//] on integers is [Z.div] (both round towards
      minus infinity and give the remainder the sign of the divisor), with
      [ZeroDivisionError] written out.
    - Python [float] and tensor elements are real numbers [R]: the embedding
      idealises floating point arithmetic (no rounding, no overflow), so a
      property of it speaks of the algorithm and not of NaN or infinities.
      The one exception is the width of the resampling kernel, an integer
      computed from floats, where the rounding is a parameter ([rounding]).
      Comparisons of reals go through the decision procedures of the
      Standard Library ([Rlt_dec], [Req_dec_T], ...).
    - A 1-D tensor is a [list], a 2-D tensor a list of rows.  Where the shape
      of an empty tensor matters (the framer) the shape is carried along.
      The framer reads its waveform through [as_strided], so it also takes
      the stride of the waveform in its storage: 1 for a contiguous tensor
      or a row of one, more for a view such as a column.
    - Code that raises returns [Raise e] in the [result] monad, so that
      "the call is a fatal error" and "the call returns" are distinguishable. *)

From Stdlib Require Import String ZArith List Bool Lia Reals Lra.
Import ListNotations.

Set Implicit Arguments.

(** ** Exceptions and the result monad *)

Inductive exn : Type :=
| AssertionError (msg : string)
| ZeroDivisionError
| RuntimeError
| ValueError
| IndexError
| Exception (msg : string).

Inductive result (A : Type) : Type :=
| Ok (a : A)
| Raise (e : exn).

Arguments Ok {A} a.
Arguments Raise {A} e.

Definition bind {A B : Type} (r : result A) (k : A -> result B) : result B :=
  match r with
  | Ok a => k a
  | Raise e => Raise e
  end.

Notation "x <- r ;; k" := (bind r (fun x => k))
  (at level 61, r at next level, right associativity).

Notation "' pat <- r ;; k" :=
  (bind r (fun x => match x with pat => k end))
  (at level 61, pat pattern, r at next level, right associativity).

Definition assert (b : bool) (msg : string) : result unit :=
  if b then Ok tt else Raise (AssertionError msg).

Definition is_ok {A : Type} (r : result A) : bool :=
  match r with Ok _ => true | Raise _ => false end.

(** Whether a call ended in a failed [assert]. *)
Definition is_assertion_error {A : Type} (r : result A) : bool :=
  match r with Raise (AssertionError _) => true | _ => false end.

(** ** Python integers and sequences *)

(** [a // b] on integers. *)
Definition floordiv (a b : Z) : result Z :=
  if (b =? 0)%Z then Raise ZeroDivisionError else Ok (a / b)%Z.

(** [range(lo, hi)] and [torch.arange(lo, hi)] on integers. *)
Definition zrange (lo hi : Z) : list Z :=
  map (fun k => (lo + Z.of_nat k)%Z) (seq 0 (Z.to_nat (hi - lo))).

Section Sequences.
Context {A : Type}.

(** The slice [l[k:]]: a negative [k] counts from the end, and the start
    is clipped to the sequence. *)
Definition slice_from (l : list A) (k : Z) : list A :=
  let n := Z.of_nat (length l) in
  let start := if (k <? 0)%Z then Z.max (n + k) 0 else Z.min k n in
  skipn (Z.to_nat start) l.

(** The slice [l[:k]], with the same conventions. *)
Definition slice_to (l : list A) (k : Z) : list A :=
  let n := Z.of_nat (length l) in
  let stop := if (k <? 0)%Z then Z.max (n + k) 0 else Z.min k n in
  firstn (Z.to_nat stop) l.

(** [[f(x) for x in l]] where [f] may raise. *)
Fixpoint mapM {B : Type} (f : A -> result B) (l : list A) : result (list B) :=
  match l with
  | [] => Ok []
  | x :: r =>
      y <- f x ;;
      ys <- mapM f r ;;
      Ok (y :: ys)
  end.

Fixpoint sequence (l : list (option A)) : option (list A) :=
  match l with
  | [] => Some []
  | None :: _ => None
  | Some x :: r =>
      match sequence r with
      | Some xs => Some (x :: xs)
      | None => None
      end
  end.
End Sequences.

(** ** Tensors with an explicit shape *)

Record tensor2 (A : Type) : Type := Tensor2
  { size0 : Z;            (* number of rows *)
    size1 : Z;            (* number of columns *)
    rows : list (list A) }.

Arguments Tensor2 {A} size0 size1 rows.

Section Framer.
Context {A : Type}.

(** One row of a strided view: the elements of [storage] at
    [start], [start + stride], ...; [None] when one of them lies outside
    the list. *)
Fixpoint gather (storage : list A) (start stride : Z) (len : nat)
  : option (list A) :=
  match len with
  | O => Some []
  | S k =>
      match nth_error storage (Z.to_nat start),
            gather storage (start + stride) stride k with
      | Some x, Some r => Some (x :: r)
      | _, _ => None
      end
  end.

(** [Tensor.as_strided (size0, size1) (stride0, stride1)] on a 1-D tensor.
    The tensor is given by its elements [samples] and by [step], its own
    stride: the distance in the storage between two of its elements, 1 for
    a contiguous tensor and 0 when all elements are one element of the
    storage.  The result starts at the first element of the tensor and is
    read from the storage, so strides that are multiples of [step] (as they
    are in [_get_strided]) walk over the elements of the tensor: by
    [stride0 / step] elements from row to row and by [stride1 / step] from
    column to column.  torch refuses negative sizes and strides, and a
    result that reaches outside the storage; the model knows the storage
    only where the tensor shows it and refuses to read behind its last
    element. *)
Definition as_strided (samples : list A) (step : Z) (sizes strides : Z * Z)
  : result (tensor2 A) :=
  let '(m, w) := sizes in
  let '(s0, s1) := strides in
  if ((m <? 0) || (w <? 0) || (s0 <? 0) || (s1 <? 0))%Z then Raise RuntimeError
  else
    let k0 := if (step =? 0)%Z then 0%Z else (s0 / step)%Z in
    let k1 := if (step =? 0)%Z then 0%Z else (s1 / step)%Z in
    match sequence (map (fun i => gather samples (Z.of_nat i * k0) k1 (Z.to_nat w))
                        (seq 0 (Z.to_nat m))) with
    | Some rs => Ok (Tensor2 m w rs)
    | None => Raise RuntimeError
    end.

(** [_get_strided].  [stride] is [waveform.stride(0)] and [waveform] lists
    the samples of the tensor.  With [snip_edges] the result is a view of
    the tensor it was given, which keeps its stride; without, [torch.cat]
    builds a new contiguous tensor (of stride 1), on which the strides
    computed from the tensor given are used all the same. *)
Definition _get_strided (stride : Z) (waveform : list A) (window_size window_shift : Z)
           (snip_edges : bool) : result (tensor2 A) :=
  let num_samples := Z.of_nat (length waveform) in
  let strides := (window_shift * stride, stride)%Z in
  if snip_edges then
    if (num_samples <? window_size)%Z then Ok (Tensor2 0 0 [])
    else
      q <- floordiv (num_samples - window_size) window_shift ;;
      let m := (1 + q)%Z in
      as_strided waveform stride (m, window_size) strides
  else
    let reversed_waveform := rev waveform in
    half_shift <- floordiv window_shift 2 ;;
    m <- floordiv (num_samples + half_shift) window_shift ;;
    half_size <- floordiv window_size 2 ;;
    let pad := (half_size - half_shift)%Z in
    let pad_right := reversed_waveform in
    let waveform' :=
      if (0 <? pad)%Z then
        let pad_left := slice_from reversed_waveform (- pad) in
        pad_left ++ waveform ++ pad_right
      else
        slice_from waveform (- pad) ++ pad_right in
    as_strided waveform' 1 (m, window_size) strides.

(** The extension of the signal for [snip_edges = false], written after
    the specification's words: the last [pad] samples of the reversed
    signal in front when [pad > 0], [-pad] samples dropped from the front
    otherwise, and the whole reversed signal behind. *)
Definition extended_signal (waveform : list A) (window_size window_shift : Z)
  : list A :=
  let pad := (window_size / 2 - window_shift / 2)%Z in
  if (0 <? pad)%Z then
    skipn (length waveform - Z.to_nat pad) (rev waveform) ++ waveform ++ rev waveform
  else
    skipn (Z.to_nat (- pad)) waveform ++ rev waveform.

(** The frame that starts at sample [start]. *)
Definition frame_at (signal : list A) (start : Z) (window_size : Z) : list A :=
  firstn (Z.to_nat window_size) (skipn (Z.to_nat start) signal).
End Framer.

(** ** Floats as real numbers *)

Local Open Scope R_scope.

Definition Rltb (x y : R) : bool := if Rlt_dec x y then true else false.
Definition Rleb (x y : R) : bool := if Rle_dec x y then true else false.
Definition Reqb (x y : R) : bool := if Req_dec_T x y then true else false.

(** [int(x)]: truncation towards zero. *)
Definition int_of_float (x : R) : Z :=
  if Rle_dec 0 x then Zfloor x else Zceil x.

(** [a / b] on Python floats. *)
Definition float_div (a b : R) : result R :=
  if Req_dec_T b 0 then Raise ZeroDivisionError else Ok (a / b).

(** [math.log] and [math.sqrt] raise outside their domain. *)
Definition math_log (x : R) : result R :=
  if Rlt_dec 0 x then Ok (ln x) else Raise ValueError.

Definition math_sqrt (x : R) : result R :=
  if Rle_dec 0 x then Ok (sqrt x) else Raise ValueError.

(** The rounding of a real number to a Python float (an IEEE 754 double,
    to nearest).  The arithmetic of floats is taken as that of the reals
    throughout, except where the resampler computes the width of its
    kernel, an integer, from the float [0.99 * min(orig_freq, new_freq)]:
    there the rounding decides the integer (for rates 3 and 4 and a filter
    width of 99 the exact quotient is 100 and the computed one is just
    above), so it is part of the model.  A rounding is any function with
    the properties of the rounding to nearest that the proofs use: it is
    monotone, it keeps the integers up to 2^53 = 9007199254740992, it
    keeps what it returns, and up to 2^53 it is off by at most
    [max(1, |x|) / 2^53]. *)
Record rounding : Type := Rounding
  { round :> R -> R;
    round_monotone : forall x y, x <= y -> round x <= round y;
    round_integer :
      forall z : Z, (Z.abs z <= 9007199254740992)%Z -> round (IZR z) = IZR z;
    round_idempotent : forall x, round (round x) = round x;
    round_error :
      forall x, Rabs x <= 9007199254740992 ->
                Rabs (round x - x) <= Rmax 1 (Rabs x) / 9007199254740992 }.

(** Arithmetic without rounding error, for concrete runs. *)
Definition exact_arithmetic : rounding.
Proof.
  refine {| round := fun x => x |}.
  - intros x y H. exact H.
  - intros z _. reflexivity.
  - intros x. reflexivity.
  - intros x _. replace (x - x) with 0 by ring. rewrite Rabs_R0.
    apply Rmult_le_pos; [|lra].
    eapply Rle_trans; [|apply Rmax_l]. lra.
Defined.

(** [Tensor.pow(p)] for a non-negative base and a positive exponent. *)
Definition float_pow (x p : R) : R :=
  if Req_dec_T x 0 then 0 else Rpower x p.

Definition clamp (x lo hi : R) : R := Rmin (Rmax x lo) hi.

Definition sum (l : list R) : R := fold_right Rplus 0 l.

Definition mean (l : list R) : R := sum l / INR (length l).

Fixpoint zip_with {A B C : Type} (f : A -> B -> C) (a : list A) (b : list B)
  : list C :=
  match a, b with
  | x :: a', y :: b' => f x y :: zip_with f a' b'
  | _, _ => []
  end.

Definition dot (a b : list R) : R := sum (zip_with Rmult a b).

(** The floating types of a tensor and [torch.finfo(dtype).eps], the gap
    between 1 and the next representable number (IEEE 754 binary16,
    binary32 and binary64). *)
Inductive dtype : Type := float16 | float32 | float64.

Definition finfo_eps (d : dtype) : R :=
  match d with
  | float16 => / 2 ^ 10
  | float32 => / 2 ^ 23
  | float64 => / 2 ^ 52
  end.

(** [EPSILON = torch.tensor(torch.finfo(torch.float).eps)], the constant
    1.1920928955078125e-07 of the source. *)
Definition EPSILON : R := finfo_eps float32.

Definition MILLISECONDS_TO_SECONDS : R := 1 / 1000.

(** [EPSILON.to(device, dtype)]: the same number in the tensor's type (it
    is a power of two that each of the three types represents). *)
Definition _get_epsilon (dt : dtype) : R := EPSILON.

(** [int.bit_length]. *)
Definition bit_length (z : Z) : Z :=
  if (z =? 0)%Z then 0%Z else (Z.log2 (Z.abs z) + 1)%Z.

Definition _next_power_of_2 (x : Z) : Z :=
  if (x =? 0)%Z then 1%Z else (2 ^ bit_length (x - 1))%Z.

(** ** Window functions *)

Definition HAMMING : string := "hamming".
Definition HANNING : string := "hanning".
Definition POVEY : string := "povey".
Definition RECTANGULAR : string := "rectangular".
Definition BLACKMAN : string := "blackman".
Definition WINDOWS : list string := [HAMMING; HANNING; POVEY; RECTANGULAR; BLACKMAN].

(** [torch.hann_window] and [torch.hamming_window] with [periodic=False]:
    [alpha - beta * cos(2 pi k / (n - 1))], the single-point window being
    [[1]]. *)
Definition cosine_window (alpha beta : R) (n : Z) : result (list R) :=
  if (n <? 0)%Z then Raise RuntimeError
  else if (n =? 1)%Z then Ok [1]
  else Ok (map (fun k => alpha - beta * cos (2 * PI * IZR k / IZR (n - 1)))
               (zrange 0 n)).

Definition hann_window (n : Z) : result (list R) := cosine_window (1 / 2) (1 / 2) n.

Definition hamming_window (n : Z) (alpha beta : R) : result (list R) :=
  cosine_window alpha beta n.

Definition _feature_window_function (window_type : string) (window_size : Z)
           (blackman_coeff : R) : result (list R) :=
  if String.eqb window_type HANNING then hann_window window_size
  else if String.eqb window_type HAMMING then
    hamming_window window_size (54 / 100) (46 / 100)
  else if String.eqb window_type POVEY then
    w <- hann_window window_size ;;
    Ok (map (fun x => float_pow x (85 / 100)) w)
  else if String.eqb window_type RECTANGULAR then
    if (window_size <? 0)%Z then Raise RuntimeError
    else Ok (repeat 1 (Z.to_nat window_size))
  else if String.eqb window_type BLACKMAN then
    a <- float_div (2 * PI) (IZR (window_size - 1)) ;;
    if (window_size <? 0)%Z then Raise RuntimeError
    else
      Ok (map (fun k => blackman_coeff - (1 / 2) * cos (a * IZR k)
                        + (1 / 2 - blackman_coeff) * cos (2 * a * IZR k))
              (zrange 0 window_size))
  else Raise (Exception "Invalid window type").

(** ** Log energy of the frames *)

Definition sum_of_squares (frame : list R) : R := sum (map (fun x => x ^ 2) frame).

Definition _get_log_energy (strided_input : list (list R)) (epsilon energy_floor : R)
  : result (list R) :=
  let log_energy :=
    map (fun frame => ln (Rmax (sum_of_squares frame) epsilon)) strided_input in
  if Req_dec_T energy_floor 0 then Ok log_energy
  else
    log_floor <- math_log energy_floor ;;
    Ok (map (fun e => Rmax e log_floor) log_energy).

(** ** Validation shared by the three entry points *)

Section Validation.
Context {A : Type}.

Definition _get_waveform_and_window_properties
           (waveform : list (list A)) (channel : Z)
           (sample_frequency frame_shift frame_length : R)
           (round_to_power_of_two : bool) (preemphasis_coefficient : R)
  : result (list A * Z * Z * Z) :=
  let channel := Z.max channel 0 in
  _ <- assert (channel <? Z.of_nat (length waveform))%Z "Invalid channel" ;;
  let waveform := nth (Z.to_nat channel) waveform [] in
  let window_shift :=
    int_of_float (sample_frequency * frame_shift * MILLISECONDS_TO_SECONDS) in
  let window_size :=
    int_of_float (sample_frequency * frame_length * MILLISECONDS_TO_SECONDS) in
  let padded_window_size :=
    if round_to_power_of_two then _next_power_of_2 window_size else window_size in
  _ <- assert ((2 <=? window_size)%Z && (window_size <=? Z.of_nat (length waveform))%Z)
              "choose a window size that is [2, len(waveform)]" ;;
  _ <- assert (0 <? window_shift)%Z "`window_shift` must be greater than 0" ;;
  _ <- assert (padded_window_size mod 2 =? 0)%Z
              "the padded `window_size` must be divisible by two. use `round_to_power_of_two` or change `frame_length`" ;;
  _ <- assert (Rleb 0 preemphasis_coefficient && Rleb preemphasis_coefficient 1)
              "`preemphasis_coefficient` must be between [0,1]" ;;
  _ <- assert (Rltb 0 sample_frequency) "`sample_frequency` must be greater than zero" ;;
  Ok (waveform, window_shift, window_size, padded_window_size).
End Validation.

(** ** Frames, windowing and the spectrogram *)

Fixpoint mapi_from {A B : Type} (f : nat -> A -> B) (i : nat) (l : list A) : list B :=
  match l with
  | [] => []
  | x :: r => f i x :: mapi_from f (S i) r
  end.

Definition mapi {A B : Type} (f : nat -> A -> B) (l : list A) : list B :=
  mapi_from f 0 l.

(** Column [c] of a matrix. *)
Definition column (c : nat) (m : list (list R)) : list R :=
  map (fun row => nth c row 0) m.

(** [F.pad(x, (0, k), mode='constant', value=0)] on each row; a negative
    [k] crops. *)
Definition pad_right (row : list R) (k : Z) : list R :=
  if (0 <=? k)%Z then row ++ repeat 0 (Z.to_nat k)
  else firstn (length row - Z.to_nat (- k)) row.

(** [x - coeff * offset[:, :-1]] where [offset] is [x] with its first
    column replicated in front. *)
Definition preemphasis (coeff : R) (frame : list R) : list R :=
  let offset := match frame with [] => [] | x0 :: _ => x0 :: frame end in
  zip_with (fun x y => x - coeff * y) frame (removelast offset).

(** [t[:, 0] = v]. *)
Definition set_column0 (t : list (list R)) (v : list R) : result (list (list R)) :=
  if existsb (fun row => match row with [] => true | _ => false end) t
  then Raise IndexError
  else Ok (zip_with (fun row e => e :: tl row) t v).

Definition _subtract_column_mean (tensor : list (list R)) (subtract_mean : bool)
  : list (list R) :=
  if subtract_mean then
    map (fun row => mapi (fun c x => x - mean (column c tensor)) row) tensor
  else tensor.

(** What the entry points return: [torch.empty(0)] or a matrix of
    features, one row per frame. *)
Inductive tensor : Type :=
| EmptyTensor
| Matrix (m : list (list R)).

(** The keyword arguments of [spectrogram], [fbank] and [mfcc]. *)
Record options : Type := Options
  { blackman_coeff : R;
    cepstral_lifter : R;
    channel : Z;
    dither : R;
    energy_floor : R;
    frame_length : R;
    frame_shift : R;
    high_freq : R;
    htk_compat : bool;
    low_freq : R;
    num_ceps : Z;
    min_duration : R;
    num_mel_bins : Z;
    preemphasis_coefficient : R;
    raw_energy : bool;
    remove_dc_offset : bool;
    round_to_power_of_two : bool;
    sample_frequency : R;
    snip_edges : bool;
    subtract_mean : bool;
    use_energy : bool;
    use_log_fbank : bool;
    use_power : bool;
    vtln_high : R;
    vtln_low : R;
    vtln_warp : R;
    window_type : string }.

(** The default values of the signatures. *)
Definition defaults : options :=
  {| blackman_coeff := 42 / 100;
     cepstral_lifter := 22;
     channel := (-1)%Z;
     dither := 0;
     energy_floor := 1;
     frame_length := 25;
     frame_shift := 10;
     high_freq := 0;
     htk_compat := false;
     low_freq := 20;
     num_ceps := 13%Z;
     min_duration := 0;
     num_mel_bins := 23%Z;
     preemphasis_coefficient := 97 / 100;
     raw_energy := true;
     remove_dc_offset := true;
     round_to_power_of_two := true;
     sample_frequency := 16000;
     snip_edges := true;
     subtract_mean := false;
     use_energy := false;
     use_log_fbank := true;
     use_power := true;
     vtln_high := -500;
     vtln_low := 100;
     vtln_warp := 1;
     window_type := POVEY |}.

Section Pipeline.
(** The collaborators outside the module: the uniform random numbers drawn
    for element [(i, j)] of the frame matrix, and the magnitudes of the
    half spectrum of one frame, [rfft(frame).abs()]. *)
Variable torch_rand : nat -> nat -> R.
Variable rfft_abs : list R -> list R.

Definition rand_gauss (epsilon : R) (i j : nat) : R :=
  let x := Rmax epsilon (torch_rand i j) in
  sqrt (-2 * ln x) * cos (2 * PI * x).

(** [stride] is [waveform.stride(0)]: the distance in the storage between
    two samples of the channel, 1 when the waveform is contiguous. *)
Definition _get_window (stride : Z) (waveform : list R)
           (padded_window_size window_size window_shift : Z)
           (window_type : string) (blackman_coeff : R)
           (snip_edges raw_energy : bool) (energy_floor dither : R)
           (remove_dc_offset : bool) (preemphasis_coefficient : R) (dt : dtype)
  : result (list (list R) * list R) :=
  let epsilon := _get_epsilon dt in
  strided <- _get_strided stride waveform window_size window_shift snip_edges ;;
  let strided_input := rows strided in
  let strided_input :=
    if Reqb dither 0 then strided_input
    else mapi (fun i frame =>
                 mapi (fun j x => x + rand_gauss epsilon i j * dither) frame)
              strided_input in
  let strided_input :=
    if remove_dc_offset then
      map (fun frame => map (fun x => x - mean frame) frame) strided_input
    else strided_input in
  raw_log_energy <-
    (if raw_energy then _get_log_energy strided_input epsilon energy_floor
     else Ok []) ;;
  (* the 0 x 0 matrix of a signal shorter than one frame neither pads nor
     broadcasts against the window *)
  _ <- (if (size1 strided =? window_size)%Z then Ok tt else Raise RuntimeError) ;;
  let strided_input :=
    if Reqb preemphasis_coefficient 0 then strided_input
    else map (preemphasis preemphasis_coefficient) strided_input in
  window_function <- _feature_window_function window_type window_size blackman_coeff ;;
  let strided_input := map (zip_with Rmult window_function) strided_input in
  let strided_input :=
    if (padded_window_size =? window_size)%Z then strided_input
    else
      let padding_right := (padded_window_size - window_size)%Z in
      map (fun frame => pad_right frame padding_right) strided_input in
  signal_log_energy <-
    (if raw_energy then Ok raw_log_energy
     else _get_log_energy strided_input epsilon energy_floor) ;;
  Ok (strided_input, signal_log_energy).

(** The entry points take the waveform as the list of its channels,
    together with [stride], its [waveform.stride(1)]: the selected channel
    [waveform[channel, :]] is a view of the waveform with that stride. *)
Definition spectrogram (stride : Z) (waveform : list (list R)) (dt : dtype) (o : options)
  : result tensor :=
  let epsilon := _get_epsilon dt in
  ' (waveform, window_shift, window_size, padded_window_size) <-
    _get_waveform_and_window_properties waveform (channel o) (sample_frequency o)
      (frame_shift o) (frame_length o) (round_to_power_of_two o)
      (preemphasis_coefficient o) ;;
  if Rltb (INR (length waveform)) (min_duration o * sample_frequency o) then
    (* signal is too short *)
    Ok EmptyTensor
  else
    ' (strided_input, signal_log_energy) <-
      _get_window stride waveform padded_window_size window_size window_shift
        (window_type o) (blackman_coeff o) (snip_edges o) (raw_energy o)
        (energy_floor o) (dither o) (remove_dc_offset o)
        (preemphasis_coefficient o) dt ;;
    let fft := map rfft_abs strided_input in
    let power_spectrum :=
      map (map (fun a => ln (Rmax (a ^ 2) epsilon))) fft in
    power_spectrum <- set_column0 power_spectrum signal_log_energy ;;
    Ok (Matrix (_subtract_column_mean power_spectrum (subtract_mean o))).
End Pipeline.

(** ** Mel scale and VTLN warping *)

Definition inverse_mel_scale_scalar (mel_freq : R) : R :=
  700 * (exp (mel_freq / 1127) - 1).

Definition inverse_mel_scale (mel_freq : list R) : list R :=
  map (fun m => 700 * (exp (m / 1127) - 1)) mel_freq.

(** [math.log] raises on a non-positive argument. *)
Definition mel_scale_scalar (freq : R) : result R :=
  l <- math_log (1 + freq / 700) ;;
  Ok (1127 * l).

Definition mel_scale (freq : list R) : list R :=
  map (fun f => 1127 * ln (1 + f / 700)) freq.

(** The result of the four masked assignments of [vtln_warp_freq] at one
    frequency, in the order of the source: [after_h], [before_h],
    [before_l], [outside_low_high_freq].  [res] starts as the
    uninitialised [torch.empty_like(freq)]; one of the first two masks
    always holds. *)
Definition vtln_warp_assignments (low_freq high_freq l h scale scale_left scale_right : R)
           (freq : R) : R :=
  let outside_low_high_freq := Rltb freq low_freq || Rltb high_freq freq in
  let before_l := Rltb freq l in
  let before_h := Rltb freq h in
  let after_h := Rleb h freq in
  let res := 0 in
  let res := if after_h then high_freq + scale_right * (freq - high_freq) else res in
  let res := if before_h then scale * freq else res in
  let res := if before_l then low_freq + scale_left * (freq - low_freq) else res in
  let res := if outside_low_high_freq then freq else res in
  res.

Definition vtln_warp_freq (vtln_low_cutoff vtln_high_cutoff low_freq high_freq
                           vtln_warp_factor : R) (freq : list R) : result (list R) :=
  _ <- assert (Rltb low_freq vtln_low_cutoff)
              "be sure to set the vtln_low option higher than low_freq" ;;
  _ <- assert (Rltb vtln_high_cutoff high_freq)
              "be sure to set the vtln_high option lower than high_freq [or negative]" ;;
  let l := vtln_low_cutoff * Rmax 1 vtln_warp_factor in
  let h := vtln_high_cutoff * Rmin 1 vtln_warp_factor in
  scale <- float_div 1 vtln_warp_factor ;;
  let Fl := scale * l in
  let Fh := scale * h in
  _ <- assert (Rltb low_freq l && Rltb h high_freq) "" ;;
  scale_left <- float_div (Fl - low_freq) (l - low_freq) ;;
  scale_right <- float_div (high_freq - Fh) (high_freq - h) ;;
  Ok (map (vtln_warp_assignments low_freq high_freq l h scale scale_left scale_right)
          freq).

Definition vtln_warp_mel_freq (vtln_low_cutoff vtln_high_cutoff low_freq high_freq
                               vtln_warp_factor : R) (mel_freq : list R)
  : result (list R) :=
  warped <- vtln_warp_freq vtln_low_cutoff vtln_high_cutoff low_freq high_freq
                           vtln_warp_factor (inverse_mel_scale mel_freq) ;;
  Ok (mel_scale warped).

(** ** Mel filterbank *)

(** One weight of the bank from the mel boundaries of its bin and the mel
    value of the FFT bin. *)
Definition mel_weight (vtln_warp_factor left_mel center_mel right_mel mel : R) : R :=
  let up_slope := (mel - left_mel) / (center_mel - left_mel) in
  let down_slope := (right_mel - mel) / (right_mel - center_mel) in
  if Req_dec_T vtln_warp_factor 1 then
    Rmax 0 (Rmin up_slope down_slope)
  else
    let bins := 0 in
    let up_idx := Rltb left_mel mel && Rleb mel center_mel in
    let down_idx := Rltb center_mel mel && Rltb mel right_mel in
    let bins := if up_idx then up_slope else bins in
    let bins := if down_idx then down_slope else bins in
    bins.

Definition get_mel_banks (num_bins window_length_padded : Z)
           (sample_freq low_freq high_freq vtln_low vtln_high vtln_warp_factor : R)
  : result (list (list R) * list R) :=
  _ <- assert (3 <? num_bins)%Z "Must have at least 3 mel bins" ;;
  _ <- assert (window_length_padded mod 2 =? 0)%Z "" ;;
  let num_fft_bins := (window_length_padded / 2)%Z in
  let nyquist := (1 / 2) * sample_freq in
  let high_freq := if Rleb high_freq 0 then high_freq + nyquist else high_freq in
  _ <- assert ((Rleb 0 low_freq && Rltb low_freq nyquist)
               && (Rltb 0 high_freq && Rleb high_freq nyquist)
               && Rltb low_freq high_freq)
              "Bad values in options: low-freq and high-freq vs. nyquist" ;;
  fft_bin_width <- float_div sample_freq (IZR window_length_padded) ;;
  mel_low_freq <- mel_scale_scalar low_freq ;;
  mel_high_freq <- mel_scale_scalar high_freq ;;
  let mel_freq_delta := (mel_high_freq - mel_low_freq) / IZR (num_bins + 1) in
  let vtln_high := if Rltb vtln_high 0 then vtln_high + nyquist else vtln_high in
  _ <- assert (Reqb vtln_warp_factor 1
               || ((Rltb low_freq vtln_low && Rltb vtln_low high_freq)
                   && (Rltb 0 vtln_high && Rltb vtln_high high_freq)
                   && Rltb vtln_low vtln_high))
              "Bad values in options: vtln-low and vtln-high, versus low-freq and high-freq" ;;
  let bin := zrange 0 num_bins in
  let left_mel := map (fun b => mel_low_freq + IZR b * mel_freq_delta) bin in
  let center_mel := map (fun b => mel_low_freq + (IZR b + 1) * mel_freq_delta) bin in
  let right_mel := map (fun b => mel_low_freq + (IZR b + 2) * mel_freq_delta) bin in
  ' (left_mel, center_mel, right_mel) <-
    (if Reqb vtln_warp_factor 1 then Ok (left_mel, center_mel, right_mel)
     else
       l <- vtln_warp_mel_freq vtln_low vtln_high low_freq high_freq
                               vtln_warp_factor left_mel ;;
       c <- vtln_warp_mel_freq vtln_low vtln_high low_freq high_freq
                               vtln_warp_factor center_mel ;;
       r <- vtln_warp_mel_freq vtln_low vtln_high low_freq high_freq
                               vtln_warp_factor right_mel ;;
       Ok (l, c, r)) ;;
  let center_freqs := inverse_mel_scale center_mel in
  _ <- (if (num_fft_bins <? 0)%Z then Raise RuntimeError else Ok tt) ;;
  let mel := mel_scale (map (fun j => fft_bin_width * IZR j) (zrange 0 num_fft_bins)) in
  let bins :=
    map (fun lcr : R * R * R =>
           let '(l, c, r) := lcr in
           map (mel_weight vtln_warp_factor l c r) mel)
        (combine (combine left_mel center_mel) right_mel) in
  Ok (bins, center_freqs).

(** ** Filterbank and cepstral features *)

(** [torch.mm(a, b.T)]: the inner dimensions must agree. *)
Definition mm_T (a b : list (list R)) : result (list (list R)) :=
  let inner := length (hd [] b) in
  if forallb (fun ra => Nat.eqb (length ra) inner) a
  then Ok (map (fun ra => map (dot ra) b) a)
  else Raise RuntimeError.

(** [a.matmul(b)] for two matrices. *)
Definition matmul (a b : list (list R)) : result (list (list R)) :=
  let inner := length b in
  let cols := length (hd [] b) in
  if forallb (fun ra => Nat.eqb (length ra) inner) a
  then Ok (map (fun ra => map (fun c => dot ra (column c b)) (seq 0 cols)) a)
  else Raise RuntimeError.

(** [t[:, k]]. *)
Definition get_column (t : list (list R)) (k : Z) : result (list R) :=
  mapM (fun row => match nth_error row (Z.to_nat k) with
                   | Some x => Ok x
                   | None => Raise IndexError
                   end) t.

Definition _get_lifter_coeffs (num_ceps : Z) (cepstral_lifter : R) : result (list R) :=
  if (num_ceps <? 0)%Z then Raise RuntimeError
  else
    Ok (map (fun i => 1 + (1 / 2) * cepstral_lifter * sin (PI * IZR i / cepstral_lifter))
            (zrange 0 num_ceps)).

(** The options [mfcc] passes to [fbank]: [subtract_mean=False],
    [use_log_fbank=True], [use_power=True], the others as given. *)
Definition fbank_options_of_mfcc (o : options) : options :=
  {| blackman_coeff := blackman_coeff o;
     cepstral_lifter := cepstral_lifter o;
     channel := channel o;
     dither := dither o;
     energy_floor := energy_floor o;
     frame_length := frame_length o;
     frame_shift := frame_shift o;
     high_freq := high_freq o;
     htk_compat := htk_compat o;
     low_freq := low_freq o;
     num_ceps := num_ceps o;
     min_duration := min_duration o;
     num_mel_bins := num_mel_bins o;
     preemphasis_coefficient := preemphasis_coefficient o;
     raw_energy := raw_energy o;
     remove_dc_offset := remove_dc_offset o;
     round_to_power_of_two := round_to_power_of_two o;
     sample_frequency := sample_frequency o;
     snip_edges := snip_edges o;
     subtract_mean := false;
     use_energy := use_energy o;
     use_log_fbank := true;
     use_power := true;
     vtln_high := vtln_high o;
     vtln_low := vtln_low o;
     vtln_warp := vtln_warp o;
     window_type := window_type o |}.

Section Features.
Variable torch_rand : nat -> nat -> R.
Variable rfft_abs : list R -> list R.
(** [torchaudio.functional.create_dct(n_mfcc, n_mels, 'ortho')], a matrix
    of [n_mels] rows and [n_mfcc] columns. *)
Variable create_dct : Z -> Z -> list (list R).

Definition fbank (stride : Z) (waveform : list (list R)) (dt : dtype) (o : options)
  : result tensor :=
  ' (waveform, window_shift, window_size, padded_window_size) <-
    _get_waveform_and_window_properties waveform (channel o) (sample_frequency o)
      (frame_shift o) (frame_length o) (round_to_power_of_two o)
      (preemphasis_coefficient o) ;;
  if Rltb (INR (length waveform)) (min_duration o * sample_frequency o) then
    (* signal is too short *)
    Ok EmptyTensor
  else
    ' (strided_input, signal_log_energy) <-
      _get_window torch_rand stride waveform padded_window_size window_size window_shift
        (window_type o) (blackman_coeff o) (snip_edges o) (raw_energy o)
        (energy_floor o) (dither o) (remove_dc_offset o)
        (preemphasis_coefficient o) dt ;;
    let spectrum := map rfft_abs strided_input in
    let spectrum :=
      if use_power o then map (map (fun a => a ^ 2)) spectrum else spectrum in
    ' (mel_energies, _) <-
      get_mel_banks (num_mel_bins o) padded_window_size (sample_frequency o)
        (low_freq o) (high_freq o) (vtln_low o) (vtln_high o) (vtln_warp o) ;;
    let mel_energies := map (fun filt => pad_right filt 1) mel_energies in
    mel_energies <- mm_T spectrum mel_energies ;;
    let mel_energies :=
      if use_log_fbank o then
        map (map (fun e => ln (Rmax e (_get_epsilon dt)))) mel_energies
      else mel_energies in
    let mel_energies :=
      if use_energy o then
        if htk_compat o then
          zip_with (fun row e => row ++ [e]) mel_energies signal_log_energy
        else
          zip_with (fun row e => e :: row) mel_energies signal_log_energy
      else mel_energies in
    Ok (Matrix (_subtract_column_mean mel_energies (subtract_mean o))).

Definition _get_dct_matrix (num_ceps num_mel_bins : Z) : result (list (list R)) :=
  let dct_matrix := create_dct num_mel_bins num_mel_bins in
  inv <- float_div 1 (IZR num_mel_bins) ;;
  c0 <- math_sqrt inv ;;
  dct_matrix <- set_column0 dct_matrix (repeat c0 (length dct_matrix)) ;;
  Ok (map (fun row => slice_to row num_ceps) dct_matrix).

(** The body of [mfcc] between the call of [fbank] and the HTK
    reordering: the cepstra with C0 (or the energy) in column 0. *)
Definition mfcc_cepstra (feature : tensor) (o : options) : result (list (list R)) :=
  ' (feature, signal_log_energy) <-
    (if use_energy o then
       match feature with
       | EmptyTensor => Raise IndexError
       | Matrix f =>
           e <- get_column f (if htk_compat o then num_mel_bins o else 0%Z) ;;
           let mel_offset := if htk_compat o then 0%nat else 1%nat in
           Ok (Matrix (map (fun row => firstn (Z.to_nat (num_mel_bins o))
                                              (skipn mel_offset row)) f), e)
       end
     else Ok (feature, [])) ;;
  dct_matrix <- _get_dct_matrix (num_ceps o) (num_mel_bins o) ;;
  feature <- match feature with
             | EmptyTensor => Raise RuntimeError
             | Matrix f => matmul f dct_matrix
             end ;;
  feature <-
    (if Reqb (cepstral_lifter o) 0 then Ok feature
     else
       lifter_coeffs <- _get_lifter_coeffs (num_ceps o) (cepstral_lifter o) ;;
       Ok (map (fun row => zip_with Rmult row lifter_coeffs) feature)) ;;
  if use_energy o then set_column0 feature signal_log_energy else Ok feature.

(** The HTK reordering: column 0 moves behind the others, scaled by
    [sqrt 2] when it is C0 and not the energy. *)
Definition mfcc_htk_reorder (feature : list (list R)) (o : options)
  : result (list (list R)) :=
  energy <- get_column feature 0 ;;
  let feature := map (fun row => skipn 1 row) feature in
  let energy :=
    if use_energy o then energy else map (fun e => e * sqrt 2) energy in
  Ok (zip_with (fun row e => row ++ [e]) feature energy).

Definition mfcc (stride : Z) (waveform : list (list R)) (dt : dtype) (o : options)
  : result tensor :=
  _ <- assert (num_ceps o <=? num_mel_bins o)%Z
              "num_ceps cannot be larger than num_mel_bins" ;;
  feature <- fbank stride waveform dt (fbank_options_of_mfcc o) ;;
  feature <- mfcc_cepstra feature o ;;
  feature <- (if htk_compat o then mfcc_htk_reorder feature o else Ok feature) ;;
  Ok (Matrix (_subtract_column_mean feature (subtract_mean o))).
End Features.

(** ** Resampling *)

(** One tap of the kernel of phase [i] at tap position [idx]. *)
Definition sinc_resample_tap (orig_freq new_freq lowpass_filter_width : Z)
           (base_freq : R) (i idx : Z) : R :=
  let t := (- IZR i / IZR new_freq + IZR idx / IZR orig_freq) * base_freq in
  let t := clamp t (- IZR lowpass_filter_width) (IZR lowpass_filter_width) in
  let t := t * PI in
  let window := cos (t / IZR lowpass_filter_width / 2) ^ 2 in
  let kernel := if Req_dec_T t 0 then 1 else sin t / t in
  kernel * window.

Section Resampler.
(** The rounding of the Python floats of [_get_sinc_resample_kernel]. *)
Variable rnd : rounding.

Definition _get_sinc_resample_kernel (orig_freq new_freq lowpass_filter_width : Z)
  : result (list (list R) * Z) :=
  _ <- assert (0 <? lowpass_filter_width)%Z "" ;;
  let base_freq := Z.min orig_freq new_freq in
  (* [base_freq *= 0.99]: the integer as a float, times the float 0.99 *)
  let base_freq := rnd (rnd (IZR base_freq) * rnd (99 / 100)) in
  (* the product of the two integers is exact, the quotient a float *)
  ratio <- float_div (rnd (IZR (lowpass_filter_width * orig_freq))) base_freq ;;
  let width := Zceil (rnd ratio) in
  let idx := zrange (- width) (width + orig_freq) in
  let kernels :=
    map (fun i => map (sinc_resample_tap orig_freq new_freq lowpass_filter_width
                                         base_freq i) idx)
        (zrange 0 new_freq) in
  let scale := base_freq / IZR orig_freq in
  (* torch.stack refuses an empty list of kernels *)
  _ <- (match kernels with [] => Raise RuntimeError | _ => Ok tt end) ;;
  Ok (map (map (fun k => k * scale)) kernels, width).
End Resampler.

(** [F.conv1d(x[:, None], kernel, stride=stride)] on one channel: one
    output row per kernel, one entry per position of the kernel. *)
Definition conv1d (x : list R) (kernel : list (list R)) (stride : Z)
  : result (list (list R)) :=
  let taps := Z.of_nat (length (hd [] kernel)) in
  let len := Z.of_nat (length x) in
  if (stride <=? 0)%Z || (len <? taps)%Z then Raise RuntimeError
  else
    let positions := zrange 0 ((len - taps) / stride + 1) in
    Ok (map (fun k => map (fun p => dot (frame_at x (p * stride) taps) k) positions)
            kernel).

(** [resampled.transpose(1, 2).reshape(num_wavs, -1)] on one channel: the
    outputs of the phases interleaved, position by position. *)
Definition interleave (phases : list (list R)) : list R :=
  flat_map (fun p => map (fun row => nth p row 0) phases)
           (seq 0 (length (hd [] phases))).

(** [target_length] is the ceiling of a quotient of two integers, which
    Python rounds once.  The quotient is taken as exact here: below 2^53
    the rounding does not change the ceiling
    ([ceil_of_rounded_quotient]). *)
Definition resample_waveform (rnd : rounding) (waveform : list (list R))
           (orig_freq new_freq : R) (lowpass_filter_width : Z)
  : result (list (list R)) :=
  _ <- assert (Rltb 0 orig_freq && Rltb 0 new_freq) "" ;;
  let orig_freq := int_of_float orig_freq in
  let new_freq := int_of_float new_freq in
  let gcd := Z.gcd orig_freq new_freq in
  orig_freq <- floordiv orig_freq gcd ;;
  new_freq <- floordiv new_freq gcd ;;
  ' (kernel, width) <-
    _get_sinc_resample_kernel rnd orig_freq new_freq lowpass_filter_width ;;
  (* [reshape(num_wavs, -1)] cannot tell the second size of a tensor
     without channels *)
  _ <- (match waveform with [] => Raise RuntimeError | _ => Ok tt end) ;;
  mapM (fun channel : list R =>
          (* every row of the tensor has [length] samples *)
          let length := Z.of_nat (length channel) in
          let padded :=
            repeat 0 (Z.to_nat width) ++ channel
                   ++ repeat 0 (Z.to_nat (width + orig_freq)) in
          resampled <- conv1d padded kernel orig_freq ;;
          let resampled := interleave resampled in
          ratio <- float_div (IZR new_freq * IZR length) (IZR orig_freq) ;;
          let target_length := Zceil ratio in
          Ok (slice_to resampled target_length))
       waveform.

(** Modelled from the spec: the orthonormal DCT-II basis generator, an
    external collaborator of the cepstral engine.  Entry [(n, k)] is
    [cos(pi / n_mels * (n + 1/2) * k) * sqrt(2 / n_mels)], column 0 scaled
    by [1 / sqrt 2] in addition. *)
Definition create_dct_ortho (n_mfcc n_mels : Z) : list (list R) :=
  map (fun n =>
         map (fun k =>
                let c := cos (PI / IZR n_mels * (IZR n + 1 / 2) * IZR k)
                         * sqrt (2 / IZR n_mels) in
                if (k =? 0)%Z then c * (1 / sqrt 2) else c)
             (zrange 0 n_mfcc))
      (zrange 0 n_mels).

(** ** The specification's reading of the log energy *)

(** The log energy the specification describes for a frame of a tensor of
    type [dt]: the floor inside the logarithm is the machine epsilon of
    that type. *)
Definition log_energy_of_working_type (dt : dtype) (energy_floor : R) (frame : list R) : R :=
  let e := ln (Rmax (sum_of_squares frame) (finfo_eps dt)) in
  if Req_dec_T energy_floor 0 then e else Rmax e (ln energy_floor).

(** What the source computes: the floor inside the logarithm is the
    epsilon of 32-bit floats whatever the type of the tensor. *)
Definition log_energy_of_frame (energy_floor : R) (frame : list R) : R :=
  let e := ln (Rmax (sum_of_squares frame) (/ 2 ^ 23)) in
  if Req_dec_T energy_floor 0 then e else Rmax e (ln energy_floor).

(** ** Collaborators and options for concrete runs *)

(** Modelled from the spec: the real-input FFT collaborator, which turns a
    frame of L samples into L/2 + 1 bins; here the magnitudes of the
    discrete Fourier transform of the frame. *)
Definition dft_abs (frame : list R) : list R :=
  let n := length frame in
  map (fun k =>
         let re := sum (mapi (fun j x => x * cos (2 * PI * INR k * INR j / INR n)) frame) in
         let im := sum (mapi (fun j x => x * sin (2 * PI * INR k * INR j / INR n)) frame) in
         sqrt (re ^ 2 + im ^ 2))
      (seq 0 (n / 2 + 1)).

(** A random source that always draws 1/2. *)
Definition rand_half : nat -> nat -> R := fun _ _ => 1 / 2.

(** The options [o] with another sampling rate, framing and minimal
    duration. *)
Definition with_framing (o : options)
           (sample_frequency' frame_length' frame_shift' min_duration' : R) : options :=
  {| blackman_coeff := blackman_coeff o;
     cepstral_lifter := cepstral_lifter o;
     channel := channel o;
     dither := dither o;
     energy_floor := energy_floor o;
     frame_length := frame_length';
     frame_shift := frame_shift';
     high_freq := high_freq o;
     htk_compat := htk_compat o;
     low_freq := low_freq o;
     num_ceps := num_ceps o;
     min_duration := min_duration';
     num_mel_bins := num_mel_bins o;
     preemphasis_coefficient := preemphasis_coefficient o;
     raw_energy := raw_energy o;
     remove_dc_offset := remove_dc_offset o;
     round_to_power_of_two := round_to_power_of_two o;
     sample_frequency := sample_frequency';
     snip_edges := snip_edges o;
     subtract_mean := subtract_mean o;
     use_energy := use_energy o;
     use_log_fbank := use_log_fbank o;
     use_power := use_power o;
     vtln_high := vtln_high o;
     vtln_low := vtln_low o;
     vtln_warp := vtln_warp o;
     window_type := window_type o |}.

(** The options [o] with another lifter. *)
Definition with_cepstral_lifter (o : options) (cepstral_lifter' : R) : options :=
  {| blackman_coeff := blackman_coeff o;
     cepstral_lifter := cepstral_lifter';
     channel := channel o;
     dither := dither o;
     energy_floor := energy_floor o;
     frame_length := frame_length o;
     frame_shift := frame_shift o;
     high_freq := high_freq o;
     htk_compat := htk_compat o;
     low_freq := low_freq o;
     num_ceps := num_ceps o;
     min_duration := min_duration o;
     num_mel_bins := num_mel_bins o;
     preemphasis_coefficient := preemphasis_coefficient o;
     raw_energy := raw_energy o;
     remove_dc_offset := remove_dc_offset o;
     round_to_power_of_two := round_to_power_of_two o;
     sample_frequency := sample_frequency o;
     snip_edges := snip_edges o;
     subtract_mean := subtract_mean o;
     use_energy := use_energy o;
     use_log_fbank := use_log_fbank o;
     use_power := use_power o;
     vtln_high := vtln_high o;
     vtln_low := vtln_low o;
     vtln_warp := vtln_warp o;
     window_type := window_type o |}.

(** ** The resampling kernel for equal rates *)

(** The cutoff frequency, the half width and the single kernel that
    [_get_sinc_resample_kernel] computes for the reduced rates 1 and 1. *)
Definition unit_rate_base_freq (rnd : rounding) : R :=
  rnd (rnd (IZR (Z.min 1 1)) * rnd (99 / 100)).

Definition unit_rate_width (rnd : rounding) (lowpass_filter_width : Z) : Z :=
  Zceil (rnd (rnd (IZR (lowpass_filter_width * 1)) / unit_rate_base_freq rnd)).

Definition unit_rate_kernel (rnd : rounding) (lowpass_filter_width : Z) : list R :=
  let base_freq := unit_rate_base_freq rnd in
  let width := unit_rate_width rnd lowpass_filter_width in
  map (fun idx => sinc_resample_tap 1 1 lowpass_filter_width base_freq 0 idx
                  * (base_freq / IZR 1))
      (zrange (- width) (width + 1)).

(** The channel with the zeros [resample_waveform] puts around it for the
    rates 1 and 1. *)
Definition unit_rate_padded (rnd : rounding) (lowpass_filter_width : Z)
           (channel : list R) : list R :=
  let width := unit_rate_width rnd lowpass_filter_width in
  repeat 0 (Z.to_nat width) ++ channel ++ repeat 0 (Z.to_nat (width + 1)).

(** ** The number of frames *)

(** The number of frames [m] that [_get_strided] computes from the number
    of samples under each edge policy. *)
Definition num_frames (num_samples window_size window_shift : Z) (snip_edges : bool)
  : Z :=
  if snip_edges then (1 + (num_samples - window_size) / window_shift)%Z
  else ((num_samples + window_shift / 2) / window_shift)%Z.

(** * Properties *)

Unset Implicit Arguments.

(** ** Sequences and strided views *)

Section FramerFacts.
Context {A : Type}.
Implicit Types (w storage : list A).

Lemma sequence_map_Some {I : Type} (f : I -> option (list A)) (g : I -> list A)
      (l : list I) :
  (forall i, In i l -> f i = Some (g i)) ->
  sequence (map f l) = Some (map g l).
Proof.
  induction l as [|i l IH]; intros Hf; simpl.
  - reflexivity.
  - rewrite (Hf i (or_introl eq_refl)), IH; [reflexivity|].
    intros j Hj. apply Hf. now right.
Qed.

Lemma nth_error_skipn_cons storage (s : nat) :
  (s < length storage)%nat ->
  exists x, nth_error storage s = Some x
            /\ skipn s storage = x :: skipn (S s) storage.
Proof.
  revert s. induction storage as [|a storage IH]; intros s Hs; simpl in Hs.
  - lia.
  - destruct s as [|s].
    + exists a. split; reflexivity.
    + destruct (IH s) as [x [H1 H2]]; [lia|].
      exists x. split; [exact H1|]. simpl. exact H2.
Qed.

(** With stride 1 a row of the view is a slice of the storage. *)
Lemma gather_unit_stride storage (len s : nat) :
  (s + len <= length storage)%nat ->
  gather storage (Z.of_nat s) 1 len = Some (firstn len (skipn s storage)).
Proof.
  revert s. induction len as [|len IH]; intros s Hs; simpl.
  - reflexivity.
  - destruct (nth_error_skipn_cons storage s) as [x [Hx Hsk]]; [lia|].
    rewrite Nat2Z.id, Hx.
    replace (Z.of_nat s + 1)%Z with (Z.of_nat (S s)) by lia.
    rewrite IH by lia. rewrite Hsk. reflexivity.
Qed.



(** The steps of [as_strided] over the elements of a tensor of stride
    [step], for the strides [_get_strided] asks for. *)
Lemma as_strided_steps (step shift : Z) :
  (0 < step)%Z ->
  (if (step =? 0)%Z then 0%Z else (shift * step / step)%Z) = shift
  /\ (if (step =? 0)%Z then 0%Z else (step / step)%Z) = 1%Z.
Proof.
  intros Hstep. destruct (Z.eqb_spec step 0); [lia|].
  rewrite Z.div_mul, Z.div_same by lia. split; reflexivity.
Qed.

(** A view whose frames all lie inside the tensor is the list of these
    frames. *)
Lemma as_strided_frames storage (step m ws shift : Z) :
  (0 < step)%Z -> (0 <= m)%Z -> (0 <= ws)%Z -> (0 <= shift)%Z ->
  ((0 < ws)%Z ->
   forall i, (0 <= i < m)%Z -> (i * shift + ws <= Z.of_nat (length storage))%Z) ->
  as_strided storage step (m, ws) (shift * step, step)%Z
  = Ok (Tensor2 m ws (map (fun i => frame_at storage (Z.of_nat i * shift) ws)
                          (seq 0 (Z.to_nat m)))).
Proof.
  intros Hstep Hm Hws Hshift Hin. unfold as_strided.
  replace ((m <? 0) || (ws <? 0) || (shift * step <? 0) || (step <? 0))%Z with false.
  2:{ symmetry. repeat (apply orb_false_intro); apply Z.ltb_ge; nia. }
  destruct (as_strided_steps step shift Hstep) as [-> ->].
  erewrite sequence_map_Some; [reflexivity|].
  intros i Hi. apply in_seq in Hi. cbv beta.
  destruct (Z.eq_dec ws 0) as [->|Hpos].
  - reflexivity.
  - assert (Hb : (Z.of_nat i * shift + ws <= Z.of_nat (length storage))%Z)
      by (apply Hin; lia).
    replace (Z.of_nat i * shift)%Z
      with (Z.of_nat (Z.to_nat (Z.of_nat i * shift))) at 1 by nia.
    rewrite gather_unit_stride by nia.
    reflexivity.
Qed.


Lemma nth_error_map_seq {B : Type} (f : nat -> B) (m i : nat) :
  (i < m)%nat -> nth_error (map f (seq 0 m)) i = Some (f i).
Proof.
  intros Hi. rewrite nth_error_map, nth_error_seq.
  destruct (Nat.ltb_spec i m); [reflexivity | lia].
Qed.

Lemma frame_at_length storage (start ws : Z) :
  (0 <= start)%Z -> (0 <= ws)%Z ->
  (start + ws <= Z.of_nat (length storage))%Z ->
  Z.of_nat (length (frame_at storage start ws)) = ws.
Proof.
  intros Hs Hw Hb. unfold frame_at.
  rewrite length_firstn, length_skipn. lia.
Qed.

(** The signal the source strides over when [snip_edges] is false is the
    extension the specification describes. *)
Lemma extension_refines w (ws shift : Z) :
  (let pad := (ws / 2 - shift / 2)%Z in
   if (0 <? pad)%Z then slice_from (rev w) (- pad) ++ w ++ rev w
   else slice_from w (- pad) ++ rev w)
  = extended_signal w ws shift.
Proof.
  unfold extended_signal, slice_from. cbv zeta.
  destruct (0 <? ws / 2 - shift / 2)%Z eqn:Hpad.
  - apply Z.ltb_lt in Hpad.
    replace (- (ws / 2 - shift / 2) <? 0)%Z with true
      by (symmetry; apply Z.ltb_lt; lia).
    rewrite length_rev. f_equal. f_equal. lia.
  - apply Z.ltb_ge in Hpad.
    replace (- (ws / 2 - shift / 2) <? 0)%Z with false
      by (symmetry; apply Z.ltb_ge; lia).
    f_equal.
    destruct (Z.le_gt_cases (- (ws / 2 - shift / 2)) (Z.of_nat (length w))).
    + rewrite Z.min_l by lia. reflexivity.
    + rewrite Z.min_r by lia. rewrite Nat2Z.id.
      rewrite !skipn_all2 by lia. reflexivity.
Qed.

Lemma extended_signal_length w (ws shift : Z) :
  let n := Z.of_nat (length w) in
  let pad := (ws / 2 - shift / 2)%Z in
  Z.of_nat (length (extended_signal w ws shift))
  = (if (0 <? pad)%Z then Z.min pad n + 2 * n else n - Z.min (- pad) n + n)%Z.
Proof.
  unfold extended_signal. cbv zeta.
  destruct (0 <? ws / 2 - shift / 2)%Z eqn:Hpad;
    rewrite ?length_app, ?length_skipn, ?length_rev; lia.
Qed.
End FramerFacts.

(** ** The framer on small signals *)

Example strided_snip_7_3_2 :
  _get_strided 1 [10; 11; 12; 13; 14; 15; 16]%Z 3 2 true
  = Ok (Tensor2 3 3 [[10; 11; 12]; [12; 13; 14]; [14; 15; 16]]%Z).
Proof. reflexivity. Qed.

(** With [snip_edges] the frames of a view of stride 3 are those of the
    contiguous tensor with the same samples. *)
Example strided_snip_of_a_view :
  _get_strided 3 [10; 11; 12; 13; 14; 15; 16]%Z 3 2 true
  = Ok (Tensor2 3 3 [[10; 11; 12]; [12; 13; 14]; [14; 15; 16]]%Z).
Proof. reflexivity. Qed.

Example strided_snip_short :
  _get_strided 1 [10; 11]%Z 3 2 true = Ok (Tensor2 0 0 []).
Proof. reflexivity. Qed.

Example strided_reflect_pad_pos :
  _get_strided 1 [0; 1; 2; 3; 4]%Z 4 2 false
  = Ok (Tensor2 3 4 [[0; 0; 1; 2]; [1; 2; 3; 4]; [3; 4; 4; 3]]%Z).
Proof. reflexivity. Qed.

Example strided_reflect_pad_neg :
  _get_strided 1 [0; 1; 2; 3; 4; 5]%Z 2 4 false
  = Ok (Tensor2 2 2 [[1; 2]; [5; 5]]%Z).
Proof. reflexivity. Qed.

Example strided_zero_shift :
  _get_strided 1 [0; 1; 2]%Z 2 0 true = Raise ZeroDivisionError.
Proof. reflexivity. Qed.

Example strided_reflect_out_of_storage :
  _get_strided 1 [7]%Z 10 1 false = Raise RuntimeError.
Proof. reflexivity. Qed.

(** Without [snip_edges] a view of stride 2 with 8 samples asks for more
    than the extended signal holds. *)
Example strided_reflect_of_a_view_fails :
  _get_strided 2 [0; 1; 2; 3; 4; 5; 6; 7]%Z 4 2 false = Raise RuntimeError.
Proof. reflexivity. Qed.

Example next_power_of_2_400 : _next_power_of_2 400 = 512%Z.
Proof. reflexivity. Qed.

Example next_power_of_2_512 : _next_power_of_2 512 = 512%Z.
Proof. reflexivity. Qed.

Example slice_from_negative : slice_from [1; 2; 3; 4; 5]%Z (-2) = [4; 5]%Z.
Proof. reflexivity. Qed.

Example slice_from_beyond : slice_from [1; 2; 3]%Z 7 = [].
Proof. reflexivity. Qed.

Example floordiv_negative : floordiv (-7) 2 = Ok (-4)%Z.
Proof. reflexivity. Qed.

(** ** Frames returned by the framer *)

Section FramerResults.
Context {A : Type}.
Implicit Types (w : list A).

Lemma snip_frames_in_signal w (window_size window_shift i : Z) :
  (0 < window_shift)%Z -> (window_size <= Z.of_nat (length w))%Z ->
  (0 <= i < 1 + (Z.of_nat (length w) - window_size) / window_shift)%Z ->
  (i * window_shift + window_size <= Z.of_nat (length w))%Z.
Proof.
  intros Hshift Hlong Hi.
  pose proof (Z.mul_div_le (Z.of_nat (length w) - window_size) window_shift Hshift).
  nia.
Qed.

Lemma get_strided_snip_ok (stride : Z) w (window_size window_shift : Z) :
  (0 < stride)%Z ->
  (0 <= window_size)%Z -> (0 < window_shift)%Z ->
  (window_size <= Z.of_nat (length w))%Z ->
  let m := (1 + (Z.of_nat (length w) - window_size) / window_shift)%Z in
  _get_strided stride w window_size window_shift true
  = Ok (Tensor2 m window_size
                (map (fun i => frame_at w (Z.of_nat i * window_shift) window_size)
                     (seq 0 (Z.to_nat m)))).
Proof.
  intros Hstride Hws Hshift Hlong m. unfold _get_strided.
  destruct (Z.ltb_spec (Z.of_nat (length w)) window_size); [lia|].
  unfold floordiv. destruct (Z.eqb_spec window_shift 0); [lia|].
  simpl bind. fold m.
  assert (Hq : (0 <= (Z.of_nat (length w) - window_size) / window_shift)%Z)
    by (apply Z.div_pos; lia).
  apply as_strided_frames; try lia.
  intros _ i Hi. apply snip_frames_in_signal; assumption.
Qed.

Lemma reflect_frames_in_signal w (window_size window_shift i : Z) :
  (0 < window_shift)%Z -> (0 <= window_size <= Z.of_nat (length w))%Z ->
  (0 <= i < (Z.of_nat (length w) + window_shift / 2) / window_shift)%Z ->
  (i * window_shift + window_size
   <= Z.of_nat (length (extended_signal w window_size window_shift)))%Z.
Proof.
  intros Hshift Hws Hi.
  pose proof (Z.mul_div_le (Z.of_nat (length w) + window_shift / 2) window_shift Hshift)
    as Hmul.
  rewrite extended_signal_length. cbv zeta.
  set (n := Z.of_nat (length w)) in *.
  set (m := ((n + window_shift / 2) / window_shift)%Z) in *.
  assert (Hi' : (i * window_shift <= n + window_shift / 2 - window_shift)%Z) by nia.
  assert (Hm1 : (window_shift <= n + window_shift / 2)%Z) by nia.
  clearbody m n.
  pose proof (Z.div_mod window_size 2 ltac:(lia)) as Hd1.
  pose proof (Z.mod_pos_bound window_size 2 ltac:(lia)) as Hd2.
  pose proof (Z.div_mod window_shift 2 ltac:(lia)) as Hd3.
  pose proof (Z.mod_pos_bound window_shift 2 ltac:(lia)) as Hd4.
  destruct (0 <? window_size / 2 - window_shift / 2)%Z eqn:Hpad.
  - apply Z.ltb_lt in Hpad. lia.
  - apply Z.ltb_ge in Hpad. lia.
Qed.

(** Without [snip_edges] the framer strides over the extended signal. *)
Lemma get_strided_reflect_run (stride : Z) w (window_size window_shift : Z) :
  (0 < window_shift)%Z ->
  let m := ((Z.of_nat (length w) + window_shift / 2) / window_shift)%Z in
  let signal := extended_signal w window_size window_shift in
  _get_strided stride w window_size window_shift false
  = as_strided signal 1 (m, window_size) (window_shift * stride, stride)%Z.
Proof.
  intros Hshift m signal.
  unfold _get_strided, floordiv.
  destruct (Z.eqb_spec window_shift 0); [lia|].
  change (2 =? 0)%Z with false. simpl bind.
  pose proof (extension_refines w window_size window_shift) as He.
  cbv zeta in He. rewrite He. reflexivity.
Qed.

Lemma get_strided_reflect_ok w (window_size window_shift : Z) :
  (0 < window_shift)%Z -> (0 <= window_size <= Z.of_nat (length w))%Z ->
  let m := ((Z.of_nat (length w) + window_shift / 2) / window_shift)%Z in
  let signal := extended_signal w window_size window_shift in
  _get_strided 1 w window_size window_shift false
  = Ok (Tensor2 m window_size
                (map (fun i => frame_at signal (Z.of_nat i * window_shift) window_size)
                     (seq 0 (Z.to_nat m)))).
Proof.
  intros Hshift Hws m signal.
  assert (Hm0 : (0 <= m)%Z).
  { apply Z.div_pos; [apply Z.add_nonneg_nonneg|]; try lia. apply Z.div_pos; lia. }
  rewrite get_strided_reflect_run by exact Hshift.
  fold m signal.
  apply as_strided_frames; try lia.
  intros _ i Hi. apply reflect_frames_in_signal; assumption.
Qed.
End FramerResults.

(** One second at 16 kHz with windows of 400 samples every 160 samples
    gives 98 frames. *)
Example frames_of_one_second :
  exists frames,
    _get_strided 1 (repeat 0%Z (Z.to_nat 16000)) 400 160 true
    = Ok (Tensor2 98 400 frames).
Proof.
  assert (Hlen : Z.of_nat (length (repeat 0%Z (Z.to_nat 16000))) = 16000%Z)
    by (rewrite repeat_length; lia).
  eexists.
  rewrite (get_strided_snip_ok 1 (repeat 0%Z (Z.to_nat 16000)) 400 160)
    by (rewrite ?Hlen; lia).
  rewrite Hlen. reflexivity.
Qed.

(** ** The framer *)

Section FramerTheorems.
Context {A : Type}.
Implicit Types (w : list A).

(** C4.  With [snip_edges = true], a positive shift and a window size that
    is not negative, [_get_strided] returns the empty 0 x 0 matrix when the
    signal has fewer than [window_size] samples; otherwise it returns
    exactly [m = 1 + (n - window_size) // window_shift] frames of
    [window_size] columns, frame [i] being the [window_size] consecutive
    samples of the signal that start at sample [i * window_shift], all of
    them inside the signal (nothing is padded).  This holds for the
    contiguous waveform and for every view of a positive stride. *)
Theorem get_strided_snip_edges (stride : Z) w (window_size window_shift : Z) :
  (0 < stride)%Z ->
  (0 <= window_size)%Z -> (0 < window_shift)%Z ->
  let n := Z.of_nat (length w) in
  ((n < window_size)%Z ->
   _get_strided stride w window_size window_shift true = Ok (Tensor2 0 0 []))
  /\
  ((window_size <= n)%Z ->
   let m := (1 + (n - window_size) / window_shift)%Z in
   exists frames,
     _get_strided stride w window_size window_shift true
     = Ok (Tensor2 m window_size frames)
     /\ Z.of_nat (length frames) = m
     /\ forall i, (Z.of_nat i < m)%Z ->
          nth_error frames i = Some (frame_at w (Z.of_nat i * window_shift) window_size)
          /\ (Z.of_nat i * window_shift + window_size <= n)%Z
          /\ Z.of_nat (length (frame_at w (Z.of_nat i * window_shift) window_size))
             = window_size).
Proof.
  intros Hstride Hws Hshift n. split.
  - intros Hshort. unfold _get_strided. fold n.
    destruct (Z.ltb_spec n window_size); [reflexivity | lia].
  - intros Hlong m.
    assert (Hq : (0 <= (n - window_size) / window_shift)%Z)
      by (apply Z.div_pos; lia).
    eexists. split; [apply get_strided_snip_ok; assumption|].
    fold n m. split.
    + rewrite length_map, length_seq. unfold m. lia.
    + intros i Hi.
      assert (Hb : (Z.of_nat i * window_shift + window_size <= n)%Z)
        by (apply snip_frames_in_signal; [assumption | assumption | fold n m; lia]).
      split; [|split].
      * apply (nth_error_map_seq
                 (fun i => frame_at w (Z.of_nat i * window_shift) window_size)).
        lia.
      * exact Hb.
      * apply frame_at_length; fold n; nia.
Qed.

End FramerTheorems.

Lemma get_strided_snip_edges_witness :
  exists frames,
    _get_strided 1 [10; 11; 12; 13; 14; 15; 16]%Z 3 2 true = Ok (Tensor2 3 3 frames)
    /\ nth_error frames 1 = Some [12; 13; 14]%Z.
Proof.
  destruct (get_strided_snip_edges 1 [10; 11; 12; 13; 14; 15; 16]%Z 3 2) as [_ Hlong].
  - lia.
  - lia.
  - lia.
  - destruct Hlong as (frames & Hrun & _ & Hframes).
    + simpl. lia.
    + exists frames. split; [exact Hrun|].
      destruct (Hframes 1%nat) as [Hnth _].
      * vm_compute. reflexivity.
      * exact Hnth.
Defined.



(** ** Comparisons and rounding of reals *)

Lemma Rltb_true x y : x < y -> Rltb x y = true.
Proof. intros H. unfold Rltb. destruct (Rlt_dec x y); [reflexivity | contradiction]. Qed.

Lemma Rltb_false x y : y <= x -> Rltb x y = false.
Proof. intros H. unfold Rltb. destruct (Rlt_dec x y); [lra | reflexivity]. Qed.

Lemma Rleb_true x y : x <= y -> Rleb x y = true.
Proof. intros H. unfold Rleb. destruct (Rle_dec x y); [reflexivity | contradiction]. Qed.

Lemma Rleb_false x y : y < x -> Rleb x y = false.
Proof. intros H. unfold Rleb. destruct (Rle_dec x y); [lra | reflexivity]. Qed.

Lemma Reqb_true x y : x = y -> Reqb x y = true.
Proof. intros H. unfold Reqb. destruct (Req_dec_T x y); [reflexivity | contradiction]. Qed.

Lemma Reqb_false x y : x <> y -> Reqb x y = false.
Proof. intros H. unfold Reqb. destruct (Req_dec_T x y); [contradiction | reflexivity]. Qed.

Lemma Rltb_spec x y : Rltb x y = true <-> x < y.
Proof.
  unfold Rltb. destruct (Rlt_dec x y); split; intros; try assumption;
    try reflexivity; try discriminate; contradiction.
Qed.

Lemma Rleb_spec x y : Rleb x y = true <-> x <= y.
Proof.
  unfold Rleb. destruct (Rle_dec x y); split; intros; try assumption;
    try reflexivity; try discriminate; contradiction.
Qed.

Lemma Reqb_spec x y : Reqb x y = true <-> x = y.
Proof.
  unfold Reqb. destruct (Req_dec_T x y); split; intros; try assumption;
    try reflexivity; try discriminate; contradiction.
Qed.

(** [int] of a float that is a whole number. *)
Lemma int_of_float_IZR (z : Z) (x : R) : x = IZR z -> int_of_float x = z.
Proof.
  intros ->. unfold int_of_float.
  destruct (Rle_dec 0 (IZR z)).
  - apply Zfloor_eq. lra.
  - unfold Zceil. replace (- IZR z) with (IZR (- z)) by (rewrite opp_IZR; reflexivity).
    rewrite (Zfloor_eq (- z)); [lia | lra].
Qed.

Lemma sum_nonneg (l : list R) : Forall (fun x => 0 <= x) l -> 0 <= sum l.
Proof.
  induction 1 as [|x l Hx _ IH]; simpl; lra.
Qed.

Lemma finfo_eps_pos (d : dtype) : 0 < finfo_eps d.
Proof.
  destruct d; unfold finfo_eps; apply Rinv_0_lt_compat; apply pow_lt; lra.
Qed.

Lemma EPSILON_value : EPSILON = / 2 ^ 23.
Proof. reflexivity. Qed.

Example default_window_size :
  int_of_float (16000 * 25 * MILLISECONDS_TO_SECONDS) = 400%Z.
Proof. apply int_of_float_IZR. unfold MILLISECONDS_TO_SECONDS. lra. Qed.

Example default_window_shift :
  int_of_float (16000 * 10 * MILLISECONDS_TO_SECONDS) = 160%Z.
Proof. apply int_of_float_IZR. unfold MILLISECONDS_TO_SECONDS. lra. Qed.

(** ** Log energy *)


Lemma get_log_energy_ok (frames : list (list R)) (epsilon energy_floor : R) :
  0 <= energy_floor ->
  _get_log_energy frames epsilon energy_floor
  = Ok (map (fun frame =>
               let e := ln (Rmax (sum_of_squares frame) epsilon) in
               if Req_dec_T energy_floor 0 then e else Rmax e (ln energy_floor))
            frames).
Proof.
  intros Hfloor. unfold _get_log_energy.
  destruct (Req_dec_T energy_floor 0) as [Hz|Hnz].
  - reflexivity.
  - unfold math_log. destruct (Rlt_dec 0 energy_floor) as [_|Hn]; [|lra].
    simpl bind. rewrite map_map. reflexivity.
Qed.

Lemma Rmax_eps (x eps : R) : x <= eps -> Rmax x eps = eps.
Proof. intros H. apply Rmax_right. exact H. Qed.

(** C9, as stated, fails for a tensor of 64-bit floats: for the silent
    frame [[0]] and no energy floor the source returns [ln (2^-23)], the
    logarithm of the epsilon of 32-bit floats, where the claim has the
    logarithm of the epsilon of the working type, [ln (2^-52)]. *)
Lemma log_energy_epsilon_is_not_of_working_type :
  _get_log_energy [[0]] (_get_epsilon float64) 0
  <> Ok [log_energy_of_working_type float64 0 [0]].
Proof.
  unfold _get_log_energy, log_energy_of_working_type, _get_epsilon, EPSILON.
  destruct (Req_dec_T 0 0) as [_|Hne]; [|contradiction].
  simpl map. intros Heq. injection Heq as Heq.
  pose proof (finfo_eps_pos float32) as H32.
  pose proof (finfo_eps_pos float64) as H64.
  assert (Hss : sum_of_squares [0] = 0) by (unfold sum_of_squares; simpl; ring).
  rewrite Hss in Heq.
  rewrite !Rmax_eps in Heq by lra.
  apply ln_inv in Heq; try assumption.
  unfold finfo_eps in Heq.
  apply Rinv_eq_reg in Heq.
  assert (Hlt : 2 ^ 23 < 2 ^ 52) by (apply Rlt_pow; [lra | lia]).
  lra.
Qed.

(** C9, amended.  For every type of tensor, every list of frames and every
    energy floor that is not negative, the log energy of a frame [x] is
    [ln (max (sum of x_i^2) (2^-23))], the floor inside the logarithm being
    the epsilon of 32-bit floats; it is raised to [ln energy_floor] when the
    energy floor is not zero, and left as it is when the energy floor is
    zero. *)
Theorem get_log_energy_formula (dt : dtype) (frames : list (list R)) (energy_floor : R) :
  0 <= energy_floor ->
  _get_log_energy frames (_get_epsilon dt) energy_floor
  = Ok (map (log_energy_of_frame energy_floor) frames).
Proof.
  intros Hfloor. rewrite get_log_energy_ok by exact Hfloor. reflexivity.
Qed.

Lemma get_log_energy_formula_witness :
  0 <= 1
  /\ _get_log_energy [[3; 4]] (_get_epsilon float64) 1
     = Ok (map (log_energy_of_frame 1) [[3; 4]]).
Proof.
  split; [lra | apply (get_log_energy_formula float64 [[3; 4]] 1); lra].
Defined.

(** ** VTLN warping *)

Ltac decide_reals :=
  repeat match goal with
         | |- context [Rlt_dec ?a ?b] =>
             let H := fresh "H" in
             destruct (Rlt_dec a b) as [H|H]; [|apply Rnot_lt_le in H]; try lra
         | |- context [Rle_dec ?a ?b] =>
             let H := fresh "H" in
             destruct (Rle_dec a b) as [H|H]; [|apply Rnot_le_lt in H]; try lra
         | |- context [Req_dec_T ?a ?b] =>
             let H := fresh "H" in
             destruct (Req_dec_T a b) as [H|H]; try lra
         end.

(** C6 at a configuration that passes every assertion of [vtln_warp_freq]
    (and those of [get_mel_banks]): with [low_freq = 0], [high_freq = 100],
    [vtln_low_cutoff = 50], [vtln_high_cutoff = 60] and warp factor 3 the
    lower inflection point [l = 150] lies above [high_freq], the [before_l]
    assignment overwrites the [after_h] one at [high_freq], and
    [F(high_freq)] is [100 / 3] where the docstring has [high_freq]. *)
Theorem vtln_warp_freq_moves_high_freq :
  vtln_warp_freq 50 60 0 100 3 [100] = Ok [100 / 3]
  /\ vtln_warp_freq 50 60 0 100 3 [100] <> Ok [100].
Proof.
  assert (H : vtln_warp_freq 50 60 0 100 3 [100] = Ok [100 / 3]).
  { unfold vtln_warp_freq.
    rewrite (Rltb_true 0 50) by lra. rewrite (Rltb_true 60 100) by lra.
    simpl bind.
    rewrite (Rmax_right 1 3) by lra. rewrite (Rmin_left 1 3) by lra.
    unfold float_div.
    destruct (Req_dec_T 3 0) as [H3|_]; [lra|]. simpl bind.
    rewrite (Rltb_true 0 (50 * 3)) by lra. rewrite (Rltb_true (60 * 1) 100) by lra.
    simpl bind.
    destruct (Req_dec_T (50 * 3 - 0) 0) as [Hl|_]; [lra|]. simpl bind.
    destruct (Req_dec_T (100 - 60 * 1) 0) as [Hh|_]; [lra|]. simpl bind.
    unfold vtln_warp_assignments.
    rewrite (Rltb_false 100 0) by lra. rewrite (Rltb_false 100 100) by lra.
    rewrite (Rltb_true 100 (50 * 3)) by lra.
    simpl. do 2 f_equal. field. }
  split; [exact H|].
  rewrite H. intros Heq. injection Heq as Heq. lra.
Qed.

(** The warp at one frequency once the assertions of [vtln_warp_freq]
    have passed. *)
Lemma vtln_warp_freq_defined (vtln_low_cutoff vtln_high_cutoff low_freq high_freq warp : R)
      (freq : list R) :
  low_freq < vtln_low_cutoff -> vtln_high_cutoff < high_freq -> warp <> 0 ->
  low_freq < vtln_low_cutoff * Rmax 1 warp ->
  vtln_high_cutoff * Rmin 1 warp < high_freq ->
  let l := vtln_low_cutoff * Rmax 1 warp in
  let h := vtln_high_cutoff * Rmin 1 warp in
  let scale := 1 / warp in
  vtln_warp_freq vtln_low_cutoff vtln_high_cutoff low_freq high_freq warp freq
  = Ok (map (vtln_warp_assignments low_freq high_freq l h scale
               ((scale * l - low_freq) / (l - low_freq))
               ((high_freq - scale * h) / (high_freq - h))) freq).
Proof.
  intros Hlow Hhigh Hw Hl Hh l h scale. unfold vtln_warp_freq.
  rewrite Rltb_true by lra. rewrite Rltb_true by lra. simpl bind.
  unfold float_div.
  destruct (Req_dec_T warp 0); [contradiction|]. simpl bind.
  fold l h. rewrite (Rltb_true low_freq l) by (unfold l; lra).
  rewrite (Rltb_true h high_freq) by (unfold h; lra). simpl bind.
  destruct (Req_dec_T (l - low_freq) 0); [unfold l in *; lra|]. simpl bind.
  destruct (Req_dec_T (high_freq - h) 0); [unfold h in *; lra|]. simpl bind.
  reflexivity.
Qed.

(** When the inflection points are in order, [l <= h], the warp has the
    properties of its docstring: it fixes [low_freq] and [high_freq], is
    [f / warp] on [[l, h]], the identity outside [[low_freq, high_freq]],
    and its outer pieces meet the middle one at [l] and at [h]. *)
Lemma vtln_warp_assignments_ordered (low_freq high_freq l h warp : R) :
  low_freq < l -> l <= h -> h < high_freq -> warp <> 0 ->
  let scale := 1 / warp in
  let F := vtln_warp_assignments low_freq high_freq l h scale
             ((scale * l - low_freq) / (l - low_freq))
             ((high_freq - scale * h) / (high_freq - h)) in
  F low_freq = low_freq
  /\ F high_freq = high_freq
  /\ (forall f, l <= f <= h -> F f = f / warp)
  /\ (forall f, f < low_freq \/ high_freq < f -> F f = f)
  /\ (forall f, low_freq <= f < l ->
        F f = low_freq + (l / warp - low_freq) / (l - low_freq) * (f - low_freq))
  /\ (forall f, h <= f <= high_freq ->
        F f = high_freq + (high_freq - h / warp) / (high_freq - h) * (f - high_freq))
  /\ low_freq + (l / warp - low_freq) / (l - low_freq) * (l - low_freq) = l / warp
  /\ high_freq + (high_freq - h / warp) / (high_freq - h) * (h - high_freq) = h / warp.
Proof.
  intros Hl Hlh Hh Hw scale F.
  unfold F, vtln_warp_assignments, scale, Rltb, Rleb.
  repeat split.
  - decide_reals; simpl; try lra; try (field; lra).
  - decide_reals; simpl; try lra; try (field; lra).
  - intros f Hf. decide_reals; simpl; try lra; try (field; lra).
    assert (Hfh : f = h) by lra. subst f. field; lra.
  - intros f [Hf|Hf]; decide_reals; simpl; try lra; try (field; lra).
  - intros f Hf. decide_reals; simpl; try lra; try (field; lra).
  - intros f Hf. decide_reals; simpl; try lra; try (field; lra).
  - field; lra.
  - field; lra.
Qed.

(** ** Mel filterbank *)

Lemma zrange_length (lo hi : Z) : length (zrange lo hi) = Z.to_nat (hi - lo).
Proof. unfold zrange. rewrite length_map, length_seq. reflexivity. Qed.

Lemma combine_map_map {I X Y : Type} (f : I -> X) (g : I -> Y) (l : list I) :
  combine (map f l) (map g l) = map (fun i => (f i, g i)) l.
Proof. induction l as [|i l IH]; simpl; [reflexivity | rewrite IH; reflexivity]. Qed.

(** Every weight is non-negative, warped or not. *)
Lemma mel_weight_nonneg (warp left_mel center_mel right_mel mel : R) :
  0 <= mel_weight warp left_mel center_mel right_mel mel.
Proof.
  unfold mel_weight. destruct (Req_dec_T warp 1) as [_|_].
  - apply Rmax_l.
  - unfold Rltb, Rleb.
    destruct (Rlt_dec center_mel mel) as [Hc|Hc];
      destruct (Rlt_dec mel right_mel) as [Hr|Hr];
      destruct (Rlt_dec left_mel mel) as [Hl|Hl];
      destruct (Rle_dec mel center_mel) as [Hm|Hm]; simpl; try lra;
      apply Rlt_le, Rdiv_lt_0_compat; lra.
Qed.

(** Without warping the two slopes add up to 2, so their minimum is at
    most 1. *)
Lemma mel_weight_unwarped_le_1 (left_mel center_mel right_mel mel delta : R) :
  0 < delta -> center_mel - left_mel = delta -> right_mel - center_mel = delta ->
  mel_weight 1 left_mel center_mel right_mel mel
  = Rmax 0 (Rmin ((mel - left_mel) / (center_mel - left_mel))
                 ((right_mel - mel) / (right_mel - center_mel)))
  /\ mel_weight 1 left_mel center_mel right_mel mel <= 1.
Proof.
  intros Hd Hl Hr. unfold mel_weight.
  destruct (Req_dec_T 1 1) as [_|Hne]; [|contradiction]. split; [reflexivity|].
  rewrite Hl, Hr.
  assert (Hsum : (mel - left_mel) / delta + (right_mel - mel) / delta = 2)
    by (field_simplify_eq; lra).
  apply Rmax_lub; [lra|].
  destruct (Rle_dec ((mel - left_mel) / delta) ((right_mel - mel) / delta)) as [H|H].
  - rewrite Rmin_left by exact H. lra.
  - rewrite Rmin_right by lra. lra.
Qed.

Lemma mel_scale_scalar_defined (freq : R) :
  0 <= freq -> mel_scale_scalar freq = Ok (1127 * ln (1 + freq / 700)).
Proof.
  intros H. unfold mel_scale_scalar, math_log.
  destruct (Rlt_dec 0 (1 + freq / 700)) as [_|Hn]; [reflexivity|].
  exfalso. apply Hn. lra.
Qed.

Lemma mel_scale_scalar_increasing (a b : R) :
  0 <= a -> a < b -> 1127 * ln (1 + a / 700) < 1127 * ln (1 + b / 700).
Proof.
  intros Ha Hab.
  assert (H : ln (1 + a / 700) < ln (1 + b / 700)) by (apply ln_increasing; lra).
  lra.
Qed.

Lemma vtln_warp_mel_freq_defined (vtln_low vtln_high low_freq high_freq warp : R)
      (mel_freq : list R) :
  0 <= low_freq -> low_freq < vtln_low -> 0 < vtln_high -> vtln_high < high_freq ->
  0 < warp ->
  exists out,
    vtln_warp_mel_freq vtln_low vtln_high low_freq high_freq warp mel_freq = Ok out
    /\ length out = length mel_freq.
Proof.
  intros Hlow Hvl Hvh0 Hvh Hw. unfold vtln_warp_mel_freq.
  assert (Hmax : 1 <= Rmax 1 warp) by apply Rmax_l.
  assert (Hmin : 0 < Rmin 1 warp <= 1)
    by (split; [apply Rmin_glb_lt; lra | apply Rmin_l]).
  rewrite vtln_warp_freq_defined; try lra; try nra.
  simpl bind. eexists. split; [reflexivity|].
  unfold mel_scale, inverse_mel_scale. rewrite !length_map. reflexivity.
Qed.

Lemma assert_true (b : bool) (msg : string) : b = true -> assert b msg = Ok tt.
Proof. intros ->. reflexivity. Qed.

(** The bank of a configuration that passes the assertions: [num_bins]
    filters over [window_length_padded / 2] FFT bins, each made of the
    weights of one triple of mel boundaries; without warping the
    boundaries of a filter are spaced by the same positive step. *)
Lemma get_mel_banks_returns (num_bins window_length_padded : Z)
      (sample_freq low_freq high_freq vtln_low vtln_high vtln_warp_factor : R) :
  (3 < num_bins)%Z ->
  (0 < window_length_padded)%Z ->
  (window_length_padded mod 2 = 0)%Z ->
  let nyquist := (1 / 2) * sample_freq in
  let high := if Rle_dec high_freq 0 then high_freq + nyquist else high_freq in
  let vhigh := if Rlt_dec vtln_high 0 then vtln_high + nyquist else vtln_high in
  0 <= low_freq < nyquist ->
  0 < high <= nyquist ->
  low_freq < high ->
  vtln_warp_factor = 1
  \/ (0 < vtln_warp_factor
      /\ low_freq < vtln_low < high /\ 0 < vhigh < high /\ vtln_low < vhigh) ->
  exists bins center_freqs,
    get_mel_banks num_bins window_length_padded sample_freq low_freq high_freq
                  vtln_low vtln_high vtln_warp_factor
    = Ok (bins, center_freqs)
    /\ Z.of_nat (length bins) = num_bins
    /\ Forall (fun filt =>
                 Z.of_nat (length filt) = (window_length_padded / 2)%Z
                 /\ exists left_mel center_mel right_mel mel,
                      filt = map (mel_weight vtln_warp_factor left_mel center_mel right_mel)
                                 mel
                      /\ (vtln_warp_factor = 1 ->
                          exists delta, 0 < delta
                                        /\ center_mel - left_mel = delta
                                        /\ right_mel - center_mel = delta))
              bins.
Proof.
  intros Hbins Hwlp Heven nyquist high vhigh Hlow Hhigh Hlh Hvtln.
  unfold get_mel_banks.
  rewrite assert_true by (apply Z.ltb_lt; exact Hbins).
  rewrite assert_true by (apply Z.eqb_eq; exact Heven).
  cbn [bind]. fold nyquist.
  replace (if Rleb high_freq 0 then high_freq + nyquist else high_freq) with high
    by (unfold high, Rleb; destruct (Rle_dec high_freq 0); reflexivity).
  replace (if Rltb vtln_high 0 then vtln_high + nyquist else vtln_high) with vhigh
    by (unfold vhigh, Rltb; destruct (Rlt_dec vtln_high 0); reflexivity).
  rewrite assert_true.
  2:{ rewrite Rleb_true, !Rltb_true, Rleb_true by lra. reflexivity. }
  cbn [bind]. unfold float_div.
  destruct (Req_dec_T (IZR window_length_padded) 0) as [Hz|_].
  { apply eq_IZR in Hz. lia. }
  cbn [bind].
  rewrite !mel_scale_scalar_defined by lra. cbn [bind].
  pose proof (mel_scale_scalar_increasing low_freq high (proj1 Hlow) Hlh) as Hmel.
  set (mel_low := 1127 * ln (1 + low_freq / 700)) in *.
  set (mel_high := 1127 * ln (1 + high / 700)) in *.
  set (delta := (mel_high - mel_low) / IZR (num_bins + 1)).
  assert (Hdelta : 0 < delta).
  { unfold delta. apply Rdiv_lt_0_compat; [lra|]. apply IZR_lt. lia. }
  set (bin := zrange 0 num_bins).
  set (mel := mel_scale _).
  assert (Hmel_len : Z.of_nat (length mel) = (window_length_padded / 2)%Z).
  { unfold mel, mel_scale. rewrite !length_map, zrange_length.
    assert (0 <= window_length_padded / 2)%Z by (apply Z.div_pos; lia). lia. }
  assert (Hbin_len : Z.of_nat (length bin) = num_bins)
    by (unfold bin; rewrite zrange_length; lia).
  assert (Hfft : (window_length_padded / 2 <? 0)%Z = false).
  { apply Z.ltb_ge. apply Z.div_pos; lia. }
  assert (Hunwarped :
            forall l c r,
              In (l, c, r)
                 (combine (combine (map (fun b => mel_low + IZR b * delta) bin)
                                   (map (fun b => mel_low + (IZR b + 1) * delta) bin))
                          (map (fun b => mel_low + (IZR b + 2) * delta) bin)) ->
              exists d, 0 < d /\ c - l = d /\ r - c = d).
  { intros l c r Hlcr.
    rewrite combine_map_map in Hlcr.
    rewrite (combine_map_map (fun i => (mel_low + IZR i * delta,
                                        mel_low + (IZR i + 1) * delta))) in Hlcr.
    apply in_map_iff in Hlcr. destruct Hlcr as [b [Hb _]].
    injection Hb as Hl Hc Hr. exists delta. subst l c r.
    split; [exact Hdelta|]. split; ring. }
  destruct (Reqb vtln_warp_factor 1) eqn:Hwarp.
  - (* no warping *)
    cbn [orb]. cbn [assert bind]. rewrite Hfft. cbn [bind].
    eexists. eexists. split; [reflexivity|]. split.
    + rewrite length_map, !length_combine, !length_map. lia.
    + apply Forall_forall. intros filt Hin.
      apply in_map_iff in Hin. destruct Hin as [[[l c] r] [Hfilt Hlcr]].
      subst filt.
      split; [rewrite length_map; exact Hmel_len|].
      exists l, c, r, mel. split; [reflexivity|].
      intros _. apply Hunwarped. exact Hlcr.
  - (* warping *)
    assert (Hne : vtln_warp_factor <> 1).
    { intros Heq. rewrite (Reqb_true _ _ Heq) in Hwarp. discriminate. }
    destruct Hvtln as [Hone | (Hw & Hvl & Hvh & Hvlh)]; [contradiction|].
    rewrite assert_true.
    2:{ rewrite !Rltb_true by lra. reflexivity. }
    cbn [bind].
    destruct (vtln_warp_mel_freq_defined vtln_low vhigh low_freq high vtln_warp_factor
                (map (fun b => mel_low + IZR b * delta) bin))
      as [lm [Hlm Hlm_len]]; try lra.
    destruct (vtln_warp_mel_freq_defined vtln_low vhigh low_freq high vtln_warp_factor
                (map (fun b => mel_low + (IZR b + 1) * delta) bin))
      as [cm [Hcm Hcm_len]]; try lra.
    destruct (vtln_warp_mel_freq_defined vtln_low vhigh low_freq high vtln_warp_factor
                (map (fun b => mel_low + (IZR b + 2) * delta) bin))
      as [rm [Hrm Hrm_len]]; try lra.
    rewrite Hlm, Hcm, Hrm. cbn [bind]. rewrite Hfft. cbn [bind].
    rewrite length_map in Hlm_len, Hcm_len, Hrm_len.
    eexists. eexists. split; [reflexivity|]. split.
    + rewrite length_map, !length_combine. lia.
    + apply Forall_forall. intros filt Hin.
      apply in_map_iff in Hin. destruct Hin as [[[l c] r] [Hfilt _]].
      subst filt.
      split; [rewrite length_map; exact Hmel_len|].
      exists l, c, r, mel. split; [reflexivity|].
      intros Heq. contradiction.
Qed.

(** The filterbank in exact arithmetic.  For every configuration that
    passes the assertions of [get_mel_banks] (more than 3 bins, a positive even padded window
    length, [0 <= low_freq < nyquist], [0 < high_freq <= nyquist],
    [low_freq < high_freq], and either no warping or a positive warp factor
    with [low_freq < vtln_low < high_freq], [0 < vtln_high < high_freq] and
    [vtln_low < vtln_high]) the function returns a bank of [num_bins] rows
    of [window_length_padded / 2] weights; every weight is non-negative and
    so is the sum of every row; and when the warp factor is 1 every weight
    is at most 1, being [max(0, min(up_slope, down_slope))] for mel
    boundaries [left < center < right]. *)
Theorem get_mel_banks_weights (num_bins window_length_padded : Z)
        (sample_freq low_freq high_freq vtln_low vtln_high vtln_warp_factor : R) :
  (3 < num_bins)%Z ->
  (0 < window_length_padded)%Z ->
  (window_length_padded mod 2 = 0)%Z ->
  let nyquist := (1 / 2) * sample_freq in
  let high := if Rle_dec high_freq 0 then high_freq + nyquist else high_freq in
  let vhigh := if Rlt_dec vtln_high 0 then vtln_high + nyquist else vtln_high in
  0 <= low_freq < nyquist ->
  0 < high <= nyquist ->
  low_freq < high ->
  vtln_warp_factor = 1
  \/ (0 < vtln_warp_factor
      /\ low_freq < vtln_low < high /\ 0 < vhigh < high /\ vtln_low < vhigh) ->
  exists bins center_freqs,
    get_mel_banks num_bins window_length_padded sample_freq low_freq high_freq
                  vtln_low vtln_high vtln_warp_factor
    = Ok (bins, center_freqs)
    /\ Z.of_nat (length bins) = num_bins
    /\ Forall (fun filt =>
                 Z.of_nat (length filt) = (window_length_padded / 2)%Z
                 /\ Forall (fun weight => 0 <= weight) filt
                 /\ 0 <= sum filt
                 /\ (vtln_warp_factor = 1 ->
                     Forall (fun weight => weight <= 1) filt
                     /\ exists left_mel center_mel right_mel mel,
                          left_mel < center_mel < right_mel
                          /\ filt
                             = map (fun m =>
                                      Rmax 0 (Rmin ((m - left_mel) / (center_mel - left_mel))
                                                   ((right_mel - m) / (right_mel - center_mel))))
                                   mel))
              bins.
Proof.
  intros Hbins Hwlp Heven nyquist high vhigh Hlow Hhigh Hlh Hvtln.
  destruct (get_mel_banks_returns num_bins window_length_padded sample_freq low_freq
              high_freq vtln_low vtln_high vtln_warp_factor
              Hbins Hwlp Heven Hlow Hhigh Hlh Hvtln)
    as (bins & cf & Hrun & Hlen & Hall).
  exists bins, cf. split; [exact Hrun|]. split; [exact Hlen|].
  eapply Forall_impl; [|exact Hall]. cbv beta.
  intros filt (Hfl & l & c & r & mel & -> & Hspaced).
  split; [exact Hfl|].
  assert (Hnn : Forall (fun weight => 0 <= weight)
                       (map (mel_weight vtln_warp_factor l c r) mel)).
  { apply Forall_forall. intros x Hx. apply in_map_iff in Hx.
    destruct Hx as [m [<- _]]. apply mel_weight_nonneg. }
  split; [exact Hnn|]. split; [apply sum_nonneg; exact Hnn|].
  intros Hone. destruct (Hspaced Hone) as (d & Hd & Hcl & Hrc). split.
  - apply Forall_forall. intros x Hx. apply in_map_iff in Hx.
    destruct Hx as [m [<- _]]. rewrite Hone.
    apply (mel_weight_unwarped_le_1 l c r m d Hd Hcl Hrc).
  - exists l, c, r, mel. split; [lra|].
    apply map_ext. intros m. rewrite Hone.
    apply (mel_weight_unwarped_le_1 l c r m d Hd Hcl Hrc).
Qed.

Lemma get_mel_banks_weights_witness :
  exists bins center_freqs,
    get_mel_banks 23 512 16000 20 0 100 (-500) 1 = Ok (bins, center_freqs)
    /\ Z.of_nat (length bins) = 23%Z
    /\ Forall (fun filt => Z.of_nat (length filt) = 256%Z
                           /\ Forall (fun weight => 0 <= weight <= 1) filt) bins.
Proof.
  destruct (get_mel_banks_weights 23 512 16000 20 0 100 (-500) 1)
    as (bins & cf & Hrun & Hlen & Hall).
  - lia.
  - lia.
  - reflexivity.
  - lra.
  - destruct (Rle_dec 0 0); lra.
  - destruct (Rle_dec 0 0); lra.
  - left. reflexivity.
  - exists bins, cf. split; [exact Hrun|]. split; [exact Hlen|].
    apply Forall_forall. intros filt Hin.
    rewrite Forall_forall in Hall. destruct (Hall filt Hin) as (Hl & Hnn & _ & Hle).
    split; [exact Hl|].
    destruct (Hle eq_refl) as [Hle1 _]. rewrite Forall_forall in Hnn, Hle1.
    apply Forall_forall. intros x Hx. split; [apply Hnn | apply Hle1]; exact Hx.
Defined.

(** ** The windowing pipeline returns *)

Lemma zip_with_length {X Y Z' : Type} (f : X -> Y -> Z') (a : list X) (b : list Y) :
  length (zip_with f a b) = Nat.min (length a) (length b).
Proof.
  revert b. induction a as [|x a IH]; intros [|y b]; simpl; try reflexivity.
  rewrite IH. reflexivity.
Qed.

Lemma mapi_from_length {X Y : Type} (f : nat -> X -> Y) (i : nat) (l : list X) :
  length (mapi_from f i l) = length l.
Proof.
  revert i. induction l as [|x l IH]; intros i; simpl; [reflexivity|].
  rewrite IH. reflexivity.
Qed.

Lemma mapi_length {X Y : Type} (f : nat -> X -> Y) (l : list X) :
  length (mapi f l) = length l.
Proof. apply mapi_from_length. Qed.

Lemma mapi_from_Forall {X Y : Type} (P : X -> Prop) (Q : Y -> Prop)
      (f : nat -> X -> Y) (i : nat) (l : list X) :
  (forall j x, P x -> Q (f j x)) -> Forall P l -> Forall Q (mapi_from f i l).
Proof.
  intros Hf Hl. revert i. induction Hl as [|x l Hx _ IH]; intros i; simpl.
  - constructor.
  - constructor; [apply Hf; exact Hx | apply IH].
Qed.

Lemma Forall_map_length {X Y : Type} (n : nat) (f : list X -> list Y) (l : list (list X)) :
  (forall x, length (f x) = length x) ->
  Forall (fun x => length x = n) l -> Forall (fun y => length y = n) (map f l).
Proof.
  intros Hf Hl. apply Forall_map. eapply Forall_impl; [|exact Hl].
  intros x Hx. simpl. rewrite Hf. exact Hx.
Qed.

Lemma removelast_cons_length {X : Type} (x : X) (l : list X) :
  length (removelast (x :: l)) = length l.
Proof.
  revert x. induction l as [|y l IH]; intros x; [reflexivity|].
  change (removelast (x :: y :: l)) with (x :: removelast (y :: l)).
  change (length (y :: l)) with (S (length l)).
  change (length (x :: removelast (y :: l))) with (S (length (removelast (y :: l)))).
  f_equal. apply IH.
Qed.

Lemma preemphasis_length (coeff : R) (frame : list R) :
  length (preemphasis coeff frame) = length frame.
Proof.
  unfold preemphasis. rewrite zip_with_length.
  destruct frame as [|x frame]; [reflexivity|].
  rewrite removelast_cons_length. simpl. lia.
Qed.

Lemma pad_right_length (row : list R) (k : Z) :
  (0 <= k)%Z -> Z.of_nat (length (pad_right row k)) = (Z.of_nat (length row) + k)%Z.
Proof.
  intros Hk. unfold pad_right.
  destruct (Z.leb_spec 0 k); [|lia].
  rewrite length_app, repeat_length. lia.
Qed.

Lemma cosine_window_ok (alpha beta : R) (n : Z) :
  (2 <= n)%Z ->
  exists win, cosine_window alpha beta n = Ok win /\ Z.of_nat (length win) = n.
Proof.
  intros Hn. unfold cosine_window.
  destruct (Z.ltb_spec n 0); [lia|]. destruct (Z.eqb_spec n 1); [lia|].
  eexists. split; [reflexivity|]. rewrite length_map, zrange_length. lia.
Qed.

Lemma feature_window_function_ok (window_type : string) (window_size : Z)
      (blackman_coeff : R) :
  In window_type WINDOWS -> (2 <= window_size)%Z ->
  exists win, _feature_window_function window_type window_size blackman_coeff = Ok win
              /\ Z.of_nat (length win) = window_size.
Proof.
  intros Hin Hsize. unfold WINDOWS in Hin. simpl in Hin.
  unfold _feature_window_function.
  destruct Hin as [<-|[<-|[<-|[<-|[<-|[]]]]]]; simpl String.eqb; cbv iota.
  - apply cosine_window_ok; exact Hsize.
  - apply cosine_window_ok; exact Hsize.
  - unfold hann_window.
    destruct (cosine_window_ok (1 / 2) (1 / 2) window_size Hsize) as [win [-> Hlen]].
    cbn [bind]. eexists. split; [reflexivity|]. rewrite length_map. exact Hlen.
  - destruct (Z.ltb_spec window_size 0); [lia|].
    eexists. split; [reflexivity|]. rewrite repeat_length. lia.
  - unfold float_div.
    destruct (Req_dec_T (IZR (window_size - 1)) 0) as [Hz|_].
    { apply eq_IZR in Hz. lia. }
    cbn [bind]. destruct (Z.ltb_spec window_size 0); [lia|].
    eexists. split; [reflexivity|]. rewrite length_map, zrange_length. lia.
Qed.

(** The frame matrix of a signal that holds at least one window, for a
    view of a positive stride under [snip_edges] and for a contiguous
    waveform in both modes. *)
Lemma get_strided_frames (stride : Z) (w : list R) (window_size window_shift : Z)
      (snip_edges : bool) :
  (0 < stride)%Z -> snip_edges = true \/ stride = 1%Z ->
  (0 < window_shift)%Z -> (0 <= window_size <= Z.of_nat (length w))%Z ->
  exists m frames,
    _get_strided stride w window_size window_shift snip_edges
    = Ok (Tensor2 m window_size frames)
    /\ Forall (fun frame => length frame = Z.to_nat window_size) frames.
Proof.
  intros Hstride Hlayout Hshift Hws. destruct snip_edges.
  - eexists. eexists. split; [apply get_strided_snip_ok; lia|].
    apply Forall_forall. intros frame Hin. apply in_map_iff in Hin.
    destruct Hin as [i [<- Hi]]. apply in_seq in Hi.
    assert (Hb : (Z.of_nat i * window_shift + window_size <= Z.of_nat (length w))%Z)
      by (apply snip_frames_in_signal; lia).
    pose proof (frame_at_length w (Z.of_nat i * window_shift) window_size) as Hl.
    lia.
  - destruct Hlayout as [Hsnip | ->]; [discriminate|].
    eexists. eexists. split; [apply get_strided_reflect_ok; lia|].
    apply Forall_forall. intros frame Hin. apply in_map_iff in Hin.
    destruct Hin as [i [<- Hi]]. apply in_seq in Hi.
    assert (Hb : (Z.of_nat i * window_shift + window_size
                  <= Z.of_nat (length (extended_signal w window_size window_shift)))%Z).
    { apply reflect_frames_in_signal; lia. }
    pose proof (frame_at_length (extended_signal w window_size window_shift)
                                (Z.of_nat i * window_shift) window_size) as Hl.
    lia.
Qed.

Lemma get_window_defined (torch_rand : nat -> nat -> R) (stride : Z) (waveform : list R)
      (padded_window_size window_size window_shift : Z) (window_type : string)
      (blackman_coeff : R) (snip_edges raw_energy : bool) (energy_floor dither : R)
      (remove_dc_offset : bool) (preemphasis_coefficient : R) (dt : dtype) :
  (0 < stride)%Z -> snip_edges = true \/ stride = 1%Z ->
  (2 <= window_size <= Z.of_nat (length waveform))%Z ->
  (0 < window_shift)%Z ->
  (window_size <= padded_window_size)%Z ->
  In window_type WINDOWS ->
  0 <= energy_floor ->
  exists frames energy,
    _get_window torch_rand stride waveform padded_window_size window_size window_shift
                window_type blackman_coeff snip_edges raw_energy energy_floor dither
                remove_dc_offset preemphasis_coefficient dt
    = Ok (frames, energy)
    /\ length energy = length frames
    /\ Forall (fun frame => Z.of_nat (length frame) = padded_window_size) frames.
Proof.
  intros Hstride Hlayout Hsize Hshift Hpadded Htype Hfloor. unfold _get_window.
  destruct (get_strided_frames stride waveform window_size window_shift snip_edges
              Hstride Hlayout)
    as (m & frames0 & Hstrided & Hlen0); [lia | lia |].
  rewrite Hstrided. cbn [bind rows size1].
  set (n := Z.to_nat window_size) in *.
  set (f1 := if Reqb dither 0 then frames0 else mapi _ frames0).
  assert (H1 : Forall (fun frame => length frame = n) f1).
  { unfold f1. destruct (Reqb dither 0); [exact Hlen0|].
    unfold mapi at 1.
    apply (mapi_from_Forall (fun frame : list R => length frame = n)); [|exact Hlen0].
    intros j x Hx. rewrite mapi_length. exact Hx. }
  set (f2 := if remove_dc_offset then map _ f1 else f1).
  assert (H2 : Forall (fun frame => length frame = n) f2).
  { unfold f2. destruct remove_dc_offset; [|exact H1].
    apply Forall_map_length; [|exact H1]. intros x. apply length_map. }
  rewrite Z.eqb_refl.
  set (f3 := if Reqb preemphasis_coefficient 0 then f2 else map _ f2).
  assert (H3 : Forall (fun frame => length frame = n) f3).
  { unfold f3. destruct (Reqb preemphasis_coefficient 0); [exact H2|].
    apply Forall_map_length; [|exact H2]. apply preemphasis_length. }
  destruct (feature_window_function_ok window_type window_size blackman_coeff Htype)
    as [win [Hwin Hwin_len]]; [lia|].
  set (f5 := fun frames4 : list (list R) =>
               if (padded_window_size =? window_size)%Z then frames4
               else map (fun frame => pad_right frame (padded_window_size - window_size))
                        frames4).
  assert (H5 : Forall (fun frame => Z.of_nat (length frame) = padded_window_size)
                      (f5 (map (zip_with Rmult win) f3))).
  { unfold f5. apply Forall_forall. intros frame Hin.
    assert (H4 : forall x, In x (map (zip_with Rmult win) f3) ->
                           Z.of_nat (length x) = window_size).
    { intros x Hx. apply in_map_iff in Hx. destruct Hx as [y [<- Hy]].
      rewrite Forall_forall in H3. rewrite zip_with_length, (H3 y Hy). lia. }
    destruct (Z.eqb_spec padded_window_size window_size) as [->|Hne].
    - apply H4. exact Hin.
    - apply in_map_iff in Hin. destruct Hin as [y [<- Hy]].
      rewrite pad_right_length by lia. rewrite (H4 y Hy). lia. }
  destruct raw_energy.
  - rewrite get_log_energy_ok by exact Hfloor. cbn [bind].
    rewrite Hwin. cbn [bind].
    eexists. eexists. split; [reflexivity|]. split.
    + rewrite length_map.
      destruct (padded_window_size =? window_size)%Z; rewrite ?length_map;
        unfold f3; destruct (Reqb preemphasis_coefficient 0); rewrite ?length_map;
        reflexivity.
    + exact H5.
  - cbn [bind]. rewrite Hwin. cbn [bind].
    rewrite get_log_energy_ok by exact Hfloor. cbn [bind].
    eexists. eexists. split; [reflexivity|]. split.
    + rewrite length_map. reflexivity.
    + exact H5.
Qed.

(** ** Validation *)

Section ValidationFacts.
Context {A : Type}.

Lemma window_properties_ok (waveform : list (list A)) (channel : Z)
      (sample_frequency frame_shift frame_length : R) (round_to_power_of_two : bool)
      (preemphasis_coefficient : R) :
  let row := nth (Z.to_nat (Z.max channel 0)) waveform [] in
  let window_shift :=
    int_of_float (sample_frequency * frame_shift * MILLISECONDS_TO_SECONDS) in
  let window_size :=
    int_of_float (sample_frequency * frame_length * MILLISECONDS_TO_SECONDS) in
  let padded_window_size :=
    if round_to_power_of_two then _next_power_of_2 window_size else window_size in
  (Z.max channel 0 < Z.of_nat (length waveform))%Z ->
  (2 <= window_size <= Z.of_nat (length row))%Z ->
  (0 < window_shift)%Z ->
  (padded_window_size mod 2 = 0)%Z ->
  0 <= preemphasis_coefficient <= 1 ->
  0 < sample_frequency ->
  _get_waveform_and_window_properties waveform channel sample_frequency frame_shift
    frame_length round_to_power_of_two preemphasis_coefficient
  = Ok (row, window_shift, window_size, padded_window_size).
Proof.
  intros row window_shift window_size padded_window_size Hch Hsize Hshift Hpad Hpre Hsf.
  unfold _get_waveform_and_window_properties.
  rewrite assert_true by (apply Z.ltb_lt; exact Hch). cbn [bind].
  fold row window_shift window_size padded_window_size.
  rewrite assert_true.
  2:{ apply andb_true_intro. split; apply Z.leb_le; lia. }
  cbn [bind]. rewrite assert_true by (apply Z.ltb_lt; exact Hshift). cbn [bind].
  rewrite assert_true by (apply Z.eqb_eq; exact Hpad). cbn [bind].
  rewrite assert_true by (rewrite !Rleb_true by lra; reflexivity). cbn [bind].
  rewrite assert_true by (apply Rltb_true; exact Hsf). cbn [bind].
  reflexivity.
Qed.

(** A signal with fewer samples than one window fails the validation. *)
Lemma window_properties_short (waveform : list (list A)) (channel : Z)
      (sample_frequency frame_shift frame_length : R) (round_to_power_of_two : bool)
      (preemphasis_coefficient : R) :
  let row := nth (Z.to_nat (Z.max channel 0)) waveform [] in
  let window_size :=
    int_of_float (sample_frequency * frame_length * MILLISECONDS_TO_SECONDS) in
  (Z.of_nat (length row) < window_size)%Z ->
  exists msg,
    _get_waveform_and_window_properties waveform channel sample_frequency frame_shift
      frame_length round_to_power_of_two preemphasis_coefficient
    = Raise (AssertionError msg).
Proof.
  intros row window_size Hshort.
  unfold _get_waveform_and_window_properties.
  destruct (Z.max channel 0 <? Z.of_nat (length waveform))%Z.
  - cbn [assert bind]. fold row window_size.
    replace (window_size <=? Z.of_nat (length row))%Z with false
      by (symmetry; apply Z.leb_gt; exact Hshort).
    rewrite andb_false_r. cbn [assert bind]. eexists. reflexivity.
  - cbn [assert bind]. eexists. reflexivity.
Qed.

(** With [channel = -1] (or any channel that is not positive) the first
    channel is selected, however many channels there are. *)
Lemma window_properties_first_channel (c0 : list A) (others : list (list A))
      (channel : Z) (sample_frequency frame_shift frame_length : R)
      (round_to_power_of_two : bool) (preemphasis_coefficient : R) :
  (channel <= 0)%Z ->
  _get_waveform_and_window_properties (c0 :: others) channel sample_frequency
    frame_shift frame_length round_to_power_of_two preemphasis_coefficient
  = _get_waveform_and_window_properties [c0] channel sample_frequency
      frame_shift frame_length round_to_power_of_two preemphasis_coefficient.
Proof.
  intros Hch. unfold _get_waveform_and_window_properties.
  rewrite Z.max_r by exact Hch.
  rewrite !assert_true by (apply Z.ltb_lt; simpl length; lia).
  reflexivity.
Qed.
End ValidationFacts.

Section ValidationInversion.
Context {A : Type}.

Lemma window_properties_inv (waveform : list (list A)) (channel : Z)
      (sample_frequency frame_shift frame_length : R) (round_to_power_of_two : bool)
      (preemphasis_coefficient : R) (w : list A) (shift size padded : Z) :
  _get_waveform_and_window_properties waveform channel sample_frequency frame_shift
    frame_length round_to_power_of_two preemphasis_coefficient
  = Ok (w, shift, size, padded) ->
  w = nth (Z.to_nat (Z.max channel 0)) waveform []
  /\ (Z.max channel 0 < Z.of_nat (length waveform))%Z
  /\ (2 <= size <= Z.of_nat (length w))%Z
  /\ (0 < shift)%Z
  /\ (padded mod 2 = 0)%Z
  /\ (size <= padded)%Z.
Proof.
  unfold _get_waveform_and_window_properties.
  destruct (Z.ltb_spec (Z.max channel 0) (Z.of_nat (length waveform))) as [Hch|Hch];
    cbn [assert bind]; [|discriminate].
  set (row := nth (Z.to_nat (Z.max channel 0)) waveform []).
  set (window_shift :=
         int_of_float (sample_frequency * frame_shift * MILLISECONDS_TO_SECONDS)).
  set (window_size :=
         int_of_float (sample_frequency * frame_length * MILLISECONDS_TO_SECONDS)).
  set (padded_window_size := if round_to_power_of_two then _ else _).
  destruct (Z.leb_spec 2 window_size) as [H2|H2]; cbn [andb assert bind];
    [|discriminate].
  destruct (Z.leb_spec window_size (Z.of_nat (length row))) as [Hlen|Hlen];
    cbn [assert bind]; [|discriminate].
  destruct (Z.ltb_spec 0 window_shift) as [Hshift|Hshift];
    cbn [assert bind]; [|discriminate].
  destruct (Z.eqb_spec (padded_window_size mod 2) 0) as [Hpad|Hpad];
    cbn [assert bind]; [|discriminate].
  destruct (Rleb 0 preemphasis_coefficient && Rleb preemphasis_coefficient 1);
    cbn [assert bind]; [|discriminate].
  destruct (Rltb 0 sample_frequency); cbn [assert bind]; [|discriminate].
  intros Heq. injection Heq as <- <- <- <-.
  repeat split; try assumption.
  unfold padded_window_size. destruct round_to_power_of_two; [|lia].
  unfold _next_power_of_2, bit_length.
  destruct (Z.eqb_spec window_size 0); [lia|].
  destruct (Z.eqb_spec (window_size - 1) 0); [lia|].
  rewrite Z.abs_eq by lia.
  pose proof (Z.log2_spec (window_size - 1) ltac:(lia)) as Hlog.
  rewrite <- Z.add_1_r in Hlog. lia.
Qed.
End ValidationInversion.

(** ** Short inputs *)

(** C2, as stated, fails: under [snip_edges = true], a signal of 3 samples
    with a window of 4 samples (1000 Hz, frames of 4 ms) is not answered
    with an empty result; [spectrogram] and [fbank] raise the assertion on
    the window size. *)
Lemma short_signal_is_fatal :
  snip_edges (with_framing defaults 1000 4 2 0) = true
  /\ (exists msg,
         spectrogram rand_half dft_abs 1 [[1; 2; 3]] float32
                     (with_framing defaults 1000 4 2 0)
         = Raise (AssertionError msg))
  /\ (exists msg,
         fbank rand_half dft_abs 1 [[1; 2; 3]] float32
               (with_framing defaults 1000 4 2 0)
         = Raise (AssertionError msg)).
Proof.
  split; [reflexivity|].
  assert (Hshort :
            exists msg,
              _get_waveform_and_window_properties
                [[1; 2; 3]] (-1) 1000 2 4 true (97 / 100)
              = Raise (AssertionError msg)).
  { apply window_properties_short.
    rewrite (int_of_float_IZR 4) by (unfold MILLISECONDS_TO_SECONDS; lra).
    simpl. lia. }
  destruct Hshort as [msg Hmsg].
  split; exists msg.
  - unfold spectrogram. cbn [with_framing defaults channel sample_frequency frame_shift
                              frame_length round_to_power_of_two preemphasis_coefficient].
    rewrite Hmsg. reflexivity.
  - unfold fbank. cbn [with_framing defaults channel sample_frequency frame_shift
                        frame_length round_to_power_of_two preemphasis_coefficient].
    rewrite Hmsg. reflexivity.
Qed.

(** C2, amended.  A signal with fewer samples than one window fails the
    shared validation, so [spectrogram] and [fbank] raise an assertion
    error for it, whatever [snip_edges] is; and whenever the validation
    passes, a signal with fewer than [min_duration * sample_frequency]
    samples makes both return the empty tensor. *)
Theorem short_input_results (torch_rand : nat -> nat -> R) (rfft_abs : list R -> list R) (stride : Z)
        (waveform : list (list R)) (dt : dtype) (o : options) :
  let row := nth (Z.to_nat (Z.max (channel o) 0)) waveform [] in
  let window_size :=
    int_of_float (sample_frequency o * frame_length o * MILLISECONDS_TO_SECONDS) in
  ((Z.of_nat (length row) < window_size)%Z ->
   is_assertion_error (spectrogram torch_rand rfft_abs stride waveform dt o) = true
   /\ is_assertion_error (fbank torch_rand rfft_abs stride waveform dt o) = true)
  /\
  (is_ok (_get_waveform_and_window_properties waveform (channel o)
            (sample_frequency o) (frame_shift o) (frame_length o)
            (round_to_power_of_two o) (preemphasis_coefficient o)) = true ->
   INR (length row) < min_duration o * sample_frequency o ->
   spectrogram torch_rand rfft_abs stride waveform dt o = Ok EmptyTensor
   /\ fbank torch_rand rfft_abs stride waveform dt o = Ok EmptyTensor).
Proof.
  intros row window_size. split.
  - intros Hshort.
    destruct (window_properties_short waveform (channel o) (sample_frequency o)
                (frame_shift o) (frame_length o) (round_to_power_of_two o)
                (preemphasis_coefficient o) Hshort) as [msg Hmsg].
    unfold spectrogram, fbank. rewrite Hmsg. split; reflexivity.
  - intros Hok Hdur.
    destruct (_get_waveform_and_window_properties waveform (channel o)
                (sample_frequency o) (frame_shift o) (frame_length o)
                (round_to_power_of_two o) (preemphasis_coefficient o))
      as [[[[w shift] size] padded]|e] eqn:Hval; [|discriminate].
    destruct (window_properties_inv _ _ _ _ _ _ _ _ _ _ _ Hval) as [Hw _].
    unfold spectrogram, fbank. rewrite Hval. cbn [bind].
    subst w. fold row.
    rewrite (Rltb_true _ _ Hdur). split; reflexivity.
Qed.

Lemma window_properties_1000_4_2 {A : Type} (row : list A) (others : list (list A))
      (channel : Z) (preemphasis_coefficient : R) :
  (channel <= 0)%Z -> (4 <= Z.of_nat (length row))%Z ->
  0 <= preemphasis_coefficient <= 1 ->
  _get_waveform_and_window_properties (row :: others) channel 1000 2 4 true
                                      preemphasis_coefficient
  = Ok (row, 2%Z, 4%Z, 4%Z).
Proof.
  intros Hch Hlen Hpre.
  assert (H4 : int_of_float (1000 * 4 * MILLISECONDS_TO_SECONDS) = 4%Z)
    by (apply int_of_float_IZR; unfold MILLISECONDS_TO_SECONDS; lra).
  assert (H2 : int_of_float (1000 * 2 * MILLISECONDS_TO_SECONDS) = 2%Z)
    by (apply int_of_float_IZR; unfold MILLISECONDS_TO_SECONDS; lra).
  rewrite window_properties_ok; rewrite ?H4, ?H2, ?Z.max_r by lia;
    try reflexivity; try lia; try lra; simpl; lia.
Qed.

Lemma short_input_results_witness :
  spectrogram rand_half dft_abs 1 [[1; 2; 3; 4]] float32 (with_framing defaults 1000 4 2 1)
  = Ok EmptyTensor
  /\ fbank rand_half dft_abs 1 [[1; 2; 3; 4]] float32 (with_framing defaults 1000 4 2 1)
     = Ok EmptyTensor.
Proof.
  apply (proj2 (short_input_results rand_half dft_abs 1 [[1; 2; 3; 4]] float32
                                    (with_framing defaults 1000 4 2 1))).
  - cbn [with_framing defaults channel sample_frequency frame_shift frame_length
         round_to_power_of_two preemphasis_coefficient].
    rewrite window_properties_1000_4_2; [reflexivity | lia | simpl; lia | lra].
  - cbn [with_framing defaults channel sample_frequency min_duration].
    simpl. lra.
Defined.

(** ** Shapes of the mel bank and of the filterbank features *)

Ltac invert_bind H :=
  repeat match type of H with
         | bind (assert ?b _) _ = Ok _ =>
             let Hb := fresh "Hassert" in
             destruct b eqn:Hb; cbn [assert bind] in H; [|discriminate H]
         | bind ?r _ = Ok _ =>
             let Hr := fresh "Hrun" in
             destruct r eqn:Hr; cbn [bind] in H; [|discriminate H]
         end.

Lemma vtln_warp_mel_freq_length (vtln_low vtln_high low_freq high_freq warp : R)
      (mel_freq out : list R) :
  vtln_warp_mel_freq vtln_low vtln_high low_freq high_freq warp mel_freq = Ok out ->
  length out = length mel_freq.
Proof.
  unfold vtln_warp_mel_freq. intros H.
  destruct (vtln_warp_freq vtln_low vtln_high low_freq high_freq warp
                           (inverse_mel_scale mel_freq)) as [warped|] eqn:Hw;
    cbn [bind] in H; [|discriminate H].
  injection H as <-.
  unfold vtln_warp_freq in Hw. invert_bind Hw.
  injection Hw as <-.
  unfold mel_scale, inverse_mel_scale. rewrite !length_map. reflexivity.
Qed.

Lemma get_mel_banks_shape (num_bins window_length_padded : Z)
      (sample_freq low_freq high_freq vtln_low vtln_high vtln_warp_factor : R)
      (bins : list (list R)) (center_freqs : list R) :
  get_mel_banks num_bins window_length_padded sample_freq low_freq high_freq
                vtln_low vtln_high vtln_warp_factor
  = Ok (bins, center_freqs) ->
  (3 < num_bins)%Z
  /\ Z.of_nat (length bins) = num_bins
  /\ (0 <= window_length_padded / 2)%Z
  /\ Forall (fun filt => Z.of_nat (length filt) = (window_length_padded / 2)%Z) bins.
Proof.
  unfold get_mel_banks. intros H.
  destruct (3 <? num_bins)%Z eqn:Hbins; cbn [assert bind] in H; [|discriminate H].
  apply Z.ltb_lt in Hbins.
  invert_bind H.
  set (bin := zrange 0 num_bins) in *.
  assert (Hbin : Z.of_nat (length bin) = num_bins)
    by (unfold bin; rewrite zrange_length; lia).
  destruct a2 as [[lm cm] rm].
  destruct (window_length_padded / 2 <? 0)%Z eqn:Hfft; cbn [bind] in H;
    [discriminate H|].
  apply Z.ltb_ge in Hfft.
  injection H as <- _.
  assert (Hlens : length lm = length bin /\ length cm = length bin
                  /\ length rm = length bin).
  { destruct (Reqb vtln_warp_factor 1).
    - injection Hrun2 as <- <- <-. rewrite !length_map. repeat split.
    - invert_bind Hrun2. injection Hrun2 as <- <- <-.
      apply vtln_warp_mel_freq_length in Hrun3, Hrun4, Hrun5.
      rewrite length_map in Hrun3, Hrun4, Hrun5. repeat split; assumption. }
  destruct Hlens as (Hl & Hc & Hr).
  split; [exact Hbins|]. split.
  - rewrite length_map, !length_combine. lia.
  - split; [exact Hfft|].
    apply Forall_forall. intros filt Hin. apply in_map_iff in Hin.
    destruct Hin as [[[l c] r] [<- _]].
    unfold mel_scale. rewrite !length_map, zrange_length. lia.
Qed.

(** ** The zero column of the padded mel bank *)

Lemma pad_right_one (filt : list R) : pad_right filt 1 = filt ++ [0].
Proof. reflexivity. Qed.

(** A weight of zero behind a filter adds nothing to a dot product. *)
Lemma dot_app_zero (ra filt : list R) : dot ra (filt ++ [0]) = dot ra filt.
Proof.
  unfold dot. revert ra. induction filt as [|w filt IH]; intros [|x ra]; simpl;
    try reflexivity.
  - destruct ra; simpl; ring.
  - rewrite IH. reflexivity.
Qed.

(** The dot product with a filter never reads the bin behind it. *)
Lemma dot_removelast (ra filt : list R) :
  length ra = S (length filt) -> dot ra filt = dot (removelast ra) filt.
Proof.
  unfold dot. revert ra. induction filt as [|w filt IH]; intros ra Hlen.
  - destruct ra as [|x [|y ra]]; simpl in *; try reflexivity; discriminate.
  - destruct ra as [|x [|y ra]]; simpl in Hlen; try discriminate.
    change (removelast (x :: y :: ra)) with (x :: removelast (y :: ra)).
    change (sum (zip_with Rmult (x :: y :: ra) (w :: filt)))
      with (x * w + sum (zip_with Rmult (y :: ra) filt)).
    change (sum (zip_with Rmult (x :: removelast (y :: ra)) (w :: filt)))
      with (x * w + sum (zip_with Rmult (removelast (y :: ra)) filt)).
    rewrite (IH (y :: ra)) by (simpl; lia). reflexivity.
Qed.

Lemma mm_T_padded_bank (a1 a2 bank : list (list R)) (cols : nat) :
  Forall (fun filt => length filt = cols) bank ->
  Forall2 (fun r1 r2 => length r1 = length r2 /\ removelast r1 = removelast r2) a1 a2 ->
  mm_T a1 (map (fun filt => pad_right filt 1) bank)
  = mm_T a2 (map (fun filt => pad_right filt 1) bank).
Proof.
  intros Hbank Hrows. unfold mm_T.
  set (inner := length (hd [] (map (fun filt => pad_right filt 1) bank))).
  assert (Hcheck : forallb (fun ra => Nat.eqb (length ra) inner) a1
                   = forallb (fun ra => Nat.eqb (length ra) inner) a2).
  { induction Hrows as [|r1 r2 a1 a2 [Hl _] _ IH]; simpl; [reflexivity|].
    rewrite Hl, IH. reflexivity. }
  rewrite <- Hcheck.
  destruct (forallb (fun ra => Nat.eqb (length ra) inner) a1) eqn:Hshape;
    [|reflexivity].
  f_equal.
  assert (Hinner : forall filt, In filt bank -> inner = S cols).
  { intros filt Hin. unfold inner. destruct bank as [|filt0 bank]; [destruct Hin|].
    cbn [map hd]. rewrite pad_right_one, length_app.
    inversion Hbank; subst. simpl. lia. }
  rewrite forallb_forall in Hshape.
  clear Hcheck.
  induction Hrows as [|r1 r2 a1 a2 [Hl Hr] _ IH]; [reflexivity|].
  change (map (fun ra => map (dot ra) (map (fun filt => pad_right filt 1) bank)) (r1 :: a1))
    with (map (dot r1) (map (fun filt => pad_right filt 1) bank)
          :: map (fun ra => map (dot ra) (map (fun filt => pad_right filt 1) bank)) a1).
  change (map (fun ra => map (dot ra) (map (fun filt => pad_right filt 1) bank)) (r2 :: a2))
    with (map (dot r2) (map (fun filt => pad_right filt 1) bank)
          :: map (fun ra => map (dot ra) (map (fun filt => pad_right filt 1) bank)) a2).
  f_equal.
  - rewrite !map_map. apply map_ext_in. intros filt Hin.
    assert (Hr1 : length r1 = S cols).
    { specialize (Hshape r1 (or_introl eq_refl)). apply Nat.eqb_eq in Hshape.
      rewrite (Hinner filt Hin) in Hshape. exact Hshape. }
    assert (Hf : length filt = cols).
    { rewrite Forall_forall in Hbank. apply Hbank. exact Hin. }
    rewrite pad_right_one, !dot_app_zero.
    rewrite (dot_removelast r1) by lia. rewrite (dot_removelast r2) by lia.
    rewrite Hr. reflexivity.
  - apply IH. intros x Hx. apply Hshape. now right.
Qed.

Lemma removelast_map_commute {X Y : Type} (f : X -> Y) (l : list X) :
  removelast (map f l) = map f (removelast l).
Proof.
  induction l as [|x [|y l] IH]; try reflexivity.
  change (removelast (map f (x :: y :: l))) with (f x :: removelast (map f (y :: l))).
  rewrite IH. reflexivity.
Qed.

Lemma spectra_agree (rfft1 rfft2 : list R -> list R) (use_power : bool)
      (frames : list (list R)) :
  (forall frame, length (rfft1 frame) = length (rfft2 frame)
                 /\ removelast (rfft1 frame) = removelast (rfft2 frame)) ->
  Forall2 (fun r1 r2 => length r1 = length r2 /\ removelast r1 = removelast r2)
          (if use_power then map (map (fun a => a ^ 2)) (map rfft1 frames)
           else map rfft1 frames)
          (if use_power then map (map (fun a => a ^ 2)) (map rfft2 frames)
           else map rfft2 frames).
Proof.
  intros Hagree. destruct use_power.
  - induction frames as [|frame frames IH]; simpl; constructor; [|exact IH].
    destruct (Hagree frame) as [Hl Hr].
    rewrite !length_map, !removelast_map_commute, Hr. split; [exact Hl | reflexivity].
  - induction frames as [|frame frames IH]; simpl; constructor; [|exact IH].
    apply Hagree.
Qed.

(** C10.  In [fbank] the bank returned by [get_mel_banks] for the padded
    window has [padded_window_size / 2] columns and is extended by one
    column of zeros, to [padded_window_size / 2 + 1] columns, before the
    product with the spectrum; so the last bin of the spectrum is
    multiplied by zero weights only: two spectra that differ in nothing but
    their last bin give the same result of [fbank]. *)
Theorem fbank_ignores_nyquist_bin (torch_rand : nat -> nat -> R)
        (rfft1 rfft2 : list R -> list R) (stride : Z) (waveform : list (list R)) (dt : dtype)
        (o : options) :
  (forall frame, length (rfft1 frame) = length (rfft2 frame)
                 /\ removelast (rfft1 frame) = removelast (rfft2 frame)) ->
  fbank torch_rand rfft1 stride waveform dt o = fbank torch_rand rfft2 stride waveform dt o
  /\ forall w window_shift window_size padded_window_size bins center_freqs,
      _get_waveform_and_window_properties waveform (channel o) (sample_frequency o)
        (frame_shift o) (frame_length o) (round_to_power_of_two o)
        (preemphasis_coefficient o)
      = Ok (w, window_shift, window_size, padded_window_size) ->
      get_mel_banks (num_mel_bins o) padded_window_size (sample_frequency o)
                    (low_freq o) (high_freq o) (vtln_low o) (vtln_high o) (vtln_warp o)
      = Ok (bins, center_freqs) ->
      Forall (fun filt =>
                Z.of_nat (length filt) = (padded_window_size / 2)%Z
                /\ pad_right filt 1 = filt ++ [0]
                /\ Z.of_nat (length (pad_right filt 1)) = (padded_window_size / 2 + 1)%Z
                /\ forall spectrum_row, dot spectrum_row (pad_right filt 1)
                                        = dot spectrum_row filt)
             bins.
Proof.
  intros Hagree. split.
  - unfold fbank.
    destruct (_get_waveform_and_window_properties waveform (channel o)
                (sample_frequency o) (frame_shift o) (frame_length o)
                (round_to_power_of_two o) (preemphasis_coefficient o))
      as [[[[w shift] size] padded]|e]; cbn [bind]; [|reflexivity].
    destruct (Rltb (INR (length w)) (min_duration o * sample_frequency o));
      [reflexivity|].
    destruct (_get_window torch_rand stride w padded size shift (window_type o)
                (blackman_coeff o) (snip_edges o) (raw_energy o) (energy_floor o)
                (dither o) (remove_dc_offset o) (preemphasis_coefficient o) dt)
      as [[frames energy]|e]; cbn [bind]; [|reflexivity].
    destruct (get_mel_banks (num_mel_bins o) padded (sample_frequency o) (low_freq o)
                (high_freq o) (vtln_low o) (vtln_high o) (vtln_warp o))
      as [[bins cf]|e] eqn:Hbank; cbn [bind]; [|reflexivity].
    apply get_mel_banks_shape in Hbank. destruct Hbank as (_ & _ & Hpos & Hcols).
    rewrite (mm_T_padded_bank _ _ bins (Z.to_nat (padded / 2))
               ltac:(eapply Forall_impl; [|exact Hcols]; cbv beta; intros; lia)
               (spectra_agree rfft1 rfft2 (use_power o) frames Hagree)).
    reflexivity.
  - intros w shift size padded bins cf _ Hbank.
    apply get_mel_banks_shape in Hbank. destruct Hbank as (_ & _ & Hpos & Hcols).
    eapply Forall_impl; [|exact Hcols]. cbv beta. intros filt Hlen.
    split; [exact Hlen|]. split; [reflexivity|]. split.
    + rewrite pad_right_length by lia. lia.
    + intros row. rewrite pad_right_one. apply dot_app_zero.
Qed.

Lemma dft_abs_length (frame : list R) :
  length (dft_abs frame) = (length frame / 2 + 1)%nat.
Proof. unfold dft_abs. rewrite length_map, length_seq. reflexivity. Qed.

Lemma fbank_ignores_nyquist_bin_witness :
  fbank rand_half dft_abs 1 [[1; 2; 3; 4]] float32 (with_framing defaults 1000 4 2 0)
  = fbank rand_half (fun frame => removelast (dft_abs frame) ++ [0]) 1
          [[1; 2; 3; 4]] float32 (with_framing defaults 1000 4 2 0).
Proof.
  apply (fbank_ignores_nyquist_bin rand_half dft_abs
           (fun frame => removelast (dft_abs frame) ++ [0])).
  intros frame. split.
  - rewrite length_app. simpl length.
    pose proof (dft_abs_length frame) as Hlen.
    destruct (dft_abs frame) as [|x l]; [simpl in Hlen; lia|].
    rewrite removelast_cons_length. simpl. lia.
  - rewrite removelast_last. reflexivity.
Defined.

(** ** Shape of the filterbank features *)

Lemma zip_with_Forall {X Y W : Type} (P : X -> Prop) (Q : W -> Prop)
      (f : X -> Y -> W) (a : list X) (b : list Y) :
  (forall x y, P x -> Q (f x y)) -> Forall P a -> Forall Q (zip_with f a b).
Proof.
  intros Hf Ha. revert b. induction Ha as [|x a Hx _ IH]; intros [|y b]; simpl;
    constructor; [apply Hf; exact Hx | apply IH].
Qed.

Lemma subtract_column_mean_rows (n : Z) (t : list (list R)) (subtract_mean : bool) :
  Forall (fun row => Z.of_nat (length row) = n) t ->
  Forall (fun row => Z.of_nat (length row) = n) (_subtract_column_mean t subtract_mean).
Proof.
  intros Ht. unfold _subtract_column_mean. destruct subtract_mean; [|exact Ht].
  apply Forall_map. eapply Forall_impl; [|exact Ht]. cbv beta.
  intros row Hrow. rewrite mapi_length. exact Hrow.
Qed.

Lemma subtract_column_mean_length (t : list (list R)) (subtract_mean : bool) :
  length (_subtract_column_mean t subtract_mean) = length t.
Proof.
  unfold _subtract_column_mean. destruct subtract_mean; [apply length_map | reflexivity].
Qed.

Lemma mm_T_rows (a b out : list (list R)) :
  mm_T a b = Ok out ->
  length out = length a /\ Forall (fun row => length row = length b) out.
Proof.
  unfold mm_T. destruct (forallb _ a); [|discriminate].
  intros H. injection H as <-. split; [apply length_map|].
  apply Forall_map. apply Forall_forall. intros ra _. apply length_map.
Qed.

(** When [fbank] returns a matrix there are more than 3 mel bins and every
    row has one column per bin, and one more for the energy if asked. *)
Lemma fbank_matrix_shape (torch_rand : nat -> nat -> R) (rfft_abs : list R -> list R) (stride : Z)
      (waveform : list (list R)) (dt : dtype) (o : options) (feature : list (list R)) :
  fbank torch_rand rfft_abs stride waveform dt o = Ok (Matrix feature) ->
  (3 < num_mel_bins o)%Z
  /\ Forall (fun row => Z.of_nat (length row)
                        = (num_mel_bins o + if use_energy o then 1 else 0)%Z) feature.
Proof.
  unfold fbank. intros H.
  destruct (_get_waveform_and_window_properties waveform (channel o)
              (sample_frequency o) (frame_shift o) (frame_length o)
              (round_to_power_of_two o) (preemphasis_coefficient o))
    as [[[[w shift] size] padded]|e]; cbn [bind] in H; [|discriminate H].
  destruct (Rltb (INR (length w)) (min_duration o * sample_frequency o));
    [discriminate H|].
  destruct (_get_window torch_rand stride w padded size shift (window_type o)
              (blackman_coeff o) (snip_edges o) (raw_energy o) (energy_floor o)
              (dither o) (remove_dc_offset o) (preemphasis_coefficient o) dt)
    as [[frames energy]|e]; cbn [bind] in H; [|discriminate H].
  destruct (get_mel_banks (num_mel_bins o) padded (sample_frequency o) (low_freq o)
              (high_freq o) (vtln_low o) (vtln_high o) (vtln_warp o))
    as [[bins cf]|e] eqn:Hbank; cbn [bind] in H; [|discriminate H].
  apply get_mel_banks_shape in Hbank. destruct Hbank as (Hbins & Hlen & _ & _).
  split; [exact Hbins|].
  match type of H with
  | bind ?r _ = _ => destruct r as [me|e] eqn:Hmm; cbn [bind] in H; [|discriminate H]
  end.
  apply mm_T_rows in Hmm. destruct Hmm as [_ Hrows]. rewrite length_map in Hrows.
  injection H as <-.
  apply subtract_column_mean_rows.
  assert (Hlog : Forall (fun row => Z.of_nat (length row) = num_mel_bins o)
                        (if use_log_fbank o
                         then map (map (fun e => ln (Rmax e (_get_epsilon dt)))) me
                         else me)).
  { destruct (use_log_fbank o).
    - apply Forall_map. eapply Forall_impl; [|exact Hrows]. cbv beta.
      intros row Hrow. rewrite length_map. lia.
    - eapply Forall_impl; [|exact Hrows]. cbv beta. intros row Hrow. lia. }
  destruct (use_energy o).
  - destruct (htk_compat o).
    + eapply zip_with_Forall; [|exact Hlog]. cbv beta. intros row e Hrow.
      rewrite length_app. simpl. lia.
    + eapply zip_with_Forall; [|exact Hlog]. cbv beta. intros row e Hrow.
      simpl. lia.
  - eapply Forall_impl; [|exact Hlog]. cbv beta. intros row Hrow. lia.
Qed.

(** [fbank] returns a matrix when the validation passes, the signal is
    long enough, the window type is known, the energy floor is not
    negative, the mel configuration is valid and the FFT gives L/2 + 1 bins
    for a frame of L samples. *)
Lemma fbank_defined (torch_rand : nat -> nat -> R) (rfft_abs : list R -> list R) (stride : Z)
      (waveform : list (list R)) (dt : dtype) (o : options)
      (w : list R) (window_shift window_size padded_window_size : Z) :
  (0 < stride)%Z -> snip_edges o = true \/ stride = 1%Z ->
  _get_waveform_and_window_properties waveform (channel o) (sample_frequency o)
    (frame_shift o) (frame_length o) (round_to_power_of_two o)
    (preemphasis_coefficient o)
  = Ok (w, window_shift, window_size, padded_window_size) ->
  min_duration o * sample_frequency o <= INR (length w) ->
  In (window_type o) WINDOWS ->
  0 <= energy_floor o ->
  (forall frame, length (rfft_abs frame) = (length frame / 2 + 1)%nat) ->
  (3 < num_mel_bins o)%Z ->
  (let nyquist := (1 / 2) * sample_frequency o in
   let high := if Rle_dec (high_freq o) 0 then high_freq o + nyquist else high_freq o in
   let vhigh := if Rlt_dec (vtln_high o) 0 then vtln_high o + nyquist else vtln_high o in
   0 <= low_freq o < nyquist /\ 0 < high <= nyquist /\ low_freq o < high
   /\ (vtln_warp o = 1
       \/ (0 < vtln_warp o /\ low_freq o < vtln_low o < high
           /\ 0 < vhigh < high /\ vtln_low o < vhigh))) ->
  exists feature, fbank torch_rand rfft_abs stride waveform dt o = Ok (Matrix feature).
Proof.
  intros Hstride Hlayout Hval Hdur Htype Hfloor Hfft Hbins Hmel.
  destruct (window_properties_inv _ _ _ _ _ _ _ _ _ _ _ Hval)
    as (_ & _ & Hsize & Hshift & Heven & Hpadded).
  unfold fbank. rewrite Hval. cbn [bind].
  rewrite Rltb_false by exact Hdur.
  destruct (get_window_defined torch_rand stride w padded_window_size window_size window_shift
              (window_type o) (blackman_coeff o) (snip_edges o) (raw_energy o)
              (energy_floor o) (dither o) (remove_dc_offset o)
              (preemphasis_coefficient o) dt Hstride Hlayout Hsize Hshift Hpadded Htype Hfloor)
    as (frames & energy & Hwin & _ & Hframes).
  rewrite Hwin. cbn [bind].
  cbv zeta in Hmel. destruct Hmel as (Hlow & Hhigh & Hlh & Hvtln).
  destruct (get_mel_banks_returns (num_mel_bins o) padded_window_size
              (sample_frequency o) (low_freq o) (high_freq o) (vtln_low o)
              (vtln_high o) (vtln_warp o) Hbins ltac:(lia) Heven Hlow Hhigh Hlh Hvtln)
    as (bins & cf & Hbank & Hlen & Hall).
  rewrite Hbank. cbn [bind].
  unfold mm_T.
  set (inner := length (hd [] (map (fun filt => pad_right filt 1) bins))).
  assert (Hinner : Z.of_nat inner = (padded_window_size / 2 + 1)%Z).
  { unfold inner. destruct bins as [|filt bins]; [simpl in Hlen; lia|].
    cbn [map hd]. rewrite pad_right_length by lia.
    inversion Hall as [|? ? [Hf _] _]; subst. lia. }
  replace (forallb _ _) with true.
  - cbn [bind]. eexists. reflexivity.
  - symmetry. apply forallb_forall. intros ra Hra. apply Nat.eqb_eq.
    assert (Hlen_ra : exists frame, In frame frames
                                    /\ length ra = length (rfft_abs frame)).
    { destruct (use_power o).
      - apply in_map_iff in Hra. destruct Hra as [r [<- Hr]].
        apply in_map_iff in Hr. destruct Hr as [frame [<- Hf]].
        exists frame. split; [exact Hf | apply length_map].
      - apply in_map_iff in Hra. destruct Hra as [frame [<- Hf]].
        exists frame. split; [exact Hf | reflexivity]. }
    destruct Hlen_ra as (frame & Hin & ->).
    rewrite Hfft. rewrite Forall_forall in Hframes.
    specialize (Hframes frame Hin).
    apply Nat2Z.inj. rewrite Hinner, Nat2Z.inj_add, Nat2Z.inj_div, Hframes.
    reflexivity.
Qed.

(** ** Channel selection *)

Lemma spectrogram_defined (torch_rand : nat -> nat -> R) (rfft_abs : list R -> list R)
      (stride : Z) (waveform : list (list R)) (dt : dtype) (o : options)
      (w : list R) (window_shift window_size padded_window_size : Z) :
  (0 < stride)%Z -> snip_edges o = true \/ stride = 1%Z ->
  _get_waveform_and_window_properties waveform (channel o) (sample_frequency o)
    (frame_shift o) (frame_length o) (round_to_power_of_two o)
    (preemphasis_coefficient o)
  = Ok (w, window_shift, window_size, padded_window_size) ->
  min_duration o * sample_frequency o <= INR (length w) ->
  In (window_type o) WINDOWS ->
  0 <= energy_floor o ->
  (forall frame, rfft_abs frame <> []) ->
  exists m, spectrogram torch_rand rfft_abs stride waveform dt o = Ok (Matrix m).
Proof.
  intros Hstride Hlayout Hval Hdur Htype Hfloor Hfft.
  destruct (window_properties_inv _ _ _ _ _ _ _ _ _ _ _ Hval)
    as (_ & _ & Hsize & Hshift & Heven & Hpadded).
  unfold spectrogram. rewrite Hval. cbn [bind].
  rewrite Rltb_false by exact Hdur.
  destruct (get_window_defined torch_rand stride w padded_window_size window_size window_shift
              (window_type o) (blackman_coeff o) (snip_edges o) (raw_energy o)
              (energy_floor o) (dither o) (remove_dc_offset o)
              (preemphasis_coefficient o) dt Hstride Hlayout Hsize Hshift Hpadded Htype Hfloor)
    as (frames & energy & Hwin & _ & _).
  rewrite Hwin. cbn [bind]. unfold set_column0.
  replace (existsb _ _) with false.
  - cbn [bind]. eexists. reflexivity.
  - symmetry. apply not_true_is_false. intros Hex.
    apply existsb_exists in Hex. destruct Hex as [row [Hin Hrow]].
    apply in_map_iff in Hin. destruct Hin as [r [<- Hr]].
    apply in_map_iff in Hr. destruct Hr as [frame [<- _]].
    specialize (Hfft frame). destruct (rfft_abs frame); [contradiction | discriminate].
Qed.

Lemma dft_abs_nonempty (frame : list R) : dft_abs frame <> [].
Proof.
  intros H. pose proof (dft_abs_length frame) as Hlen. rewrite H in Hlen.
  simpl in Hlen. lia.
Qed.

(** C3, as stated, fails: with [channel = -1] a waveform of two channels
    is not refused; [spectrogram] and [fbank] return a matrix of features
    for it. *)
Lemma two_channels_are_accepted :
  channel (with_framing defaults 1000 4 2 0) = (-1)%Z
  /\ (exists m,
         spectrogram rand_half dft_abs 1 [[1; 2; 3; 4]; [5; 6; 7; 8]] float32
                     (with_framing defaults 1000 4 2 0)
         = Ok (Matrix m))
  /\ (exists m,
         fbank rand_half dft_abs 1 [[1; 2; 3; 4]; [5; 6; 7; 8]] float32
               (with_framing defaults 1000 4 2 0)
         = Ok (Matrix m)).
Proof.
  split; [reflexivity|].
  assert (Hval : _get_waveform_and_window_properties
                   [[1; 2; 3; 4]; [5; 6; 7; 8]]
                   (channel (with_framing defaults 1000 4 2 0))
                   (sample_frequency (with_framing defaults 1000 4 2 0))
                   (frame_shift (with_framing defaults 1000 4 2 0))
                   (frame_length (with_framing defaults 1000 4 2 0))
                   (round_to_power_of_two (with_framing defaults 1000 4 2 0))
                   (preemphasis_coefficient (with_framing defaults 1000 4 2 0))
                 = Ok ([1; 2; 3; 4], 2%Z, 4%Z, 4%Z)).
  { cbn [with_framing defaults channel sample_frequency frame_shift frame_length
         round_to_power_of_two preemphasis_coefficient].
    apply window_properties_1000_4_2; [lia | simpl; lia | lra]. }
  split.
  - apply (spectrogram_defined rand_half dft_abs 1 [[1; 2; 3; 4]; [5; 6; 7; 8]] float32
             (with_framing defaults 1000 4 2 0) [1; 2; 3; 4] 2 4 4).
    + lia.
    + left. reflexivity.
    + exact Hval.
    + cbn [with_framing defaults min_duration sample_frequency]. simpl. lra.
    + cbn [with_framing defaults window_type]. unfold WINDOWS. simpl. tauto.
    + cbn [with_framing defaults energy_floor]. lra.
    + apply dft_abs_nonempty.
  - apply (fbank_defined rand_half dft_abs 1 [[1; 2; 3; 4]; [5; 6; 7; 8]] float32
             (with_framing defaults 1000 4 2 0) [1; 2; 3; 4] 2 4 4).
    + lia.
    + left. reflexivity.
    + exact Hval.
    + cbn [with_framing defaults min_duration sample_frequency]. simpl. lra.
    + cbn [with_framing defaults window_type]. unfold WINDOWS. simpl. tauto.
    + cbn [with_framing defaults energy_floor]. lra.
    + apply dft_abs_length.
    + cbn [with_framing defaults num_mel_bins]. lia.
    + cbn [with_framing defaults sample_frequency high_freq low_freq vtln_high
           vtln_low vtln_warp].
      destruct (Rle_dec 0 0); [|lra]. repeat split; lra.
Qed.

(** C3, amended.  With [channel = -1] the three entry points take the
    first channel, however many channels the waveform has: the result for
    a waveform is the result for its first channel alone.  Only a waveform
    without any channel fails the assertion on the channel. *)
Theorem channel_default_selects_first (torch_rand : nat -> nat -> R)
        (rfft_abs : list R -> list R) (stride : Z) (create_dct : Z -> Z -> list (list R))
        (c0 : list R) (others : list (list R)) (dt : dtype) (o : options) :
  channel o = (-1)%Z ->
  spectrogram torch_rand rfft_abs stride (c0 :: others) dt o
  = spectrogram torch_rand rfft_abs stride [c0] dt o
  /\ fbank torch_rand rfft_abs stride (c0 :: others) dt o
     = fbank torch_rand rfft_abs stride [c0] dt o
  /\ mfcc torch_rand rfft_abs create_dct stride (c0 :: others) dt o
     = mfcc torch_rand rfft_abs create_dct stride [c0] dt o
  /\ spectrogram torch_rand rfft_abs stride [] dt o = Raise (AssertionError "Invalid channel")
  /\ fbank torch_rand rfft_abs stride [] dt o = Raise (AssertionError "Invalid channel").
Proof.
  intros Hch.
  assert (Hfbank : forall o', channel o' = (-1)%Z ->
                              fbank torch_rand rfft_abs stride (c0 :: others) dt o'
                              = fbank torch_rand rfft_abs stride [c0] dt o').
  { intros o' Hch'. unfold fbank.
    rewrite (window_properties_first_channel c0 others) by lia. reflexivity. }
  split; [|split; [|split; [|split]]].
  - unfold spectrogram.
    rewrite (window_properties_first_channel c0 others) by lia. reflexivity.
  - apply Hfbank. exact Hch.
  - unfold mfcc. rewrite Hfbank by exact Hch. reflexivity.
  - unfold spectrogram, _get_waveform_and_window_properties. rewrite Hch. reflexivity.
  - unfold fbank, _get_waveform_and_window_properties. rewrite Hch. reflexivity.
Qed.

Lemma channel_default_selects_first_witness :
  spectrogram rand_half dft_abs 1 [[1; 2; 3; 4]; [5; 6; 7; 8]] float32 defaults
  = spectrogram rand_half dft_abs 1 [[1; 2; 3; 4]] float32 defaults.
Proof.
  apply (channel_default_selects_first rand_half dft_abs 1 create_dct_ortho
           [1; 2; 3; 4] [[5; 6; 7; 8]] float32 defaults).
  reflexivity.
Defined.

(** ** Cepstra *)

Lemma set_column0_constant (t : list (list R)) (c : R) :
  Forall (fun row => row <> []) t ->
  set_column0 t (repeat c (length t)) = Ok (map (fun row => c :: tl row) t).
Proof.
  intros Hrows. unfold set_column0.
  replace (existsb _ t) with false.
  - f_equal. clear Hrows. induction t as [|row t IH]; simpl; [reflexivity|].
    rewrite IH. reflexivity.
  - symmetry. apply not_true_is_false. intros Hex.
    apply existsb_exists in Hex. destruct Hex as [row [Hin Hrow]].
    rewrite Forall_forall in Hrows. specialize (Hrows row Hin).
    destruct row; [contradiction | discriminate].
Qed.

Lemma get_dct_matrix_ok (create_dct : Z -> Z -> list (list R)) (num_ceps num_mel_bins : Z) :
  (0 < num_mel_bins)%Z ->
  Forall (fun row => row <> []) (create_dct num_mel_bins num_mel_bins) ->
  _get_dct_matrix create_dct num_ceps num_mel_bins
  = Ok (map (fun row => slice_to (sqrt (1 / IZR num_mel_bins) :: tl row) num_ceps)
            (create_dct num_mel_bins num_mel_bins)).
Proof.
  intros Hbins Hrows. unfold _get_dct_matrix, float_div, math_sqrt.
  assert (Hpos : 0 < IZR num_mel_bins) by (apply IZR_lt; exact Hbins).
  destruct (Req_dec_T (IZR num_mel_bins) 0) as [Hz|_]; [lra|]. cbn [bind].
  destruct (Rle_dec 0 (1 / IZR num_mel_bins)) as [_|Hn].
  - cbn [bind]. rewrite set_column0_constant by exact Hrows. cbn [bind].
    rewrite map_map. reflexivity.
  - exfalso. apply Hn. apply Rlt_le. apply Rdiv_lt_0_compat; lra.
Qed.

Lemma slice_to_head (c : R) (row : list R) (k : Z) :
  (1 <= k)%Z -> exists rest, slice_to (c :: row) k = c :: rest.
Proof.
  intros Hk. unfold slice_to.
  destruct (Z.ltb_spec k 0); [lia|].
  destruct (Z.to_nat (Z.min k (Z.of_nat (length (c :: row))))) as [|n] eqn:Hn.
  - simpl length in Hn. lia.
  - eexists. reflexivity.
Qed.

Lemma dot_repeat (frame : list R) (c : R) :
  dot frame (repeat c (length frame)) = c * sum frame.
Proof.
  unfold dot. induction frame as [|x frame IH]; simpl; [ring|].
  rewrite IH. ring.
Qed.

Lemma create_dct_ortho_shape (n : Z) :
  (0 < n)%Z ->
  Z.of_nat (length (create_dct_ortho n n)) = n
  /\ Forall (fun row => row <> []) (create_dct_ortho n n).
Proof.
  intros Hn. unfold create_dct_ortho. split.
  - rewrite length_map, zrange_length. lia.
  - apply Forall_map. apply Forall_forall. intros k _ Hempty.
    apply (f_equal (@length R)) in Hempty.
    rewrite length_map, zrange_length in Hempty. simpl in Hempty. lia.
Qed.

Lemma map_const_repeat {X : Type} (c : R) (l : list X) (f : X -> R) :
  (forall x, In x l -> f x = c) -> map f l = repeat c (length l).
Proof.
  induction l as [|x l IH]; intros Hf; simpl; [reflexivity|].
  rewrite (Hf x (or_introl eq_refl)), IH; [reflexivity|].
  intros y Hy. apply Hf. now right.
Qed.

(** C8.  Whenever [fbank], called as [mfcc] calls it, returns the matrix
    of log mel energies, and [cepstral_lifter = 0], [use_energy = false]
    and at least one cepstrum is asked for, the cepstra before the HTK
    reordering have in column 0, for every frame, [sqrt(1 / num_mel_bins)]
    times the sum of the log mel energies of that frame; [mfcc] returns
    these cepstra after the HTK reordering (if asked) and the subtraction
    of the column means (if asked).  The DCT basis only needs to have
    [num_mel_bins] rows that are not empty: its column 0 is overwritten. *)
Theorem mfcc_column0 (torch_rand : nat -> nat -> R) (rfft_abs : list R -> list R) (stride : Z)
        (create_dct : Z -> Z -> list (list R)) (waveform : list (list R)) (dt : dtype)
        (o : options) (feature : list (list R)) :
  cepstral_lifter o = 0 ->
  use_energy o = false ->
  (1 <= num_ceps o <= num_mel_bins o)%Z ->
  Z.of_nat (length (create_dct (num_mel_bins o) (num_mel_bins o))) = num_mel_bins o ->
  Forall (fun row => row <> []) (create_dct (num_mel_bins o) (num_mel_bins o)) ->
  fbank torch_rand rfft_abs stride waveform dt (fbank_options_of_mfcc o) = Ok (Matrix feature) ->
  exists cepstra,
    mfcc_cepstra create_dct (Matrix feature) o = Ok cepstra
    /\ length cepstra = length feature
    /\ (forall i frame,
           nth_error feature i = Some frame ->
           exists cepstrum,
             nth_error cepstra i = Some cepstrum
             /\ nth_error cepstrum 0
                = Some (sqrt (1 / IZR (num_mel_bins o)) * sum frame))
    /\ mfcc torch_rand rfft_abs create_dct stride waveform dt o
       = (reordered <- (if htk_compat o then mfcc_htk_reorder cepstra o else Ok cepstra) ;;
          Ok (Matrix (_subtract_column_mean reordered (subtract_mean o)))).
Proof.
  intros Hlift Henergy Hceps Hdct_len Hdct_rows Hfbank.
  destruct (fbank_matrix_shape _ _ _ _ _ _ _ Hfbank) as [Hbins Hshape].
  cbn [fbank_options_of_mfcc num_mel_bins use_energy] in Hbins, Hshape.
  rewrite Henergy in Hshape.
  set (c0 := sqrt (1 / IZR (num_mel_bins o))).
  set (dct := map (fun row => slice_to (c0 :: tl row) (num_ceps o))
                  (create_dct (num_mel_bins o) (num_mel_bins o))).
  assert (Hcol0 : column 0 dct = repeat c0 (length dct)).
  { unfold column, dct. rewrite map_map, length_map. apply map_const_repeat.
    intros row _. destruct (slice_to_head c0 (tl row) (num_ceps o)) as [rest ->];
      [lia | reflexivity]. }
  assert (Hdct_length : Z.of_nat (length dct) = num_mel_bins o)
    by (unfold dct; rewrite length_map; exact Hdct_len).
  assert (Hcols : exists cols, length (hd [] dct) = S cols).
  { unfold dct.
    destruct (create_dct (num_mel_bins o) (num_mel_bins o)) as [|row rest];
      [simpl in Hdct_len; lia|].
    cbn [map hd].
    destruct (slice_to_head c0 (tl row) (num_ceps o)) as [more ->]; [lia|].
    eexists. reflexivity. }
  destruct Hcols as [cols Hcols].
  assert (Hcepstra :
            mfcc_cepstra create_dct (Matrix feature) o
            = Ok (map (fun ra => map (fun c => dot ra (column c dct))
                                     (seq 0 (length (hd [] dct)))) feature)).
  { unfold mfcc_cepstra. rewrite Henergy. cbn [bind].
    rewrite get_dct_matrix_ok by (try lia; exact Hdct_rows). cbn [bind].
    fold c0 dct. unfold matmul.
    replace (forallb _ feature) with true.
    - cbn [bind]. rewrite (Reqb_true _ _ Hlift). cbn [bind]. reflexivity.
    - symmetry. apply forallb_forall. intros ra Hra. apply Nat.eqb_eq.
      rewrite Forall_forall in Hshape. specialize (Hshape ra Hra). lia. }
  eexists. split; [exact Hcepstra|]. split; [apply length_map|]. split.
  - intros i frame Hframe. eexists. split.
    + apply map_nth_error. exact Hframe.
    + rewrite Hcols. cbn [seq map nth_error]. f_equal.
      rewrite Hcol0.
      assert (Hlen : length dct = length frame).
      { apply nth_error_In in Hframe. rewrite Forall_forall in Hshape.
        specialize (Hshape frame Hframe). lia. }
      rewrite Hlen. apply dot_repeat.
  - unfold mfcc.
    rewrite assert_true by (apply Z.leb_le; lia). cbn [bind].
    rewrite Hfbank. cbn [bind]. rewrite Hcepstra. cbn [bind]. reflexivity.
Qed.

Lemma mfcc_column0_witness :
  exists feature cepstra,
    fbank rand_half dft_abs 1 [[1; 2; 3; 4]] float32
          (fbank_options_of_mfcc
             (with_cepstral_lifter (with_framing defaults 1000 4 2 0) 0))
    = Ok (Matrix feature)
    /\ mfcc_cepstra create_dct_ortho (Matrix feature)
                    (with_cepstral_lifter (with_framing defaults 1000 4 2 0) 0)
       = Ok cepstra
    /\ forall i frame,
        nth_error feature i = Some frame ->
        exists cepstrum,
          nth_error cepstra i = Some cepstrum
          /\ nth_error cepstrum 0 = Some (sqrt (1 / 23) * sum frame).
Proof.
  set (o := with_cepstral_lifter (with_framing defaults 1000 4 2 0) 0).
  assert (Hval : _get_waveform_and_window_properties
                   [[1; 2; 3; 4]]
                   (channel (fbank_options_of_mfcc o))
                   (sample_frequency (fbank_options_of_mfcc o))
                   (frame_shift (fbank_options_of_mfcc o))
                   (frame_length (fbank_options_of_mfcc o))
                   (round_to_power_of_two (fbank_options_of_mfcc o))
                   (preemphasis_coefficient (fbank_options_of_mfcc o))
                 = Ok ([1; 2; 3; 4], 2%Z, 4%Z, 4%Z)).
  { apply window_properties_1000_4_2; [simpl; lia | simpl; lia | simpl; lra]. }
  destruct (fbank_defined rand_half dft_abs 1 [[1; 2; 3; 4]] float32
              (fbank_options_of_mfcc o) [1; 2; 3; 4] 2 4 4)
    as [feature Hfeature].
  - lia.
  - left. reflexivity.
  - exact Hval.
  - simpl. lra.
  - simpl. tauto.
  - simpl. lra.
  - apply dft_abs_length.
  - simpl. lia.
  - simpl. destruct (Rle_dec 0 0); [|lra]. repeat split; lra.
  - destruct (create_dct_ortho_shape 23 ltac:(lia)) as [Hlen Hrows].
    destruct (mfcc_column0 rand_half dft_abs 1 create_dct_ortho [[1; 2; 3; 4]] float32
                           o feature)
      as (cepstra & Hcep & _ & Hc0 & _).
    + reflexivity.
    + reflexivity.
    + simpl. lia.
    + exact Hlen.
    + exact Hrows.
    + exact Hfeature.
    + exists feature, cepstra. split; [exact Hfeature|]. split; [exact Hcep|].
      exact Hc0.
Defined.

(** ** Rounding *)

Lemma round_zero (rnd : rounding) : rnd 0 = 0.
Proof. apply (round_integer rnd 0). simpl. lia. Qed.

Lemma round_one (rnd : rounding) : rnd 1 = 1.
Proof. apply (round_integer rnd 1). simpl. lia. Qed.

Lemma round_nonneg (rnd : rounding) (x : R) : 0 <= x -> 0 <= rnd x.
Proof. intros Hx. rewrite <- (round_zero rnd). apply round_monotone. exact Hx. Qed.

Lemma round_ge_one (rnd : rounding) (x : R) : 1 <= x -> 1 <= rnd x.
Proof. intros Hx. rewrite <- (round_one rnd). apply round_monotone. exact Hx. Qed.

(** The float 0.99 lies strictly between 0 and 1. *)
Lemma float_099_bounds (rnd : rounding) : 0 < rnd (99 / 100) < 1.
Proof.
  pose proof (round_error rnd (99 / 100)) as H.
  rewrite (Rabs_right (99 / 100)) in H by lra.
  rewrite (Rmax_left 1 (99 / 100)) in H by lra.
  specialize (H ltac:(lra)).
  unfold Rabs in H. destruct (Rcase_abs (rnd (99 / 100) - 99 / 100)); lra.
Qed.

(** The cutoff frequency of the kernel is positive for rates of at least
    1, and at least the float 0.99. *)
Lemma base_freq_positive (rnd : rounding) (orig_freq new_freq : Z) :
  (1 <= orig_freq)%Z -> (1 <= new_freq)%Z ->
  rnd (99 / 100) <= rnd (rnd (IZR (Z.min orig_freq new_freq)) * rnd (99 / 100)).
Proof.
  intros Ho Hn. pose proof (float_099_bounds rnd) as Hc.
  assert (Hmin : 1 <= rnd (IZR (Z.min orig_freq new_freq))).
  { apply round_ge_one. apply IZR_le. lia. }
  rewrite <- (round_idempotent rnd (99 / 100)) at 1.
  apply round_monotone. nra.
Qed.

(** ** Resampling at the same rate *)

Lemma interleave_single (row : list R) : interleave [row] = row.
Proof.
  unfold interleave. cbn [hd].
  assert (H : forall k l, flat_map (fun p => map (fun r => nth p r 0) [k ++ l])
                                   (seq (length k) (length l)) = l).
  { intros k l. revert k. induction l as [|x l IH]; intros k; [reflexivity|].
    cbn [length seq flat_map map app].
    rewrite app_nth2 by lia. rewrite Nat.sub_diag. cbn [nth]. f_equal.
    replace (k ++ x :: l) with ((k ++ [x]) ++ l) by (rewrite <- app_assoc; reflexivity).
    replace (S (length k)) with (length (k ++ [x]))
      by (rewrite length_app; simpl; lia).
    apply IH. }
  apply (H [] row).
Qed.

Lemma zrange_succ (n : Z) :
  (0 <= n)%Z -> zrange 0 (n + 1) = zrange 0 n ++ [n].
Proof.
  intros Hn. unfold zrange.
  replace (Z.to_nat (n + 1 - 0)) with (S (Z.to_nat (n - 0))) by lia.
  rewrite seq_S, map_app. cbn [map Nat.add]. do 2 f_equal. lia.
Qed.

(** After the reduction by the GCD equal rates are 1 and 1. *)
Lemma same_rate_reduces (f : R) :
  1 <= f ->
  let z := int_of_float f in
  floordiv z (Z.gcd z z) = Ok 1%Z.
Proof.
  intros Hf z.
  assert (Hz : (1 <= z)%Z).
  { unfold z, int_of_float. destruct (Rle_dec 0 f) as [_|Hn]; [|lra].
    apply Zfloor_lub. exact Hf. }
  rewrite Z.gcd_diag, Z.abs_eq by lia. unfold floordiv.
  destruct (Z.eqb_spec z 0); [lia|]. rewrite Z.div_same by lia. reflexivity.
Qed.

(** For rates 1 and 1 the cutoff frequency is the float 0.99. *)
Lemma unit_rate_base_freq_value (rnd : rounding) :
  unit_rate_base_freq rnd = rnd (99 / 100).
Proof.
  unfold unit_rate_base_freq. change (Z.min 1 1) with 1%Z.
  rewrite round_one, Rmult_1_l. apply round_idempotent.
Qed.

(** The half width of the kernel for rates 1 and 1. *)
Lemma unit_rate_width_bound (rnd : rounding) (lowpass_filter_width : Z) :
  (0 < lowpass_filter_width)%Z ->
  (0 <= unit_rate_width rnd lowpass_filter_width)%Z.
Proof.
  intros Hl. unfold unit_rate_width. rewrite unit_rate_base_freq_value.
  pose proof (float_099_bounds rnd) as Hc.
  set (x := rnd (rnd (IZR (lowpass_filter_width * 1)) / rnd (99 / 100))).
  assert (Hx : 0 <= x).
  { unfold x. apply round_nonneg. apply Rmult_le_pos.
    - apply round_nonneg. apply IZR_le. lia.
    - apply Rlt_le, Rinv_0_lt_compat. lra. }
  pose proof (Zceil_bound x) as [_ Hceil].
  apply le_IZR. lra.
Qed.

(** The tap at position 0 of the only phase is 1 before scaling. *)
Lemma centre_tap (lowpass_filter_width : Z) (base_freq : R) :
  (0 < lowpass_filter_width)%Z ->
  sinc_resample_tap 1 1 lowpass_filter_width base_freq 0 0 = 1.
Proof.
  intros Hl. unfold sinc_resample_tap, clamp.
  assert (Hpos : 0 < IZR lowpass_filter_width) by (apply IZR_lt; exact Hl).
  replace ((- 0 / 1 + 0 / 1) * base_freq) with 0 by field.
  rewrite Rmax_left by lra. rewrite Rmin_left by lra.
  rewrite Rmult_0_l.
  destruct (Req_dec_T 0 0) as [_|Hne]; [|contradiction].
  replace (0 / IZR lowpass_filter_width / 2) with 0 by (field; lra).
  rewrite cos_0. ring.
Qed.

Lemma mapM_ok {X Y : Type} (f : X -> result Y) (g : X -> Y) (l : list X) :
  (forall x, In x l -> f x = Ok (g x)) -> mapM f l = Ok (map g l).
Proof.
  induction l as [|x l IH]; intros Hf; cbn [mapM map]; [reflexivity|].
  rewrite (Hf x (or_introl eq_refl)). cbn [bind].
  rewrite IH by (intros y Hy; apply Hf; now right). reflexivity.
Qed.

Lemma unit_rate_kernel_length (rnd : rounding) (lowpass_filter_width : Z) :
  (0 < lowpass_filter_width)%Z ->
  Z.of_nat (length (unit_rate_kernel rnd lowpass_filter_width))
  = (2 * unit_rate_width rnd lowpass_filter_width + 1)%Z.
Proof.
  intros Hl. pose proof (unit_rate_width_bound rnd lowpass_filter_width Hl).
  unfold unit_rate_kernel. cbv zeta. rewrite length_map, zrange_length. lia.
Qed.

Lemma get_sinc_resample_kernel_unit (rnd : rounding) (lowpass_filter_width : Z) :
  (0 < lowpass_filter_width)%Z ->
  _get_sinc_resample_kernel rnd 1 1 lowpass_filter_width
  = Ok ([unit_rate_kernel rnd lowpass_filter_width],
        unit_rate_width rnd lowpass_filter_width).
Proof.
  intros Hl. unfold _get_sinc_resample_kernel.
  rewrite assert_true by (apply Z.ltb_lt; exact Hl). cbn [bind].
  fold (unit_rate_base_freq rnd).
  pose proof (float_099_bounds rnd) as Hc.
  pose proof (unit_rate_base_freq_value rnd) as Hb.
  unfold float_div.
  destruct (Req_dec_T (unit_rate_base_freq rnd) 0) as [Hz|_]; [lra|].
  cbn [bind]. fold (unit_rate_width rnd lowpass_filter_width).
  change (zrange 0 1) with [0%Z]. cbn [map bind].
  rewrite map_map. reflexivity.
Qed.

(** The result of [resample_waveform] for equal rates and a waveform with
    at least one channel: every channel is convolved with the single
    kernel. *)
Lemma resample_same_rate_result (rnd : rounding) (waveform : list (list R)) (f : R)
      (lowpass_filter_width : Z) :
  1 <= f -> (0 < lowpass_filter_width)%Z -> waveform <> [] ->
  resample_waveform rnd waveform f f lowpass_filter_width
  = Ok (map (fun channel =>
               map (fun j =>
                      dot (frame_at (unit_rate_padded rnd lowpass_filter_width channel) j
                                    (2 * unit_rate_width rnd lowpass_filter_width + 1))
                          (unit_rate_kernel rnd lowpass_filter_width))
                   (zrange 0 (Z.of_nat (length channel))))
            waveform).
Proof.
  intros Hf Hl Hne. unfold resample_waveform.
  rewrite assert_true by (rewrite !Rltb_true by lra; reflexivity). cbn [bind].
  rewrite (same_rate_reduces f Hf). cbn [bind].
  rewrite (get_sinc_resample_kernel_unit rnd _ Hl). cbn [bind].
  destruct waveform as [|c0 rest]; [contradiction|]. cbn [bind].
  pose proof (unit_rate_width_bound rnd lowpass_filter_width Hl) as Hw.
  pose proof (unit_rate_kernel_length rnd lowpass_filter_width Hl) as Hk.
  set (width := unit_rate_width rnd lowpass_filter_width) in *.
  set (kernel := unit_rate_kernel rnd lowpass_filter_width) in *.
  apply mapM_ok. intros channel _.
  change (unit_rate_padded rnd lowpass_filter_width channel)
    with (repeat 0 (Z.to_nat width) ++ channel ++ repeat 0 (Z.to_nat (width + 1))).
  set (padded := repeat 0 (Z.to_nat width) ++ channel ++ repeat 0 (Z.to_nat (width + 1))).
  set (n := Z.of_nat (length channel)).
  assert (Hpadded : Z.of_nat (length padded) = (n + 2 * width + 1)%Z).
  { unfold padded. rewrite !length_app, !repeat_length. lia. }
  unfold conv1d. cbn [hd]. rewrite Hk, Hpadded.
  replace ((1 <=? 0)%Z || (n + 2 * width + 1 <? 2 * width + 1)%Z) with false.
  2:{ symmetry. apply orb_false_intro; [reflexivity|]. apply Z.ltb_ge. lia. }
  cbn [bind map]. rewrite interleave_single.
  unfold float_div. destruct (Req_dec_T (IZR 1) 0) as [H1|_]; [lra|]. cbn [bind].
  replace (Zceil (IZR 1 * IZR n / IZR 1)) with n.
  2:{ symmetry. apply Zceil_eq. replace (IZR 1 * IZR n / IZR 1) with (IZR n) by field.
      lra. }
  f_equal.
  replace ((n + 2 * width + 1 - (2 * width + 1)) / 1 + 1)%Z with (n + 1)%Z
    by (rewrite Z.div_1_r; lia).
  rewrite zrange_succ by lia. rewrite map_app.
  unfold slice_to. destruct (Z.ltb_spec n 0); [lia|].
  rewrite length_app, length_map, zrange_length. cbn [map length].
  replace (Z.to_nat (Z.min n (Z.of_nat (Z.to_nat (n - 0) + 1)))) with
    (length (map (fun p => dot (frame_at padded (p * 1) (2 * width + 1)) kernel)
                 (zrange 0 n)) + 0)%nat
    by (rewrite length_map, zrange_length; lia).
  rewrite firstn_app_2. cbn [firstn]. rewrite app_nil_r.
  apply map_ext. intros j. rewrite Z.mul_1_r. reflexivity.
Qed.

(** A waveform without channels is refused once the kernel is there. *)
Lemma resample_no_channel (rnd : rounding) (f : R) (lowpass_filter_width : Z) :
  1 <= f -> (0 < lowpass_filter_width)%Z ->
  resample_waveform rnd [] f f lowpass_filter_width = Raise RuntimeError.
Proof.
  intros Hf Hl. unfold resample_waveform.
  rewrite assert_true by (rewrite !Rltb_true by lra; reflexivity). cbn [bind].
  rewrite (same_rate_reduces f Hf). cbn [bind].
  rewrite (get_sinc_resample_kernel_unit rnd _ Hl). reflexivity.
Qed.

Lemma zrange_nth (lo hi : Z) (k : nat) (d : Z) :
  (Z.of_nat k < hi - lo)%Z -> nth k (zrange lo hi) d = (lo + Z.of_nat k)%Z.
Proof.
  intros Hk. unfold zrange.
  set (g := fun i => (lo + Z.of_nat i)%Z).
  rewrite (nth_indep _ d (g 0%nat)) by (rewrite length_map, length_seq; lia).
  rewrite map_nth, seq_nth by lia. reflexivity.
Qed.

(** The centre tap of the kernel for equal rates is the float 0.99, not
    1. *)
Lemma unit_rate_kernel_centre (rnd : rounding) (lowpass_filter_width : Z) :
  (0 < lowpass_filter_width)%Z ->
  nth (Z.to_nat (unit_rate_width rnd lowpass_filter_width))
      (unit_rate_kernel rnd lowpass_filter_width) 0
  = rnd (99 / 100).
Proof.
  intros Hl. pose proof (unit_rate_width_bound rnd lowpass_filter_width Hl) as Hw.
  unfold unit_rate_kernel. cbv zeta.
  set (width := unit_rate_width rnd lowpass_filter_width) in *.
  set (g := fun idx => _).
  rewrite (nth_indep _ 0 (g 0%Z)) by (rewrite length_map, zrange_length; lia).
  rewrite map_nth, zrange_nth by lia.
  replace (- width + Z.of_nat (Z.to_nat width))%Z with 0%Z by lia.
  unfold g. rewrite centre_tap by exact Hl.
  rewrite unit_rate_base_freq_value. field.
Qed.

Lemma dot_zeros (b : nat) (k : list R) : dot (repeat 0 b) k = 0.
Proof.
  unfold dot. revert k. induction b as [|b IH]; intros [|x k]; simpl;
    try reflexivity.
  rewrite IH. ring.
Qed.

Lemma dot_impulse (a b : nat) (k : list R) :
  (a < length k)%nat -> dot (repeat 0 a ++ 1 :: repeat 0 b) k = nth a k 0.
Proof.
  revert k. induction a as [|a IH]; intros [|x k] Hlen; simpl in Hlen; try lia.
  - change (dot (repeat 0 0 ++ 1 :: repeat 0 b) (x :: k))
      with (1 * x + dot (repeat 0 b) k).
    rewrite dot_zeros. simpl. ring.
  - change (dot (repeat 0 (S a) ++ 1 :: repeat 0 b) (x :: k))
      with (0 * x + dot (repeat 0 a ++ 1 :: repeat 0 b) k).
    rewrite IH by lia. simpl. ring.
Qed.

(** The response to the unit impulse at equal rates, whatever the
    rounding. *)
Lemma resample_impulse (rnd : rounding) (f : R) (lowpass_filter_width : Z) :
  1 <= f -> (0 < lowpass_filter_width)%Z ->
  resample_waveform rnd [[1]] f f lowpass_filter_width = Ok [[rnd (99 / 100)]].
Proof.
  intros Hf Hl. rewrite resample_same_rate_result by (try assumption; discriminate).
  pose proof (unit_rate_width_bound rnd lowpass_filter_width Hl) as Hw.
  pose proof (unit_rate_kernel_length rnd lowpass_filter_width Hl) as Hk.
  pose proof (unit_rate_kernel_centre rnd lowpass_filter_width Hl) as Hc.
  cbn [map length]. change (zrange 0 (Z.of_nat 1)) with [0%Z]. cbn [map].
  do 3 f_equal.
  unfold unit_rate_padded, frame_at. cbv zeta.
  set (width := unit_rate_width rnd lowpass_filter_width) in *.
  change (Z.to_nat 0) with 0%nat. cbn [skipn].
  replace (Z.to_nat (width + 1)) with (Z.to_nat width + 1)%nat by lia.
  replace (Z.to_nat (2 * width + 1))
    with (length (repeat 0%R (Z.to_nat width)) + (1 + Z.to_nat width))%nat
    by (rewrite repeat_length; lia).
  rewrite firstn_app_2.
  change ([1] ++ repeat 0 (Z.to_nat width + 1))
    with (1 :: repeat 0 (Z.to_nat width + 1)).
  cbn [firstn Nat.add].
  rewrite repeat_app, firstn_app, repeat_length, Nat.sub_diag, firstn_O, app_nil_r.
  rewrite firstn_all2 by (rewrite repeat_length; lia).
  rewrite dot_impulse by lia. exact Hc.
Qed.

(** C1, as stated, fails: at equal rates the unit impulse [[1]] does not
    come back unchanged.  In arithmetic without rounding it comes back as
    [[0.99]]; with any rounding it comes back as the float 0.99, which is
    below 1. *)
Lemma resample_same_rate_is_not_identity :
  resample_waveform exact_arithmetic [[1]] 16000 16000 6 = Ok [[99 / 100]]
  /\ (forall rnd : rounding,
         resample_waveform rnd [[1]] 16000 16000 6 = Ok [[rnd (99 / 100)]]
         /\ resample_waveform rnd [[1]] 16000 16000 6 <> Ok [[1]]).
Proof.
  split.
  - apply (resample_impulse exact_arithmetic); [lra | lia].
  - intros rnd.
    assert (H : resample_waveform rnd [[1]] 16000 16000 6 = Ok [[rnd (99 / 100)]])
      by (apply resample_impulse; [lra | lia]).
    split; [exact H|]. rewrite H. intros Heq. injection Heq as Heq.
    pose proof (float_099_bounds rnd). lra.
Qed.

(** C1, amended.  For every rate of at least 1 Hz used as [orig_freq] and
    [new_freq], the reduction by the GCD leaves the rates 1 and 1, hence
    one phase; its kernel has [2 * width + 1] taps, where [width], the
    ceiling of the float quotient of [lowpass_filter_width] and the float
    0.99, is not negative, and its centre tap is the float 0.99, which is
    below 1.  For a waveform with at least one channel
    [resample_waveform] returns a waveform of the shape of the input whose
    samples are the input convolved with that kernel (zeros around the
    signal), which is a low-pass filtered copy and not the input itself; a
    waveform without channels raises [RuntimeError]. *)
Theorem resample_same_rate (rnd : rounding) (waveform : list (list R)) (f : R)
        (lowpass_filter_width : Z) :
  1 <= f -> (0 < lowpass_filter_width)%Z ->
  let width := unit_rate_width rnd lowpass_filter_width in
  let kernel := unit_rate_kernel rnd lowpass_filter_width in
  floordiv (int_of_float f) (Z.gcd (int_of_float f) (int_of_float f)) = Ok 1%Z
  /\ _get_sinc_resample_kernel rnd 1 1 lowpass_filter_width = Ok ([kernel], width)
  /\ (0 <= width)%Z
  /\ Z.of_nat (length kernel) = (2 * width + 1)%Z
  /\ nth (Z.to_nat width) kernel 0 = rnd (99 / 100)
  /\ 0 < rnd (99 / 100) < 1
  /\ (waveform = [] ->
      resample_waveform rnd waveform f f lowpass_filter_width = Raise RuntimeError)
  /\ (waveform <> [] ->
      exists resampled,
        resample_waveform rnd waveform f f lowpass_filter_width = Ok resampled
        /\ map (@length R) resampled = map (@length R) waveform
        /\ resampled
           = map (fun channel =>
                    map (fun j =>
                           dot (frame_at (unit_rate_padded rnd lowpass_filter_width
                                                           channel)
                                         j (2 * width + 1))
                               kernel)
                        (zrange 0 (Z.of_nat (length channel))))
                 waveform).
Proof.
  intros Hf Hl width kernel.
  split; [apply same_rate_reduces; exact Hf|].
  split; [apply get_sinc_resample_kernel_unit; exact Hl|].
  split; [apply unit_rate_width_bound; exact Hl|].
  split; [apply unit_rate_kernel_length; exact Hl|].
  split; [apply unit_rate_kernel_centre; exact Hl|].
  split; [apply float_099_bounds|].
  split.
  - intros ->. apply resample_no_channel; assumption.
  - intros Hne. eexists. split; [apply resample_same_rate_result; assumption|].
    split; [|reflexivity].
    rewrite map_map. apply map_ext. intros channel.
    rewrite length_map, zrange_length. lia.
Qed.

Lemma resample_same_rate_witness :
  exists resampled,
    resample_waveform exact_arithmetic [[1; 2; 3]; [4; 5; 6]] 16000 16000 6
    = Ok resampled
    /\ map (@length R) resampled = [3%nat; 3%nat]
    /\ nth (Z.to_nat (unit_rate_width exact_arithmetic 6))
           (unit_rate_kernel exact_arithmetic 6) 0
       = 99 / 100.
Proof.
  destruct (resample_same_rate exact_arithmetic [[1; 2; 3]; [4; 5; 6]] 16000 6)
    as (_ & _ & _ & _ & Hcentre & _ & _ & Hrun).
  - lra.
  - lia.
  - destruct Hrun as (resampled & Hrun & Hshape & _); [discriminate|].
    exists resampled. split; [exact Hrun|]. split; [exact Hshape | exact Hcentre].
Defined.

(** Below 1 Hz both rates truncate to 0 and the reduction by their GCD
    divides by zero. *)
Lemma resample_below_one_hertz (rnd : rounding) (waveform : list (list R)) (f : R)
      (lowpass_filter_width : Z) :
  0 < f < 1 ->
  resample_waveform rnd waveform f f lowpass_filter_width = Raise ZeroDivisionError.
Proof.
  intros Hf. unfold resample_waveform.
  rewrite assert_true by (rewrite !Rltb_true by lra; reflexivity). cbn [bind].
  assert (Hz : int_of_float f = 0%Z).
  { unfold int_of_float. destruct (Rle_dec 0 f) as [_|Hn]; [|lra].
    apply Zfloor_eq. simpl. lra. }
  rewrite Hz. reflexivity.
Qed.

(** * Further properties of the module *)

(** ** Padding to a power of two *)

(** X1.  For a window of at least one sample [_next_power_of_2] returns a
    power of two that is at least the window size and less than twice the
    window size (the smallest power of two that holds the window); for a
    window of at least two samples it is even, so the assertion on the
    padded window size cannot fail when [round_to_power_of_two] is set. *)
Theorem next_power_of_2_spec (x : Z) :
  (1 <= x)%Z ->
  (exists k, (0 <= k)%Z /\ _next_power_of_2 x = (2 ^ k)%Z)
  /\ (x <= _next_power_of_2 x < 2 * x)%Z
  /\ ((2 <= x)%Z -> (_next_power_of_2 x mod 2 = 0)%Z).
Proof.
  intros Hx. unfold _next_power_of_2, bit_length.
  destruct (Z.eqb_spec x 0); [lia|].
  destruct (Z.eqb_spec (x - 1) 0) as [H1|H1].
  - assert (x = 1%Z) by lia. subst x. split; [|split].
    + exists 0%Z. split; [lia | reflexivity].
    + simpl. lia.
    + lia.
  - rewrite Z.abs_eq by lia.
    pose proof (Z.log2_spec (x - 1) ltac:(lia)) as [Hlo Hhi].
    pose proof (Z.log2_nonneg (x - 1)) as Hnn.
    rewrite <- Z.add_1_r in Hhi.
    assert (Hpow : (2 ^ (Z.log2 (x - 1) + 1) = 2 * 2 ^ Z.log2 (x - 1))%Z)
      by (rewrite Z.pow_add_r by lia; lia).
    split; [|split].
    + exists (Z.log2 (x - 1) + 1)%Z. split; [lia | reflexivity].
    + lia.
    + intros _. rewrite Hpow. rewrite Z.mul_comm. apply Z.mod_mul. lia.
Qed.

Lemma next_power_of_2_spec_witness :
  (400 <= _next_power_of_2 400 < 2 * 400)%Z
  /\ (_next_power_of_2 400 mod 2 = 0)%Z.
Proof.
  destruct (next_power_of_2_spec 400 ltac:(lia)) as (_ & Hrange & Heven).
  split; [exact Hrange | apply Heven; lia].
Defined.

(** ** The mel scale *)

Lemma mel_of_inverse (m : R) : 1127 * ln (1 + 700 * (exp (m / 1127) - 1) / 700) = m.
Proof.
  replace (1 + 700 * (exp (m / 1127) - 1) / 700) with (exp (m / 1127)) by field.
  rewrite ln_exp. field.
Qed.

Lemma inverse_of_mel (f : R) :
  -700 < f -> 700 * (exp (1127 * ln (1 + f / 700) / 1127) - 1) = f.
Proof.
  intros Hf.
  replace (1127 * ln (1 + f / 700) / 1127) with (ln (1 + f / 700)) by field.
  rewrite exp_ln by lra. field.
Qed.

(** X2.  The mel scale and its inverse are inverse to each other: on
    tensors [mel_scale (inverse_mel_scale m) = m] for every [m], and
    [inverse_mel_scale (mel_scale f) = f] for frequencies above -700 Hz; on
    scalars the same holds, [mel_scale_scalar] raising [ValueError] at and
    below -700 Hz, where the logarithm has no value. *)
Theorem mel_scale_round_trip :
  (forall m : list R, mel_scale (inverse_mel_scale m) = m)
  /\ (forall f : list R, Forall (fun x => -700 < x) f ->
                         inverse_mel_scale (mel_scale f) = f)
  /\ (forall m : R, mel_scale_scalar (inverse_mel_scale_scalar m) = Ok m)
  /\ (forall x : R, -700 < x ->
                    exists v, mel_scale_scalar x = Ok v
                              /\ inverse_mel_scale_scalar v = x)
  /\ (forall x : R, x <= -700 -> mel_scale_scalar x = Raise ValueError).
Proof.
  split; [|split; [|split; [|split]]].
  - intros m. unfold mel_scale, inverse_mel_scale. rewrite map_map.
    rewrite <- (map_id m) at 2. apply map_ext. intros x. apply mel_of_inverse.
  - intros f Hf. unfold mel_scale, inverse_mel_scale. rewrite map_map.
    rewrite <- (map_id f) at 2. apply map_ext_in. intros x Hx.
    rewrite Forall_forall in Hf. apply inverse_of_mel. apply Hf. exact Hx.
  - intros m. unfold mel_scale_scalar, inverse_mel_scale_scalar, math_log.
    assert (Hpos : 0 < 1 + 700 * (exp (m / 1127) - 1) / 700).
    { replace (1 + 700 * (exp (m / 1127) - 1) / 700) with (exp (m / 1127)) by field.
      apply exp_pos. }
    destruct (Rlt_dec 0 (1 + 700 * (exp (m / 1127) - 1) / 700)) as [_|Hn];
      [|contradiction].
    cbn [bind]. f_equal. apply mel_of_inverse.
  - intros x Hx. unfold mel_scale_scalar, inverse_mel_scale_scalar, math_log.
    destruct (Rlt_dec 0 (1 + x / 700)) as [_|Hn]; [|exfalso; apply Hn; lra].
    cbn [bind]. eexists. split; [reflexivity|]. apply inverse_of_mel. exact Hx.
  - intros x Hx. unfold mel_scale_scalar, math_log.
    destruct (Rlt_dec 0 (1 + x / 700)) as [Hp|_]; [lra | reflexivity].
Qed.

(** X3.  Both directions of the mel scale keep the order of their
    arguments: [mel_scale_scalar] is strictly increasing above -700 Hz and
    [inverse_mel_scale_scalar] is strictly increasing everywhere, and the
    mel value of 0 Hz is 0. *)
Theorem mel_scale_increasing :
  (forall a b : R, -700 < a -> a < b ->
                   exists va vb, mel_scale_scalar a = Ok va
                                 /\ mel_scale_scalar b = Ok vb /\ va < vb)
  /\ (forall m1 m2 : R, m1 < m2 ->
                        inverse_mel_scale_scalar m1 < inverse_mel_scale_scalar m2)
  /\ mel_scale_scalar 0 = Ok 0
  /\ inverse_mel_scale_scalar 0 = 0.
Proof.
  split; [|split; [|split]].
  - intros a b Ha Hab. unfold mel_scale_scalar, math_log.
    destruct (Rlt_dec 0 (1 + a / 700)) as [_|Hn]; [|exfalso; apply Hn; lra].
    destruct (Rlt_dec 0 (1 + b / 700)) as [_|Hn]; [|exfalso; apply Hn; lra].
    cbn [bind]. eexists. eexists. split; [reflexivity|]. split; [reflexivity|].
    assert (H : ln (1 + a / 700) < ln (1 + b / 700)) by (apply ln_increasing; lra).
    lra.
  - intros m1 m2 Hm. unfold inverse_mel_scale_scalar.
    assert (H : exp (m1 / 1127) < exp (m2 / 1127)) by (apply exp_increasing; lra).
    lra.
  - unfold mel_scale_scalar, math_log.
    destruct (Rlt_dec 0 (1 + 0 / 700)) as [_|Hn]; [|exfalso; apply Hn; lra].
    cbn [bind]. f_equal. replace (1 + 0 / 700) with 1 by field. rewrite ln_1. ring.
  - unfold inverse_mel_scale_scalar. replace (0 / 1127) with 0 by field.
    rewrite exp_0. ring.
Qed.

(** ** Window functions *)

(** X4.  [_feature_window_function] knows exactly the five window types of
    [WINDOWS]: for each of them and a window of at least two samples it
    returns one coefficient per sample, and for every other name it raises
    the exception on the window type, whatever the size. *)
Theorem window_type_recognised (window_type : string) (window_size : Z)
        (blackman_coeff : R) :
  (In window_type WINDOWS -> (2 <= window_size)%Z ->
   exists win, _feature_window_function window_type window_size blackman_coeff = Ok win
               /\ Z.of_nat (length win) = window_size)
  /\ (~ In window_type WINDOWS ->
      _feature_window_function window_type window_size blackman_coeff
      = Raise (Exception "Invalid window type")).
Proof.
  split.
  - intros Hin Hsize. apply feature_window_function_ok; assumption.
  - intros Hnot. unfold _feature_window_function.
    assert (Hne : forall name, In name WINDOWS -> String.eqb window_type name = false).
    { intros name Hname. apply String.eqb_neq. intros ->. contradiction. }
    rewrite !Hne by (unfold WINDOWS; simpl; tauto). reflexivity.
Qed.

Lemma cosine_window_explicit (alpha beta : R) (n : Z) :
  (2 <= n)%Z ->
  cosine_window alpha beta n
  = Ok (map (fun k => alpha - beta * cos (2 * PI * IZR k / IZR (n - 1))) (zrange 0 n)).
Proof.
  intros Hn. unfold cosine_window.
  destruct (Z.ltb_spec n 0); [lia|]. destruct (Z.eqb_spec n 1); [lia|]. reflexivity.
Qed.

Lemma zrange_cons (n : Z) :
  (1 <= n)%Z -> zrange 0 n = 0%Z :: map (fun k => (k + 1)%Z) (zrange 0 (n - 1)).
Proof.
  intros Hn. unfold zrange.
  replace (Z.to_nat (n - 0)) with (S (Z.to_nat (n - 1 - 0))) by lia.
  cbn [seq map]. f_equal. rewrite <- seq_shift, !map_map.
  apply map_ext. intros k. lia.
Qed.

(** The first and the last value of a function tabulated over
    [0 .. n - 1]. *)
Lemma tabulate_ends (g : Z -> R) (n : Z) :
  (1 <= n)%Z ->
  hd 0 (map g (zrange 0 n)) = g 0%Z
  /\ last (map g (zrange 0 n)) 0 = g (n - 1)%Z.
Proof.
  intros Hn. split.
  - rewrite zrange_cons by exact Hn. reflexivity.
  - replace n with (n - 1 + 1)%Z at 1 by lia.
    rewrite zrange_succ by lia. rewrite map_app. cbn [map]. apply last_last.
Qed.

Lemma cos_full_turn (n : Z) : (2 <= n)%Z -> cos (2 * PI * IZR (n - 1) / IZR (n - 1)) = 1.
Proof.
  intros Hn.
  assert (Hpos : 0 < IZR (n - 1)) by (apply IZR_lt; lia).
  replace (2 * PI * IZR (n - 1) / IZR (n - 1)) with (2 * PI) by (field; lra).
  apply cos_2PI.
Qed.

Lemma cos_at_zero (n : Z) : cos (2 * PI * IZR 0 / IZR (n - 1)) = 1.
Proof.
  replace (2 * PI * IZR 0 / IZR (n - 1)) with 0 by (unfold Rdiv; ring).
  apply cos_0.
Qed.

Lemma float_pow_unit_interval (x p : R) :
  0 <= x <= 1 -> 0 < p -> 0 <= float_pow x p <= 1.
Proof.
  intros Hx Hp. unfold float_pow.
  destruct (Req_dec_T x 0) as [_|Hnz]; [lra|].
  unfold Rpower. split; [apply Rlt_le, exp_pos|].
  rewrite <- exp_0. 
  assert (Hln : ln x <= 0).
  { destruct (Req_dec_T x 1) as [->|Hn1]; [rewrite ln_1; lra|].
    apply Rlt_le. rewrite <- ln_1. apply ln_increasing; lra. }
  destruct (Req_dec_T (p * ln x) 0) as [->|Hne]; [lra|].
  apply Rlt_le. apply exp_increasing. nra.
Qed.

(** X5.  The values of the windows of at least two samples.  The Hanning
    and the Povey window start and end at 0 and stay within [[0, 1]]; the
    Hamming window starts and ends at 0.08 and stays within [[0.08, 1]];
    the rectangular window is 1 everywhere; and the generalised Blackman
    window starts and ends at 0 for every coefficient. *)
Theorem window_values (window_size : Z) (blackman_coeff : R) :
  (2 <= window_size)%Z ->
  (forall window_type, window_type = HANNING \/ window_type = POVEY ->
     exists win,
       _feature_window_function window_type window_size blackman_coeff = Ok win
       /\ hd 0 win = 0 /\ last win 0 = 0
       /\ Forall (fun x => 0 <= x <= 1) win)
  /\ (exists win,
         _feature_window_function HAMMING window_size blackman_coeff = Ok win
         /\ hd 0 win = 8 / 100 /\ last win 0 = 8 / 100
         /\ Forall (fun x => 8 / 100 <= x <= 1) win)
  /\ _feature_window_function RECTANGULAR window_size blackman_coeff
     = Ok (repeat 1 (Z.to_nat window_size))
  /\ (exists win,
         _feature_window_function BLACKMAN window_size blackman_coeff = Ok win
         /\ hd 0 win = 0 /\ last win 0 = 0).
Proof.
  intros Hsize.
  assert (Hhann : exists win,
             hann_window window_size = Ok win
             /\ hd 0 win = 0 /\ last win 0 = 0
             /\ Forall (fun x => 0 <= x <= 1) win).
  { unfold hann_window. rewrite cosine_window_explicit by exact Hsize.
    eexists. split; [reflexivity|].
    destruct (tabulate_ends
                (fun k => 1 / 2 - 1 / 2 * cos (2 * PI * IZR k / IZR (window_size - 1)))
                window_size ltac:(lia)) as [Hhd Hlast].
    rewrite Hhd, Hlast, cos_at_zero, cos_full_turn by exact Hsize.
    split; [lra|]. split; [lra|].
    apply Forall_map. apply Forall_forall. intros k _.
    pose proof (COS_bound (2 * PI * IZR k / IZR (window_size - 1))). lra. }
  split; [|split; [|split]].
  - intros window_type [-> | ->].
    + exact Hhann.
    + destruct Hhann as (win & Hwin & Hhd & Hlast & Hall).
      unfold _feature_window_function. simpl String.eqb. cbv iota.
      rewrite Hwin. cbn [bind]. eexists. split; [reflexivity|].
      assert (Hzero : float_pow 0 (85 / 100) = 0).
      { unfold float_pow. destruct (Req_dec_T 0 0); [reflexivity | contradiction]. }
      split; [|split].
      * destruct win as [|x win]; [reflexivity|]. simpl in Hhd. subst x.
        cbn [map hd]. exact Hzero.
      * destruct (exists_last (l := win)) as (front & x & ->).
        { intros ->. unfold hann_window in Hwin.
          rewrite cosine_window_explicit in Hwin by exact Hsize.
          injection Hwin as Hwin. apply (f_equal (@length R)) in Hwin.
          rewrite length_map, zrange_length in Hwin. simpl in Hwin. lia. }
        rewrite last_last in Hlast. subst x.
        rewrite map_app. cbn [map]. rewrite last_last. exact Hzero.
      * apply Forall_map. eapply Forall_impl; [|exact Hall]. cbv beta.
        intros x Hx. apply float_pow_unit_interval; lra.
  - unfold _feature_window_function. simpl String.eqb. cbv iota.
    unfold hamming_window. rewrite cosine_window_explicit by exact Hsize.
    eexists. split; [reflexivity|].
    destruct (tabulate_ends
                (fun k => 54 / 100
                          - 46 / 100 * cos (2 * PI * IZR k / IZR (window_size - 1)))
                window_size ltac:(lia)) as [Hhd Hlast].
    rewrite Hhd, Hlast, cos_at_zero, cos_full_turn by exact Hsize.
    split; [lra|]. split; [lra|].
    apply Forall_map. apply Forall_forall. intros k _.
    pose proof (COS_bound (2 * PI * IZR k / IZR (window_size - 1))). lra.
  - unfold _feature_window_function. simpl String.eqb. cbv iota.
    destruct (Z.ltb_spec window_size 0); [lia | reflexivity].
  - unfold _feature_window_function. simpl String.eqb. cbv iota.
    unfold float_div.
    assert (Hpos : 0 < IZR (window_size - 1)) by (apply IZR_lt; lia).
    destruct (Req_dec_T (IZR (window_size - 1)) 0) as [Hz|_]; [lra|].
    cbn [bind]. destruct (Z.ltb_spec window_size 0); [lia|].
    eexists. split; [reflexivity|].
    set (a := 2 * PI / IZR (window_size - 1)).
    destruct (tabulate_ends
                (fun k => blackman_coeff - 1 / 2 * cos (a * IZR k)
                          + (1 / 2 - blackman_coeff) * cos (2 * a * IZR k))
                window_size ltac:(lia)) as [Hhd Hlast].
    rewrite Hhd, Hlast.
    assert (Ha0 : a * IZR 0 = 0) by ring.
    assert (Ha1 : a * IZR (window_size - 1) = 2 * PI) by (unfold a; field; lra).
    split.
    + replace (2 * a * IZR 0) with 0 by ring. rewrite Ha0, cos_0. ring.
    + replace (2 * a * IZR (window_size - 1)) with (2 * PI + 2 * PI) by lra.
      rewrite Ha1, cos_plus, cos_2PI, sin_2PI. ring.
Qed.

Lemma window_values_witness :
  _feature_window_function RECTANGULAR 4 (42 / 100) = Ok [1; 1; 1; 1]
  /\ exists win, _feature_window_function POVEY 400 (42 / 100) = Ok win
                 /\ hd 0 win = 0 /\ last win 0 = 0.
Proof.
  split.
  - apply (window_values 4 (42 / 100)). lia.
  - destruct (window_values 400 (42 / 100) ltac:(lia)) as (Hends & _).
    destruct (Hends POVEY (or_intror eq_refl)) as (win & Hwin & Hhd & Hlast & _).
    exists win. repeat split; assumption.
Defined.

(** ** Floors of the log energy *)

Lemma ln_monotone (x y : R) : 0 < x -> x <= y -> ln x <= ln y.
Proof.
  intros Hx Hxy. destruct (Req_dec_T x y) as [->|Hne]; [lra|].
  apply Rlt_le. apply ln_increasing; lra.
Qed.

(** X6.  With a positive [epsilon], [_get_log_energy] returns one value
    per frame when the energy floor is not negative; no value is below
    [ln epsilon], nor below [ln energy_floor] when the energy floor is
    positive.  A negative energy floor raises [ValueError] (the logarithm of
    the floor), even when there is no frame. *)
Theorem log_energy_floors (frames : list (list R)) (epsilon energy_floor : R) :
  0 < epsilon ->
  (0 <= energy_floor ->
   exists log_energy,
     _get_log_energy frames epsilon energy_floor = Ok log_energy
     /\ length log_energy = length frames
     /\ Forall (fun e => ln epsilon <= e /\ (0 < energy_floor -> ln energy_floor <= e))
               log_energy)
  /\ (energy_floor < 0 ->
      _get_log_energy frames epsilon energy_floor = Raise ValueError).
Proof.
  intros Heps. split.
  - intros Hfloor. rewrite get_log_energy_ok by exact Hfloor.
    eexists. split; [reflexivity|]. split; [apply length_map|].
    apply Forall_map. apply Forall_forall. intros frame _. cbv zeta.
    assert (Hbase : ln epsilon <= ln (Rmax (sum_of_squares frame) epsilon)).
    { apply ln_monotone; [exact Heps | apply Rmax_r]. }
    destruct (Req_dec_T energy_floor 0) as [Hz|Hnz].
    + split; [exact Hbase | lra].
    + split.
      * eapply Rle_trans; [exact Hbase | apply Rmax_l].
      * intros _. apply Rmax_r.
  - intros Hneg. unfold _get_log_energy, math_log.
    destruct (Req_dec_T energy_floor 0) as [Hz|_]; [lra|].
    destruct (Rlt_dec 0 energy_floor) as [Hp|_]; [lra | reflexivity].
Qed.

Lemma log_energy_floors_witness :
  exists log_energy,
    _get_log_energy [[0; 0]; [3; 4]] (_get_epsilon float32) 1 = Ok log_energy
    /\ length log_energy = 2%nat
    /\ Forall (fun e => ln 1 <= e) log_energy.
Proof.
  destruct (log_energy_floors [[0; 0]; [3; 4]] (_get_epsilon float32) 1
                              (finfo_eps_pos float32)) as [Hok _].
  destruct (Hok ltac:(lra)) as (e & Hrun & Hlen & Hall).
  exists e. split; [exact Hrun|]. split; [exact Hlen|].
  eapply Forall_impl; [|exact Hall]. cbv beta. intros v [_ Hv]. apply Hv. lra.
Defined.

(** ** What the validation accepts *)

Section ValidationAccepts.
Context {A : Type}.

(** X7.  With [round_to_power_of_two] set, the validation accepts a call
    exactly when the selected channel exists, the window has at least two
    samples and fits the channel, the shift is positive, the pre-emphasis
    coefficient lies in [[0, 1]] and the sample frequency is positive (the
    padded window is then even by itself); it returns the selected channel
    with the shift, the window size and the padded size, and every refusal
    is an assertion error. *)
Theorem validation_accepts (waveform : list (list A)) (channel : Z)
        (sample_frequency frame_shift frame_length preemphasis_coefficient : R) :
  let row := nth (Z.to_nat (Z.max channel 0)) waveform [] in
  let window_shift :=
    int_of_float (sample_frequency * frame_shift * MILLISECONDS_TO_SECONDS) in
  let window_size :=
    int_of_float (sample_frequency * frame_length * MILLISECONDS_TO_SECONDS) in
  let accepted :=
    (Z.max channel 0 < Z.of_nat (length waveform))%Z
    /\ (2 <= window_size <= Z.of_nat (length row))%Z
    /\ (0 < window_shift)%Z
    /\ 0 <= preemphasis_coefficient <= 1
    /\ 0 < sample_frequency in
  (accepted ->
   _get_waveform_and_window_properties waveform channel sample_frequency frame_shift
     frame_length true preemphasis_coefficient
   = Ok (row, window_shift, window_size, _next_power_of_2 window_size))
  /\ (~ accepted ->
      is_assertion_error
        (_get_waveform_and_window_properties waveform channel sample_frequency
           frame_shift frame_length true preemphasis_coefficient) = true).
Proof.
  intros row window_shift window_size accepted. split.
  - intros (Hch & Hsize & Hshift & Hpre & Hsf).
    apply window_properties_ok; try assumption.
    unfold _next_power_of_2, bit_length. fold window_size.
    destruct (Z.eqb_spec window_size 0); [lia|].
    destruct (Z.eqb_spec (window_size - 1) 0); [lia|].
    rewrite Z.abs_eq by lia.
    pose proof (Z.log2_nonneg (window_size - 1)).
    rewrite Z.pow_add_r by lia.
    change (2 ^ 1)%Z with 2%Z. apply Z.mod_mul. lia.
  - intros Hnot. unfold _get_waveform_and_window_properties.
    destruct (Z.ltb_spec (Z.max channel 0) (Z.of_nat (length waveform))) as [Hch|Hch];
      cbn [assert bind]; [|reflexivity].
    fold row window_shift window_size.
    destruct (Z.leb_spec 2 window_size) as [H2|H2]; cbn [andb assert bind];
      [|reflexivity].
    destruct (Z.leb_spec window_size (Z.of_nat (length row))) as [Hlen|Hlen];
      cbn [assert bind]; [|reflexivity].
    destruct (Z.ltb_spec 0 window_shift) as [Hshift|Hshift];
      cbn [assert bind]; [|reflexivity].
    destruct (_next_power_of_2 window_size mod 2 =? 0)%Z;
      cbn [assert bind]; [|reflexivity].
    destruct (Rleb 0 preemphasis_coefficient) eqn:Hp0; cbn [andb assert bind];
      [|reflexivity].
    destruct (Rleb preemphasis_coefficient 1) eqn:Hp1; cbn [assert bind];
      [|reflexivity].
    destruct (Rltb 0 sample_frequency) eqn:Hsf; cbn [assert bind]; [|reflexivity].
    exfalso. apply Hnot. apply Rleb_spec in Hp0, Hp1. apply Rltb_spec in Hsf.
    unfold accepted. repeat split; assumption.
Qed.
End ValidationAccepts.

(** ** Pre-emphasis *)

Lemma zip_with_nth {X Y W : Type} (f : X -> Y -> W) (a : list X) (b : list Y)
      (j : nat) (dx : X) (dy : Y) (dw : W) :
  (j < length a)%nat -> (j < length b)%nat ->
  nth j (zip_with f a b) dw = f (nth j a dx) (nth j b dy).
Proof.
  revert b j. induction a as [|x a IH]; intros [|y b] [|j] Ha Hb; simpl in *;
    try lia; try reflexivity.
  apply IH; lia.
Qed.

Lemma removelast_nth {X : Type} (l : list X) (j : nat) (d : X) :
  (S j < length l)%nat -> nth j (removelast l) d = nth j l d.
Proof.
  revert j. induction l as [|x [|y l] IH]; intros j Hj; simpl in Hj; try lia.
  change (removelast (x :: y :: l)) with (x :: removelast (y :: l)).
  destruct j as [|j]; [reflexivity|].
  cbn [nth]. apply IH. simpl. lia.
Qed.

(** X8.  Pre-emphasis keeps the length of a frame and replaces sample [j]
    by [x[j] - coeff * x[max(0, j - 1)]]: the first sample is its own
    predecessor. *)
Theorem preemphasis_formula (coeff : R) (frame : list R) :
  length (preemphasis coeff frame) = length frame
  /\ forall j, (j < length frame)%nat ->
               nth j (preemphasis coeff frame) 0
               = nth j frame 0 - coeff * nth (Nat.max 0 (j - 1)) frame 0.
Proof.
  split; [apply preemphasis_length|].
  intros j Hj. unfold preemphasis.
  destruct frame as [|x0 frame]; [simpl in Hj; lia|].
  rewrite (zip_with_nth _ _ _ j 0 0 0);
    [|exact Hj | rewrite removelast_cons_length; exact Hj].
  f_equal. f_equal.
  rewrite removelast_nth by (simpl in *; lia).
  destruct j as [|j]; [reflexivity|].
  cbn [nth Nat.max]. replace (S j - 1)%nat with j by lia. reflexivity.
Qed.

(** ** Subtracting the column means *)

Lemma mapi_from_nth {X Y : Type} (f : nat -> X -> Y) (i c : nat) (l : list X)
      (dx : X) (dy : Y) :
  (c < length l)%nat -> nth c (mapi_from f i l) dy = f (i + c)%nat (nth c l dx).
Proof.
  revert i c. induction l as [|x l IH]; intros i c Hc; simpl in Hc; [lia|].
  destruct c as [|c]; cbn [mapi_from nth].
  - rewrite Nat.add_0_r. reflexivity.
  - rewrite (IH (S i) c) by lia. f_equal. lia.
Qed.

Lemma sum_map_minus {X : Type} (g : X -> R) (k : R) (l : list X) :
  sum (map (fun x => g x - k) l) = sum (map g l) - INR (length l) * k.
Proof.
  unfold sum. induction l as [|x l IH].
  - simpl. ring.
  - change (length (x :: l)) with (S (length l)). rewrite S_INR.
    cbn [map fold_right]. rewrite IH. ring.
Qed.

(** X9.  [_subtract_column_mean] leaves the tensor alone when
    [subtract_mean] is false; when it is true it keeps the shape of a
    matrix with at least one row, and afterwards every column adds up to
    zero, so every column mean is zero. *)
Theorem subtract_column_mean_centres (t : list (list R)) (cols : nat) :
  t <> [] ->
  Forall (fun row => length row = cols) t ->
  _subtract_column_mean t false = t
  /\ length (_subtract_column_mean t true) = length t
  /\ Forall (fun row => length row = cols) (_subtract_column_mean t true)
  /\ forall c, (c < cols)%nat ->
               sum (column c (_subtract_column_mean t true)) = 0
               /\ mean (column c (_subtract_column_mean t true)) = 0.
Proof.
  intros Hne Hrows. split; [reflexivity|]. split; [apply length_map|]. split.
  - unfold _subtract_column_mean. apply Forall_map.
    eapply Forall_impl; [|exact Hrows]. cbv beta. intros row Hrow.
    rewrite mapi_length. exact Hrow.
  - intros c Hc.
    assert (Hsum : sum (column c (_subtract_column_mean t true)) = 0).
    { unfold _subtract_column_mean, column at 1. rewrite map_map.
      rewrite (map_ext_in _ (fun row => nth c row 0 - mean (column c t))).
      - rewrite sum_map_minus. fold (column c t). unfold mean.
        unfold column at 3. rewrite length_map.
        assert (Hlen : INR (length t) <> 0).
        { apply not_0_INR. destruct t; [contradiction | simpl; lia]. }
        field. exact Hlen.
      - intros row Hin. rewrite Forall_forall in Hrows.
        unfold mapi. rewrite (mapi_from_nth _ 0 c row 0 0) by (rewrite (Hrows row Hin); lia).
        reflexivity. }
    split; [exact Hsum|]. unfold mean. rewrite Hsum. unfold Rdiv. ring.
Qed.

Lemma subtract_column_mean_centres_witness :
  sum (column 0 (_subtract_column_mean [[1; 2]; [3; 6]] true)) = 0
  /\ sum (column 1 (_subtract_column_mean [[1; 2]; [3; 6]] true)) = 0.
Proof.
  destruct (subtract_column_mean_centres [[1; 2]; [3; 6]] 2) as (_ & _ & _ & Hc).
  - discriminate.
  - repeat constructor.
  - split; [apply (Hc 0%nat) | apply (Hc 1%nat)]; lia.
Defined.

(** ** Shapes of the results *)

Lemma num_frames_nonneg (n window_size window_shift : Z) (snip_edges : bool) :
  (0 < window_shift)%Z -> (0 <= window_size <= n)%Z ->
  (0 <= num_frames n window_size window_shift snip_edges)%Z.
Proof.
  intros Hshift Hsize. unfold num_frames. destruct snip_edges.
  - assert (0 <= (n - window_size) / window_shift)%Z by (apply Z.div_pos; lia). lia.
  - apply Z.div_pos; [|lia].
    assert (0 <= window_shift / 2)%Z by (apply Z.div_pos; lia). lia.
Qed.

Lemma get_strided_count (stride : Z) (w : list R) (window_size window_shift : Z)
      (snip_edges : bool) :
  (0 < stride)%Z -> snip_edges = true \/ stride = 1%Z ->
  (0 < window_shift)%Z -> (0 <= window_size <= Z.of_nat (length w))%Z ->
  exists frames,
    _get_strided stride w window_size window_shift snip_edges
    = Ok (Tensor2 (num_frames (Z.of_nat (length w)) window_size window_shift snip_edges)
                  window_size frames)
    /\ Z.of_nat (length frames)
       = num_frames (Z.of_nat (length w)) window_size window_shift snip_edges
    /\ Forall (fun frame => length frame = Z.to_nat window_size) frames.
Proof.
  intros Hstride Hlayout Hshift Hws.
  pose proof (num_frames_nonneg (Z.of_nat (length w)) window_size window_shift
                                snip_edges Hshift Hws) as Hm.
  destruct snip_edges; unfold num_frames in *;
    [|destruct Hlayout as [Hsnip | ->]; [discriminate|]].
  - eexists. split; [apply get_strided_snip_ok; lia|]. split.
    + rewrite length_map, length_seq. lia.
    + apply Forall_forall. intros frame Hin. apply in_map_iff in Hin.
      destruct Hin as [i [<- Hi]]. apply in_seq in Hi.
      assert (Hb : (Z.of_nat i * window_shift + window_size <= Z.of_nat (length w))%Z)
        by (apply snip_frames_in_signal; lia).
      pose proof (frame_at_length w (Z.of_nat i * window_shift) window_size) as Hl.
      lia.
  - eexists. split; [apply get_strided_reflect_ok; lia|]. split.
    + rewrite length_map, length_seq. lia.
    + apply Forall_forall. intros frame Hin. apply in_map_iff in Hin.
      destruct Hin as [i [<- Hi]]. apply in_seq in Hi.
      assert (Hb : (Z.of_nat i * window_shift + window_size
                    <= Z.of_nat (length (extended_signal w window_size window_shift)))%Z)
        by (apply reflect_frames_in_signal; lia).
      pose proof (frame_at_length (extended_signal w window_size window_shift)
                                  (Z.of_nat i * window_shift) window_size) as Hl.
      lia.
Qed.

(** The frames and energies that [_get_window] returns: one padded frame
    and one energy per frame of the framer. *)
Lemma get_window_shape (torch_rand : nat -> nat -> R) (stride : Z) (waveform : list R)
      (padded_window_size window_size window_shift : Z) (window_type : string)
      (blackman_coeff : R) (snip_edges raw_energy : bool) (energy_floor dither : R)
      (remove_dc_offset : bool) (preemphasis_coefficient : R) (dt : dtype) :
  (0 < stride)%Z -> snip_edges = true \/ stride = 1%Z ->
  (2 <= window_size <= Z.of_nat (length waveform))%Z ->
  (0 < window_shift)%Z ->
  (window_size <= padded_window_size)%Z ->
  In window_type WINDOWS ->
  0 <= energy_floor ->
  exists frames energy,
    _get_window torch_rand stride waveform padded_window_size window_size window_shift
                window_type blackman_coeff snip_edges raw_energy energy_floor dither
                remove_dc_offset preemphasis_coefficient dt
    = Ok (frames, energy)
    /\ Z.of_nat (length frames)
       = num_frames (Z.of_nat (length waveform)) window_size window_shift snip_edges
    /\ length energy = length frames
    /\ Forall (fun frame => Z.of_nat (length frame) = padded_window_size) frames.
Proof.
  intros Hstride Hlayout Hsize Hshift Hpadded Htype Hfloor.
  destruct (get_window_defined torch_rand stride waveform padded_window_size window_size
              window_shift window_type blackman_coeff snip_edges raw_energy energy_floor
              dither remove_dc_offset preemphasis_coefficient dt
              Hstride Hlayout Hsize Hshift Hpadded Htype Hfloor)
    as (frames & energy & Hrun & Hlen & Hrows).
  exists frames, energy. split; [exact Hrun|]. split; [|split; assumption].
  unfold _get_window in Hrun.
  destruct (get_strided_count stride waveform window_size window_shift snip_edges
              Hstride Hlayout)
    as (frames0 & Hstrided & Hcount & _); [lia | lia |].
  rewrite Hstrided in Hrun. cbn [bind rows size1] in Hrun.
  rewrite Z.eqb_refl in Hrun.
  destruct (feature_window_function_ok window_type window_size blackman_coeff Htype)
    as [win [Hwin _]]; [lia|].
  rewrite <- Hcount.
  assert (Hlens : length frames = length frames0); [|lia].
  destruct raw_energy.
  - rewrite get_log_energy_ok in Hrun by exact Hfloor. cbn [bind] in Hrun.
    rewrite Hwin in Hrun. cbn [bind] in Hrun. injection Hrun as <- _.
    destruct (padded_window_size =? window_size)%Z;
      destruct (Reqb preemphasis_coefficient 0);
      destruct remove_dc_offset; destruct (Reqb dither 0);
      rewrite ?length_map, ?mapi_length; reflexivity.
  - cbn [bind] in Hrun. rewrite Hwin in Hrun. cbn [bind] in Hrun.
    rewrite get_log_energy_ok in Hrun by exact Hfloor. cbn [bind] in Hrun.
    injection Hrun as <- _.
    destruct (padded_window_size =? window_size)%Z;
      destruct (Reqb preemphasis_coefficient 0);
      destruct remove_dc_offset; destruct (Reqb dither 0);
      rewrite ?length_map, ?mapi_length; reflexivity.
Qed.

Lemma set_column0_ok (t : list (list R)) (v : list R) :
  Forall (fun row => row <> []) t ->
  set_column0 t v = Ok (zip_with (fun row e => e :: tl row) t v).
Proof.
  intros Hrows. unfold set_column0.
  replace (existsb _ t) with false; [reflexivity|].
  symmetry. apply not_true_is_false. intros Hex.
  apply existsb_exists in Hex. destruct Hex as [row [Hin Hrow]].
  rewrite Forall_forall in Hrows. specialize (Hrows row Hin).
  destruct row; [contradiction | discriminate].
Qed.

Lemma zip_with_map_left {X Y V W : Type} (g : X -> Y) (f : Y -> V -> W)
      (a : list X) (b : list V) :
  zip_with f (map g a) b = zip_with (fun x e => f (g x) e) a b.
Proof.
  revert b. induction a as [|x a IH]; intros [|e b]; simpl; try reflexivity.
  rewrite IH. reflexivity.
Qed.

Lemma zip_with_column0 (g : list R -> list R) (frames : list (list R)) (energy : list R) :
  length energy = length frames ->
  column 0 (zip_with (fun frame e => e :: tl (g frame)) frames energy) = energy.
Proof.
  revert energy. induction frames as [|frame frames IH]; intros [|e energy] Hlen;
    simpl in Hlen; try lia; [reflexivity|].
  cbn [zip_with column map nth]. f_equal. apply IH. lia.
Qed.

(** X10.  For a waveform that is contiguous, or a view of a positive
    stride when [snip_edges] is set: when the validation passes, the signal
    is not shorter than [min_duration], the window type is known, the
    energy floor is not negative and the FFT gives L/2 + 1 bins for a frame
    of L samples, [spectrogram] returns a matrix with one row per frame of
    the framer and [padded_window_size / 2 + 1] columns.  Without mean
    subtraction a row is the log energy of its frame followed by
    [ln (max (|FFT|^2) epsilon)] for the bins after the first: column 0
    holds the energy of the signal, not of the spectrum. *)
Theorem spectrogram_shape (torch_rand : nat -> nat -> R) (rfft_abs : list R -> list R)
        (stride : Z) (waveform : list (list R)) (dt : dtype) (o : options)
        (w : list R) (window_shift window_size padded_window_size : Z) :
  (0 < stride)%Z -> snip_edges o = true \/ stride = 1%Z ->
  _get_waveform_and_window_properties waveform (channel o) (sample_frequency o)
    (frame_shift o) (frame_length o) (round_to_power_of_two o)
    (preemphasis_coefficient o)
  = Ok (w, window_shift, window_size, padded_window_size) ->
  min_duration o * sample_frequency o <= INR (length w) ->
  In (window_type o) WINDOWS ->
  0 <= energy_floor o ->
  (forall frame, length (rfft_abs frame) = (length frame / 2 + 1)%nat) ->
  exists m frames energy,
    spectrogram torch_rand rfft_abs stride waveform dt o = Ok (Matrix m)
    /\ _get_window torch_rand stride w padded_window_size window_size window_shift
         (window_type o) (blackman_coeff o) (snip_edges o) (raw_energy o)
         (energy_floor o) (dither o) (remove_dc_offset o)
         (preemphasis_coefficient o) dt
       = Ok (frames, energy)
    /\ Z.of_nat (length m)
       = num_frames (Z.of_nat (length w)) window_size window_shift (snip_edges o)
    /\ Forall (fun row => Z.of_nat (length row) = (padded_window_size / 2 + 1)%Z) m
    /\ (subtract_mean o = false ->
        column 0 m = energy
        /\ m = zip_with
                 (fun frame e =>
                    e :: tl (map (fun a => ln (Rmax (a ^ 2) (_get_epsilon dt)))
                                 (rfft_abs frame)))
                 frames energy).
Proof.
  intros Hstride Hlayout Hval Hdur Htype Hfloor Hfft.
  destruct (window_properties_inv _ _ _ _ _ _ _ _ _ _ _ Hval)
    as (_ & _ & Hsize & Hshift & Heven & Hpadded).
  destruct (get_window_shape torch_rand stride w padded_window_size window_size
              window_shift
              (window_type o) (blackman_coeff o) (snip_edges o) (raw_energy o)
              (energy_floor o) (dither o) (remove_dc_offset o)
              (preemphasis_coefficient o) dt Hstride Hlayout
              Hsize Hshift Hpadded Htype Hfloor)
    as (frames & energy & Hwin & Hcount & Henergy & Hframes).
  set (g := fun frame : list R =>
              map (fun a => ln (Rmax (a ^ 2) (_get_epsilon dt))) (rfft_abs frame)).
  set (body := zip_with (fun frame e => e :: tl (g frame)) frames energy).
  assert (Hrun : spectrogram torch_rand rfft_abs stride waveform dt o
                 = Ok (Matrix (_subtract_column_mean body (subtract_mean o)))).
  { unfold spectrogram. rewrite Hval. cbn [bind].
    rewrite Rltb_false by exact Hdur. rewrite Hwin. cbn [bind].
    rewrite set_column0_ok.
    - cbn [bind]. rewrite map_map.
      rewrite (zip_with_map_left (fun frame => g frame)). reflexivity.
    - apply Forall_map. apply Forall_map. apply Forall_forall. intros frame _ Hempty.
      apply (f_equal (@length R)) in Hempty. rewrite length_map, Hfft in Hempty.
      simpl in Hempty. lia. }
  assert (Hbody_len : length body = length frames).
  { unfold body. rewrite zip_with_length. lia. }
  assert (Hbody_rows : Forall (fun row => Z.of_nat (length row)
                                          = (padded_window_size / 2 + 1)%Z) body).
  { unfold body. eapply zip_with_Forall; [|exact Hframes]. cbv beta.
    intros frame e Hframe. unfold g.
    assert (Hl : length (map (fun a => ln (Rmax (a ^ 2) (_get_epsilon dt)))
                             (rfft_abs frame)) = (length frame / 2 + 1)%nat)
      by (rewrite length_map; apply Hfft).
    destruct (map _ (rfft_abs frame)) as [|x l]; [simpl in Hl; lia|].
    cbn [tl length] in *. rewrite Hl, Nat2Z.inj_add, Nat2Z.inj_div, Hframe.
    reflexivity. }
  exists (_subtract_column_mean body (subtract_mean o)), frames, energy.
  split; [exact Hrun|]. split; [exact Hwin|]. split; [|split].
  - rewrite subtract_column_mean_length, Hbody_len. exact Hcount.
  - apply subtract_column_mean_rows. exact Hbody_rows.
  - intros ->. cbn [_subtract_column_mean]. split; [|reflexivity].
    apply zip_with_column0. exact Henergy.
Qed.

(** X11.  Under the conditions of X10 and a valid mel configuration (more
    than 3 bins, [0 <= low_freq < nyquist], [0 < high_freq <= nyquist],
    [low_freq < high_freq], and either no warping or a positive warp factor
    with cutoffs inside the band) [fbank] returns a matrix with one row per
    frame of the framer and one column per mel bin, plus one for the energy
    when [use_energy] is set. *)
Theorem fbank_shape (torch_rand : nat -> nat -> R) (rfft_abs : list R -> list R)
        (stride : Z) (waveform : list (list R)) (dt : dtype) (o : options)
        (w : list R) (window_shift window_size padded_window_size : Z) :
  (0 < stride)%Z -> snip_edges o = true \/ stride = 1%Z ->
  _get_waveform_and_window_properties waveform (channel o) (sample_frequency o)
    (frame_shift o) (frame_length o) (round_to_power_of_two o)
    (preemphasis_coefficient o)
  = Ok (w, window_shift, window_size, padded_window_size) ->
  min_duration o * sample_frequency o <= INR (length w) ->
  In (window_type o) WINDOWS ->
  0 <= energy_floor o ->
  (forall frame, length (rfft_abs frame) = (length frame / 2 + 1)%nat) ->
  (3 < num_mel_bins o)%Z ->
  (let nyquist := (1 / 2) * sample_frequency o in
   let high := if Rle_dec (high_freq o) 0 then high_freq o + nyquist else high_freq o in
   let vhigh := if Rlt_dec (vtln_high o) 0 then vtln_high o + nyquist else vtln_high o in
   0 <= low_freq o < nyquist /\ 0 < high <= nyquist /\ low_freq o < high
   /\ (vtln_warp o = 1
       \/ (0 < vtln_warp o /\ low_freq o < vtln_low o < high
           /\ 0 < vhigh < high /\ vtln_low o < vhigh))) ->
  exists m,
    fbank torch_rand rfft_abs stride waveform dt o = Ok (Matrix m)
    /\ Z.of_nat (length m)
       = num_frames (Z.of_nat (length w)) window_size window_shift (snip_edges o)
    /\ Forall (fun row => Z.of_nat (length row)
                          = (num_mel_bins o + if use_energy o then 1 else 0)%Z) m.
Proof.
  intros Hstride Hlayout Hval Hdur Htype Hfloor Hfft Hbins Hmel.
  destruct (fbank_defined torch_rand rfft_abs stride waveform dt o w window_shift
              window_size padded_window_size Hstride Hlayout
              Hval Hdur Htype Hfloor Hfft Hbins Hmel) as [m Hrun].
  exists m. split; [exact Hrun|]. split.
  - destruct (window_properties_inv _ _ _ _ _ _ _ _ _ _ _ Hval)
      as (_ & _ & Hsize & Hshift & Heven & Hpadded).
    destruct (get_window_shape torch_rand stride w padded_window_size window_size
                window_shift
                (window_type o) (blackman_coeff o) (snip_edges o) (raw_energy o)
                (energy_floor o) (dither o) (remove_dc_offset o)
                (preemphasis_coefficient o) dt Hstride Hlayout
                Hsize Hshift Hpadded Htype Hfloor)
      as (frames & energy & Hwin & Hcount & Henergy & _).
    rewrite <- Hcount.
    unfold fbank in Hrun. rewrite Hval in Hrun. cbn [bind] in Hrun.
    rewrite Rltb_false in Hrun by exact Hdur. rewrite Hwin in Hrun. cbn [bind] in Hrun.
    destruct (get_mel_banks (num_mel_bins o) padded_window_size (sample_frequency o)
                (low_freq o) (high_freq o) (vtln_low o) (vtln_high o) (vtln_warp o))
      as [[bins cf]|e]; cbn [bind] in Hrun; [|discriminate Hrun].
    match type of Hrun with
    | bind ?r _ = _ => destruct r as [me|e] eqn:Hmm; cbn [bind] in Hrun;
                       [|discriminate Hrun]
    end.
    apply mm_T_rows in Hmm. destruct Hmm as [Hme _].
    injection Hrun as <-. rewrite subtract_column_mean_length.
    assert (Hspec : length me = length frames).
    { rewrite Hme. destruct (use_power o); rewrite ?length_map; reflexivity. }
    f_equal.
    destruct (use_energy o); [destruct (htk_compat o)|];
      destruct (use_log_fbank o);
      rewrite ?zip_with_length, ?length_map; lia.
  - apply (fbank_matrix_shape _ _ _ _ _ _ _ Hrun).
Qed.

Lemma validation_of_eight_samples :
  _get_waveform_and_window_properties
    [[1; 2; 3; 4; 5; 6; 7; 8]]
    (channel (with_framing defaults 1000 4 2 0))
    (sample_frequency (with_framing defaults 1000 4 2 0))
    (frame_shift (with_framing defaults 1000 4 2 0))
    (frame_length (with_framing defaults 1000 4 2 0))
    (round_to_power_of_two (with_framing defaults 1000 4 2 0))
    (preemphasis_coefficient (with_framing defaults 1000 4 2 0))
  = Ok ([1; 2; 3; 4; 5; 6; 7; 8], 2%Z, 4%Z, 4%Z).
Proof.
  cbn [with_framing defaults channel sample_frequency frame_shift frame_length
       round_to_power_of_two preemphasis_coefficient].
  apply window_properties_1000_4_2; [lia | simpl; lia | lra].
Qed.

Lemma spectrogram_shape_witness :
  exists m,
    spectrogram rand_half dft_abs 1 [[1; 2; 3; 4; 5; 6; 7; 8]] float32
                (with_framing defaults 1000 4 2 0)
    = Ok (Matrix m)
    /\ Z.of_nat (length m) = 3%Z
    /\ Forall (fun row => Z.of_nat (length row) = 3%Z) m.
Proof.
  destruct (spectrogram_shape rand_half dft_abs 1 [[1; 2; 3; 4; 5; 6; 7; 8]] float32
                              (with_framing defaults 1000 4 2 0)
                              [1; 2; 3; 4; 5; 6; 7; 8] 2 4 4)
    as (m & _ & _ & Hrun & _ & Hcount & Hrows & _).
  - lia.
  - left. reflexivity.
  - exact validation_of_eight_samples.
  - simpl. lra.
  - simpl. tauto.
  - simpl. lra.
  - apply dft_abs_length.
  - exists m. split; [exact Hrun|]. split; [exact Hcount | exact Hrows].
Defined.

Lemma fbank_shape_witness :
  exists m,
    fbank rand_half dft_abs 1 [[1; 2; 3; 4; 5; 6; 7; 8]] float32
          (with_framing defaults 1000 4 2 0)
    = Ok (Matrix m)
    /\ Z.of_nat (length m) = 3%Z
    /\ Forall (fun row => Z.of_nat (length row) = 23%Z) m.
Proof.
  destruct (fbank_shape rand_half dft_abs 1 [[1; 2; 3; 4; 5; 6; 7; 8]] float32
                        (with_framing defaults 1000 4 2 0)
                        [1; 2; 3; 4; 5; 6; 7; 8] 2 4 4)
    as (m & Hrun & Hcount & Hrows).
  - lia.
  - left. reflexivity.
  - exact validation_of_eight_samples.
  - simpl. lra.
  - simpl. tauto.
  - simpl. lra.
  - apply dft_abs_length.
  - simpl. lia.
  - simpl. destruct (Rle_dec 0 0); [|lra]. repeat split; lra.
  - exists m. split; [exact Hrun|]. split; [exact Hcount | exact Hrows].
Defined.

(** ** Shape and failure of [mfcc] *)

Lemma get_column_ok (t : list (list R)) (k : Z) :
  (0 <= k)%Z ->
  Forall (fun row => (k < Z.of_nat (length row))%Z) t ->
  exists col, get_column t k = Ok col /\ length col = length t.
Proof.
  intros Hk Hrows. unfold get_column.
  induction Hrows as [|row t Hrow _ IH]; cbn [mapM].
  - exists []. split; reflexivity.
  - destruct (nth_error row (Z.to_nat k)) as [x|] eqn:Hnth.
    + destruct IH as (col & -> & Hlen). cbn [bind].
      exists (x :: col). split; [reflexivity|]. simpl. lia.
    + apply nth_error_None in Hnth. lia.
Qed.

Lemma slice_to_length {X : Type} (l : list X) (k : Z) :
  (0 <= k <= Z.of_nat (length l))%Z -> Z.of_nat (length (slice_to l k)) = k.
Proof.
  intros Hk. unfold slice_to. destruct (Z.ltb_spec k 0); [lia|].
  rewrite length_firstn. lia.
Qed.

(** The cepstra before the HTK reordering: one row per frame and
    [num_ceps] columns. *)
Lemma mfcc_cepstra_shape (create_dct : Z -> Z -> list (list R)) (o : options)
      (feature : list (list R)) :
  (1 <= num_ceps o <= num_mel_bins o)%Z ->
  Z.of_nat (length (create_dct (num_mel_bins o) (num_mel_bins o))) = num_mel_bins o ->
  Forall (fun row => Z.of_nat (length row) = num_mel_bins o)
         (create_dct (num_mel_bins o) (num_mel_bins o)) ->
  Forall (fun row => Z.of_nat (length row)
                     = (num_mel_bins o + if use_energy o then 1 else 0)%Z) feature ->
  exists cepstra,
    mfcc_cepstra create_dct (Matrix feature) o = Ok cepstra
    /\ length cepstra = length feature
    /\ Forall (fun row => Z.of_nat (length row) = num_ceps o) cepstra.
Proof.
  intros Hceps Hdct_len Hdct_rows Hfeature. unfold mfcc_cepstra.
  set (c0 := sqrt (1 / IZR (num_mel_bins o))).
  set (dct := map (fun row => slice_to (c0 :: tl row) (num_ceps o))
                  (create_dct (num_mel_bins o) (num_mel_bins o))).
  assert (Hdct_ok : _get_dct_matrix create_dct (num_ceps o) (num_mel_bins o) = Ok dct).
  { apply get_dct_matrix_ok; [lia|].
    eapply Forall_impl; [|exact Hdct_rows]. cbv beta. intros row Hrow ->.
    simpl in Hrow. lia. }
  assert (Hdct_shape : Forall (fun row => Z.of_nat (length row) = num_ceps o) dct).
  { unfold dct. apply Forall_map. eapply Forall_impl; [|exact Hdct_rows]. cbv beta.
    intros row Hrow. apply slice_to_length.
    destruct row as [|x row]; [simpl in Hrow; lia|]. simpl in *. lia. }
  assert (Hdct_count : Z.of_nat (length dct) = num_mel_bins o)
    by (unfold dct; rewrite length_map; exact Hdct_len).
  assert (Hcols : Z.of_nat (length (hd [] dct)) = num_ceps o).
  { destruct dct as [|row rest]; [simpl in Hdct_count; lia|].
    inversion Hdct_shape; subst. assumption. }
  assert (Hproject :
            forall f, Forall (fun row => Z.of_nat (length row) = num_mel_bins o) f ->
                      exists out, matmul f dct = Ok out /\ length out = length f
                                  /\ Forall (fun row => Z.of_nat (length row) = num_ceps o)
                                            out).
  { intros f Hf. unfold matmul.
    replace (forallb _ f) with true.
    - eexists. split; [reflexivity|]. split; [apply length_map|].
      apply Forall_map. apply Forall_forall. intros ra _.
      rewrite length_map, length_seq. exact Hcols.
    - symmetry. apply forallb_forall. intros ra Hra. apply Nat.eqb_eq.
      rewrite Forall_forall in Hf. specialize (Hf ra Hra). lia. }
  assert (Hlift :
            forall f, Forall (fun row => Z.of_nat (length row) = num_ceps o) f ->
                      exists out,
                        (if Reqb (cepstral_lifter o) 0 then Ok f
                         else
                           lifter_coeffs <- _get_lifter_coeffs (num_ceps o)
                                                               (cepstral_lifter o) ;;
                           Ok (map (fun row => zip_with Rmult row lifter_coeffs) f))
                        = Ok out
                        /\ length out = length f
                        /\ Forall (fun row => Z.of_nat (length row) = num_ceps o) out).
  { intros f Hf. destruct (Reqb (cepstral_lifter o) 0).
    - exists f. repeat split; assumption.
    - unfold _get_lifter_coeffs. destruct (Z.ltb_spec (num_ceps o) 0); [lia|].
      cbn [bind]. eexists. split; [reflexivity|]. split; [apply length_map|].
      apply Forall_map. eapply Forall_impl; [|exact Hf]. cbv beta. intros row Hrow.
      rewrite zip_with_length, length_map, zrange_length. lia. }
  destruct (use_energy o) eqn:Henergy.
  - assert (Hk : (0 <= (if htk_compat o then num_mel_bins o else 0))%Z)
      by (destruct (htk_compat o); lia).
    destruct (get_column_ok feature (if htk_compat o then num_mel_bins o else 0%Z) Hk)
      as (e & He & He_len).
    { eapply Forall_impl; [|exact Hfeature]. cbv beta. intros row Hrow.
      destruct (htk_compat o); lia. }
    rewrite He. cbn [bind]. rewrite Hdct_ok. cbn [bind].
    destruct (Hproject (map (fun row => firstn (Z.to_nat (num_mel_bins o))
                                               (skipn (if htk_compat o then 0 else 1)%nat
                                                      row)) feature))
      as (projected & Hp & Hp_len & Hp_rows).
    { apply Forall_map. eapply Forall_impl; [|exact Hfeature]. cbv beta.
      intros row Hrow. rewrite length_firstn, length_skipn.
      destruct (htk_compat o); lia. }
    rewrite Hp. cbn [bind].
    destruct (Hlift projected Hp_rows) as (lifted & Hl & Hl_len & Hl_rows).
    rewrite Hl. cbn [bind]. rewrite set_column0_ok.
    + eexists. split; [reflexivity|]. split.
      * rewrite zip_with_length, Hl_len, Hp_len, length_map. lia.
      * eapply zip_with_Forall; [|exact Hl_rows]. cbv beta. intros row x Hrow.
        destruct row as [|y row]; [simpl in Hrow; lia|]. simpl in *. lia.
    + eapply Forall_impl; [|exact Hl_rows]. cbv beta. intros row Hrow ->.
      simpl in Hrow. lia.
  - cbn [bind]. rewrite Hdct_ok. cbn [bind].
    destruct (Hproject feature) as (projected & Hp & Hp_len & Hp_rows).
    { eapply Forall_impl; [|exact Hfeature]. cbv beta. intros row Hrow. lia. }
    rewrite Hp. cbn [bind].
    destruct (Hlift projected Hp_rows) as (lifted & Hl & Hl_len & Hl_rows).
    rewrite Hl. cbn [bind].
    exists lifted. split; [reflexivity|]. split; [lia | exact Hl_rows].
Qed.

Lemma mfcc_htk_reorder_shape (o : options) (cepstra : list (list R)) (n : Z) :
  (1 <= n)%Z ->
  Forall (fun row => Z.of_nat (length row) = n) cepstra ->
  exists out,
    mfcc_htk_reorder cepstra o = Ok out
    /\ length out = length cepstra
    /\ Forall (fun row => Z.of_nat (length row) = n) out.
Proof.
  intros Hn Hrows. unfold mfcc_htk_reorder.
  destruct (get_column_ok cepstra 0 ltac:(lia)) as (e & He & He_len).
  { eapply Forall_impl; [|exact Hrows]. cbv beta. intros row Hrow. lia. }
  rewrite He. cbn [bind]. eexists. split; [reflexivity|]. split.
  - rewrite zip_with_length, length_map.
    destruct (use_energy o); rewrite ?length_map; lia.
  - apply (zip_with_Forall (fun row => Z.of_nat (length row) = (n - 1)%Z)).
    + intros row x Hrow. rewrite length_app. simpl. lia.
    + apply Forall_map. eapply Forall_impl; [|exact Hrows]. cbv beta.
      intros row Hrow. rewrite length_skipn. lia.
Qed.

(** X12.  [mfcc] never returns the empty tensor: when [fbank] returns it
    (a signal shorter than [min_duration]), [mfcc] raises.  When [fbank]
    returns its matrix, at least one and at most [num_mel_bins] cepstra are
    asked for and the DCT basis is square of size [num_mel_bins], [mfcc]
    returns a matrix with the rows of [fbank] and [num_ceps] columns,
    whatever the lifter, [use_energy], [htk_compat] and [subtract_mean]
    are. *)
Theorem mfcc_shape (torch_rand : nat -> nat -> R) (rfft_abs : list R -> list R) (stride : Z)
        (create_dct : Z -> Z -> list (list R)) (waveform : list (list R)) (dt : dtype)
        (o : options) :
  (fbank torch_rand rfft_abs stride waveform dt (fbank_options_of_mfcc o) = Ok EmptyTensor ->
   exists e, mfcc torch_rand rfft_abs create_dct stride waveform dt o = Raise e)
  /\ (forall feature,
         fbank torch_rand rfft_abs stride waveform dt (fbank_options_of_mfcc o)
         = Ok (Matrix feature) ->
         (1 <= num_ceps o <= num_mel_bins o)%Z ->
         Z.of_nat (length (create_dct (num_mel_bins o) (num_mel_bins o)))
         = num_mel_bins o ->
         Forall (fun row => Z.of_nat (length row) = num_mel_bins o)
                (create_dct (num_mel_bins o) (num_mel_bins o)) ->
         exists m,
           mfcc torch_rand rfft_abs create_dct stride waveform dt o = Ok (Matrix m)
           /\ length m = length feature
           /\ Forall (fun row => Z.of_nat (length row) = num_ceps o) m).
Proof.
  split.
  - intros Hempty. unfold mfcc.
    destruct (num_ceps o <=? num_mel_bins o)%Z; cbn [assert bind];
      [|eexists; reflexivity].
    rewrite Hempty. cbn [bind]. unfold mfcc_cepstra.
    destruct (use_energy o); cbn [bind]; [eexists; reflexivity|].
    destruct (_get_dct_matrix create_dct (num_ceps o) (num_mel_bins o));
      cbn [bind]; eexists; reflexivity.
  - intros feature Hfbank Hceps Hdct_len Hdct_rows.
    destruct (fbank_matrix_shape _ _ _ _ _ _ _ Hfbank) as [_ Hshape].
    cbn [fbank_options_of_mfcc num_mel_bins use_energy] in Hshape.
    destruct (mfcc_cepstra_shape create_dct o feature Hceps Hdct_len Hdct_rows Hshape)
      as (cepstra & Hcep & Hcep_len & Hcep_rows).
    unfold mfcc. rewrite assert_true by (apply Z.leb_le; lia). cbn [bind].
    rewrite Hfbank. cbn [bind]. rewrite Hcep. cbn [bind].
    destruct (htk_compat o).
    + destruct (mfcc_htk_reorder_shape o cepstra (num_ceps o) ltac:(lia) Hcep_rows)
        as (out & Hout & Hout_len & Hout_rows).
      rewrite Hout. cbn [bind]. eexists. split; [reflexivity|]. split.
      * rewrite subtract_column_mean_length. lia.
      * apply subtract_column_mean_rows. exact Hout_rows.
    + cbn [bind]. eexists. split; [reflexivity|]. split.
      * rewrite subtract_column_mean_length. exact Hcep_len.
      * apply subtract_column_mean_rows. exact Hcep_rows.
Qed.

Lemma create_dct_ortho_square (n : Z) :
  (0 <= n)%Z ->
  Z.of_nat (length (create_dct_ortho n n)) = n
  /\ Forall (fun row => Z.of_nat (length row) = n) (create_dct_ortho n n).
Proof.
  intros Hn. unfold create_dct_ortho. split.
  - rewrite length_map, zrange_length. lia.
  - apply Forall_map. apply Forall_forall. intros k _.
    rewrite length_map, zrange_length. lia.
Qed.

Lemma mfcc_shape_witness :
  (exists feature m,
      fbank rand_half dft_abs 1 [[1; 2; 3; 4; 5; 6; 7; 8]] float32
            (fbank_options_of_mfcc (with_framing defaults 1000 4 2 0))
      = Ok (Matrix feature)
      /\ mfcc rand_half dft_abs create_dct_ortho 1 [[1; 2; 3; 4; 5; 6; 7; 8]] float32
              (with_framing defaults 1000 4 2 0)
         = Ok (Matrix m)
      /\ length m = length feature
      /\ Forall (fun row => Z.of_nat (length row) = 13%Z) m)
  /\ (exists e,
         mfcc rand_half dft_abs create_dct_ortho 1 [[1; 2; 3; 4]] float32
              (with_framing defaults 1000 4 2 1)
         = Raise e).
Proof.
  split.
  - set (o := with_framing defaults 1000 4 2 0).
    assert (Hval : _get_waveform_and_window_properties
                     [[1; 2; 3; 4; 5; 6; 7; 8]]
                     (channel (fbank_options_of_mfcc o))
                     (sample_frequency (fbank_options_of_mfcc o))
                     (frame_shift (fbank_options_of_mfcc o))
                     (frame_length (fbank_options_of_mfcc o))
                     (round_to_power_of_two (fbank_options_of_mfcc o))
                     (preemphasis_coefficient (fbank_options_of_mfcc o))
                   = Ok ([1; 2; 3; 4; 5; 6; 7; 8], 2%Z, 4%Z, 4%Z)).
    { apply window_properties_1000_4_2; [simpl; lia | simpl; lia | simpl; lra]. }
    destruct (fbank_defined rand_half dft_abs 1 [[1; 2; 3; 4; 5; 6; 7; 8]] float32
                            (fbank_options_of_mfcc o) [1; 2; 3; 4; 5; 6; 7; 8] 2 4 4)
      as [feature Hfeature].
    + lia.
    + left. reflexivity.
    + exact Hval.
    + simpl. lra.
    + simpl. tauto.
    + simpl. lra.
    + apply dft_abs_length.
    + simpl. lia.
    + simpl. destruct (Rle_dec 0 0); [|lra]. repeat split; lra.
    + destruct (create_dct_ortho_square 23 ltac:(lia)) as [Hlen Hrows].
      destruct (proj2 (mfcc_shape rand_half dft_abs 1 create_dct_ortho
                                  [[1; 2; 3; 4; 5; 6; 7; 8]] float32 o)
                      feature Hfeature)
        as (m & Hrun & Hm_len & Hm_rows).
      * simpl. lia.
      * exact Hlen.
      * exact Hrows.
      * exists feature, m. repeat split; assumption.
  - apply (proj1 (mfcc_shape rand_half dft_abs 1 create_dct_ortho [[1; 2; 3; 4]] float32
                             (with_framing defaults 1000 4 2 1))).
    unfold fbank.
    cbn [fbank_options_of_mfcc with_framing defaults channel sample_frequency
         frame_shift frame_length round_to_power_of_two preemphasis_coefficient
         min_duration].
    rewrite window_properties_1000_4_2 by (try lia; try lra; simpl; lia).
    cbn [bind]. rewrite Rltb_true by (simpl; lra). reflexivity.
Defined.

(** ** More on the mel filterbank *)


Lemma map_zrange_nth (g : Z -> R) (n : Z) (i : nat) (d : R) :
  (Z.of_nat i < n)%Z -> nth i (map g (zrange 0 n)) d = g (Z.of_nat i).
Proof.
  intros Hi.
  rewrite (nth_indep _ d (g 0%Z)) by (rewrite length_map, zrange_length; lia).
  rewrite map_nth, zrange_nth by lia. reflexivity.
Qed.








(** ** Odd windows *)

(** X16.  A call that passes every other check of the validation and has
    a window of an odd number of samples is refused with an assertion error
    when [round_to_power_of_two] is off, and accepted, with the window
    padded to the next power of two, when it is on. *)
Theorem odd_window_needs_rounding (waveform : list (list R)) (channel : Z)
        (sample_frequency frame_shift frame_length preemphasis_coefficient : R) :
  let row := nth (Z.to_nat (Z.max channel 0)) waveform [] in
  let window_shift :=
    int_of_float (sample_frequency * frame_shift * MILLISECONDS_TO_SECONDS) in
  let window_size :=
    int_of_float (sample_frequency * frame_length * MILLISECONDS_TO_SECONDS) in
  (Z.max channel 0 < Z.of_nat (length waveform))%Z ->
  (2 <= window_size <= Z.of_nat (length row))%Z ->
  (0 < window_shift)%Z ->
  0 <= preemphasis_coefficient <= 1 ->
  0 < sample_frequency ->
  (window_size mod 2 = 1)%Z ->
  is_assertion_error
    (_get_waveform_and_window_properties waveform channel sample_frequency frame_shift
       frame_length false preemphasis_coefficient) = true
  /\ _get_waveform_and_window_properties waveform channel sample_frequency frame_shift
       frame_length true preemphasis_coefficient
     = Ok (row, window_shift, window_size, _next_power_of_2 window_size)
  /\ (window_size < _next_power_of_2 window_size)%Z.
Proof.
  intros row window_shift window_size Hch Hsize Hshift Hpre Hsf Hodd.
  assert (Hpow : (_next_power_of_2 window_size
                  = 2 * 2 ^ Z.log2 (window_size - 1))%Z).
  { unfold _next_power_of_2, bit_length.
    destruct (Z.eqb_spec window_size 0); [lia|].
    destruct (Z.eqb_spec (window_size - 1) 0); [lia|].
    rewrite Z.abs_eq by lia.
    pose proof (Z.log2_nonneg (window_size - 1)).
    rewrite Z.pow_add_r by lia. change (2 ^ 1)%Z with 2%Z. lia. }
  split; [|split].
  - unfold _get_waveform_and_window_properties.
    rewrite assert_true by (apply Z.ltb_lt; exact Hch). cbn [bind].
    fold row window_shift window_size.
    rewrite assert_true
      by (apply andb_true_intro; split; apply Z.leb_le; lia).
    cbn [bind].
    rewrite assert_true by (apply Z.ltb_lt; exact Hshift). cbn [bind].
    rewrite Hodd. reflexivity.
  - apply window_properties_ok; try assumption.
    change (_next_power_of_2 window_size mod 2 = 0)%Z.
    rewrite Hpow. rewrite Z.mul_comm. apply Z.mod_mul. lia.
  - rewrite Hpow.
    pose proof (Z.log2_spec (window_size - 1) ltac:(lia)) as [_ Hup].
    rewrite Z.pow_succ_r in Hup by (apply Z.log2_nonneg).
    assert (Hne : window_size <> (2 * 2 ^ Z.log2 (window_size - 1))%Z).
    { intros Heq. rewrite Heq in Hodd.
      rewrite Z.mul_comm, Z.mod_mul in Hodd by lia. discriminate. }
    lia.
Qed.

Lemma odd_window_needs_rounding_witness :
  is_assertion_error
    (_get_waveform_and_window_properties [[1; 2; 3; 4; 5; 6; 7; 8]] (-1) 1000 2 3
       false (97 / 100)) = true
  /\ _get_waveform_and_window_properties [[1; 2; 3; 4; 5; 6; 7; 8]] (-1) 1000 2 3
       true (97 / 100)
     = Ok ([1; 2; 3; 4; 5; 6; 7; 8], 2%Z, 3%Z, 4%Z).
Proof.
  assert (Hshift : int_of_float (1000 * 2 * MILLISECONDS_TO_SECONDS) = 2%Z)
    by (apply int_of_float_IZR; unfold MILLISECONDS_TO_SECONDS; field).
  assert (Hsize : int_of_float (1000 * 3 * MILLISECONDS_TO_SECONDS) = 3%Z)
    by (apply int_of_float_IZR; unfold MILLISECONDS_TO_SECONDS; field).
  destruct (odd_window_needs_rounding [[1; 2; 3; 4; 5; 6; 7; 8]] (-1) 1000 2 3
              (97 / 100)) as (Hoff & Hon & _).
  - simpl. lia.
  - rewrite Hsize. simpl. lia.
  - rewrite Hshift. lia.
  - lra.
  - lra.
  - rewrite Hsize. reflexivity.
  - split; [exact Hoff|]. rewrite Hon, Hshift, Hsize. reflexivity.
Defined.

(** ** The warp of the frequency axis *)

(** X17.  A warp factor of 1 makes the VTLN warp the identity: when the
    two cutoffs lie inside the band, [vtln_warp_freq] returns the
    frequencies it was given and [vtln_warp_mel_freq] the mel values it was
    given. *)
Theorem vtln_warp_of_factor_one (vtln_low_cutoff vtln_high_cutoff low_freq high_freq : R)
        (freq : list R) :
  low_freq < vtln_low_cutoff -> vtln_high_cutoff < high_freq ->
  vtln_warp_freq vtln_low_cutoff vtln_high_cutoff low_freq high_freq 1 freq = Ok freq
  /\ vtln_warp_mel_freq vtln_low_cutoff vtln_high_cutoff low_freq high_freq 1 freq
     = Ok freq.
Proof.
  intros Hlow Hhigh.
  assert (Hmax : Rmax 1 1 = 1) by (apply Rmax_left; lra).
  assert (Hmin : Rmin 1 1 = 1) by (apply Rmin_left; lra).
  assert (Hid : forall fs,
             vtln_warp_freq vtln_low_cutoff vtln_high_cutoff low_freq high_freq 1 fs
             = Ok fs).
  { intros fs. rewrite vtln_warp_freq_defined; try lra; try (rewrite ?Hmax, ?Hmin; lra).
    rewrite Hmax, Hmin. f_equal.
    rewrite <- (map_id fs) at 2. apply map_ext. intros f.
    unfold vtln_warp_assignments, Rltb, Rleb.
    decide_reals; simpl; try lra; try (field; lra). }
  split; [apply Hid|].
  unfold vtln_warp_mel_freq. rewrite Hid. cbn [bind]. f_equal.
  unfold mel_scale, inverse_mel_scale. rewrite map_map.
  rewrite <- (map_id freq) at 2. apply map_ext. intros m. apply mel_of_inverse.
Qed.

Lemma vtln_warp_of_factor_one_witness :
  vtln_warp_freq 100 7500 20 8000 1 [10; 50; 1000; 7800; 9000]
  = Ok [10; 50; 1000; 7800; 9000]
  /\ vtln_warp_mel_freq 100 7500 20 8000 1 [10; 50; 1000; 7800; 9000]
     = Ok [10; 50; 1000; 7800; 9000].
Proof.
  apply (vtln_warp_of_factor_one 100 7500 20 8000 [10; 50; 1000; 7800; 9000]); lra.
Defined.

(** With the inflection points in order and their images inside the band,
    the three pieces of the warp rise, so the warp keeps the order of the
    frequencies. *)
Lemma vtln_warp_assignments_increasing (low_freq high_freq l h warp : R) :
  low_freq < l -> l <= h -> h < high_freq -> 0 < warp ->
  low_freq < l / warp -> h / warp < high_freq ->
  let scale := 1 / warp in
  let F := vtln_warp_assignments low_freq high_freq l h scale
             ((scale * l - low_freq) / (l - low_freq))
             ((high_freq - scale * h) / (high_freq - h)) in
  forall f1 f2, f1 < f2 -> F f1 < F f2.
Proof.
  intros Hl Hlh Hh Hw Hlw Hhw scale F.
  destruct (vtln_warp_assignments_ordered low_freq high_freq l h warp Hl Hlh Hh
              ltac:(lra))
    as (_ & _ & Hmid & Hout & Hleft & Hright & Hjl & Hjh).
  fold scale in Hmid, Hout, Hleft, Hright. fold F in Hmid, Hout, Hleft, Hright.
  set (a := (l / warp - low_freq) / (l - low_freq)) in *.
  set (b := (high_freq - h / warp) / (high_freq - h)) in *.
  set (u := / warp).
  assert (Hu : 0 < u) by (apply Rinv_0_lt_compat; exact Hw).
  assert (Ha : 0 < a) by (unfold a; apply Rdiv_lt_0_compat; lra).
  assert (Hb : 0 < b) by (unfold b; apply Rdiv_lt_0_compat; lra).
  assert (Hdiv : forall f, f / warp = u * f) by (intros f; unfold u, Rdiv; ring).
  rewrite !Hdiv in Hjl, Hjh.
  assert (Hval : forall f,
             (f < low_freq /\ F f = f)
             \/ (low_freq <= f < l /\ F f = low_freq + a * (f - low_freq))
             \/ (l <= f <= h /\ F f = u * f)
             \/ (h < f <= high_freq /\ F f = high_freq + b * (f - high_freq))
             \/ (high_freq < f /\ F f = f)).
  { intros f.
    destruct (Rlt_dec f low_freq) as [H1|H1]; [left; split; [lra|apply Hout; lra]|].
    destruct (Rlt_dec f l) as [H2|H2];
      [right; left; split; [lra|apply Hleft; lra]|].
    destruct (Rle_dec f h) as [H3|H3];
      [right; right; left; split; [lra|rewrite <- Hdiv; apply Hmid; lra]|].
    destruct (Rle_dec f high_freq) as [H4|H4];
      [right; right; right; left; split; [lra|apply Hright; lra]|].
    right; right; right; right. split; [lra|apply Hout; lra]. }
  intros f1 f2 Hlt.
  pose proof (Rmult_lt_0_compat a (f2 - f1) Ha ltac:(lra)) as Pa.
  pose proof (Rmult_lt_0_compat u (f2 - f1) Hu ltac:(lra)) as Pu.
  pose proof (Rmult_lt_0_compat b (f2 - f1) Hb ltac:(lra)) as Pb.
  destruct (Hval f1) as [[R1 ->]|[[R1 ->]|[[R1 ->]|[[R1 ->]|[R1 ->]]]]];
    destruct (Hval f2) as [[R2 ->]|[[R2 ->]|[[R2 ->]|[[R2 ->]|[R2 ->]]]]];
    try lra;
    try (pose proof (Rmult_le_pos a (f1 - low_freq) ltac:(lra) ltac:(lra)));
    try (pose proof (Rmult_le_pos a (f2 - low_freq) ltac:(lra) ltac:(lra)));
    try (pose proof (Rmult_lt_0_compat a (l - f1) Ha ltac:(lra)));
    try (pose proof (Rmult_lt_0_compat a (l - f2) Ha ltac:(lra)));
    try (pose proof (Rmult_le_pos u (f1 - l) ltac:(lra) ltac:(lra)));
    try (pose proof (Rmult_le_pos u (f2 - l) ltac:(lra) ltac:(lra)));
    try (pose proof (Rmult_le_pos u (h - f1) ltac:(lra) ltac:(lra)));
    try (pose proof (Rmult_le_pos u (h - f2) ltac:(lra) ltac:(lra)));
    try (pose proof (Rmult_lt_0_compat b (f1 - h) Hb ltac:(lra)));
    try (pose proof (Rmult_lt_0_compat b (f2 - h) Hb ltac:(lra)));
    try (pose proof (Rmult_le_pos b (high_freq - f1) ltac:(lra) ltac:(lra)));
    try (pose proof (Rmult_le_pos b (high_freq - f2) ltac:(lra) ltac:(lra)));
    nra.
Qed.

(** X18.  For a band that starts at a non-negative frequency, cutoffs
    inside it and a positive warp factor whose inflection points
    [l = vtln_low_cutoff * max(1, warp)] and
    [h = vtln_high_cutoff * min(1, warp)] are in order, [vtln_warp_freq]
    applies one function [F] to every frequency; [F] fixes [low_freq] and
    [high_freq], is [f / warp] between the inflection points, the identity
    outside the band, and strictly increasing everywhere, so no two
    frequencies are ever warped onto each other. *)
Theorem vtln_warp_freq_increasing (vtln_low_cutoff vtln_high_cutoff low_freq high_freq
                                   vtln_warp_factor : R) :
  0 <= low_freq -> low_freq < vtln_low_cutoff -> vtln_high_cutoff < high_freq ->
  0 < vtln_warp_factor ->
  let l := vtln_low_cutoff * Rmax 1 vtln_warp_factor in
  let h := vtln_high_cutoff * Rmin 1 vtln_warp_factor in
  l <= h ->
  exists F : R -> R,
    (forall freq,
        vtln_warp_freq vtln_low_cutoff vtln_high_cutoff low_freq high_freq
                       vtln_warp_factor freq
        = Ok (map F freq))
    /\ F low_freq = low_freq
    /\ F high_freq = high_freq
    /\ (forall f, l <= f <= h -> F f = f / vtln_warp_factor)
    /\ (forall f, f < low_freq \/ high_freq < f -> F f = f)
    /\ (forall f1 f2, f1 < f2 -> F f1 < F f2).
Proof.
  intros Hlow Hvl Hvh Hw l h Hlh.
  assert (Hmax : 1 <= Rmax 1 vtln_warp_factor) by apply Rmax_l.
  assert (Hmax' : vtln_warp_factor <= Rmax 1 vtln_warp_factor) by apply Rmax_r.
  assert (Hmin : Rmin 1 vtln_warp_factor <= 1) by apply Rmin_l.
  assert (Hmin' : Rmin 1 vtln_warp_factor <= vtln_warp_factor) by apply Rmin_r.
  assert (Hminpos : 0 < Rmin 1 vtln_warp_factor) by (apply Rmin_glb_lt; lra).
  assert (Hl : low_freq < l) by (unfold l; nra).
  assert (Hh : h < high_freq).
  { assert (0 < vtln_high_cutoff) by (unfold l, h in Hlh; nra). unfold h. nra. }
  assert (Hinv : 0 < / vtln_warp_factor) by (apply Rinv_0_lt_compat; exact Hw).
  assert (Hlw : low_freq < l / vtln_warp_factor).
  { unfold l, Rdiv.
    assert (Hge : 1 <= Rmax 1 vtln_warp_factor * / vtln_warp_factor).
    { apply (Rmult_le_reg_r vtln_warp_factor); [exact Hw|].
      rewrite Rmult_assoc, Rinv_l by lra. lra. }
    rewrite Rmult_assoc. nra. }
  assert (Hhw : h / vtln_warp_factor < high_freq).
  { assert (Hvpos : 0 < vtln_high_cutoff) by (unfold l, h in Hlh; nra).
    unfold h, Rdiv.
    assert (Hle : Rmin 1 vtln_warp_factor * / vtln_warp_factor <= 1).
    { apply (Rmult_le_reg_r vtln_warp_factor); [exact Hw|].
      rewrite Rmult_assoc, Rinv_l by lra. lra. }
    assert (0 < Rmin 1 vtln_warp_factor * / vtln_warp_factor)
      by (apply Rmult_lt_0_compat; assumption).
    rewrite Rmult_assoc. nra. }
  destruct (vtln_warp_assignments_ordered low_freq high_freq l h vtln_warp_factor
              Hl Hlh Hh ltac:(lra))
    as (Hflow & Hfhigh & Hmid & Hout & _).
  eexists. split; [|split; [exact Hflow|split; [exact Hfhigh|split; [exact Hmid|
                   split; [exact Hout|]]]]].
  - intros freq. apply vtln_warp_freq_defined; try lra; assumption.
  - apply vtln_warp_assignments_increasing; assumption.
Qed.

Lemma vtln_warp_freq_increasing_witness :
  exists F : R -> R,
    (forall freq, vtln_warp_freq 100 7500 20 8000 (11 / 10) freq = Ok (map F freq))
    /\ F 20 = 20
    /\ F 8000 = 8000
    /\ (forall f1 f2, f1 < f2 -> F f1 < F f2).
Proof.
  destruct (vtln_warp_freq_increasing 100 7500 20 8000 (11 / 10))
    as (F & Hrun & Hlow & Hhigh & _ & _ & Hinc).
  - lra.
  - lra.
  - lra.
  - lra.
  - rewrite Rmax_right by lra. rewrite Rmin_left by lra. lra.
  - exists F. split; [exact Hrun|]. split; [exact Hlow|]. split; [exact Hhigh|].
    exact Hinc.
Defined.

(** ** Liftering coefficients *)

(** X19.  For a non-zero [cepstral_lifter] [L], [_get_lifter_coeffs]
    returns [num_ceps] coefficients [1 + L / 2 * sin(pi * i / L)]; the
    first one is 1, so C0 is never scaled, every coefficient lies within
    [|L| / 2] of 1, and for a positive [L] the coefficients of the indices
    up to [L] are at least 1. *)
Theorem lifter_coeffs_bounds (num_ceps : Z) (cepstral_lifter : R) :
  (0 <= num_ceps)%Z -> cepstral_lifter <> 0 ->
  exists coeffs,
    _get_lifter_coeffs num_ceps cepstral_lifter = Ok coeffs
    /\ Z.of_nat (length coeffs) = num_ceps
    /\ (forall i, (Z.of_nat i < num_ceps)%Z ->
          nth i coeffs 0
          = 1 + cepstral_lifter / 2 * sin (PI * INR i / cepstral_lifter))
    /\ ((0 < num_ceps)%Z -> nth 0 coeffs 0 = 1)
    /\ Forall (fun c => 1 - Rabs cepstral_lifter / 2 <= c
                        <= 1 + Rabs cepstral_lifter / 2) coeffs
    /\ (0 < cepstral_lifter ->
        forall i, (Z.of_nat i < num_ceps)%Z -> INR i <= cepstral_lifter ->
                  1 <= nth i coeffs 0).
Proof.
  intros Hn Hl. unfold _get_lifter_coeffs.
  destruct (Z.ltb_spec num_ceps 0) as [Hneg|_]; [lia|].
  eexists. split; [reflexivity|].
  assert (Hnth : forall i, (Z.of_nat i < num_ceps)%Z ->
            nth i (map (fun i0 => 1 + 1 / 2 * cepstral_lifter
                                      * sin (PI * IZR i0 / cepstral_lifter))
                       (zrange 0 num_ceps)) 0
            = 1 + cepstral_lifter / 2 * sin (PI * INR i / cepstral_lifter)).
  { intros i Hi. rewrite map_zrange_nth by exact Hi. rewrite <- INR_IZR_INZ. field. }
  split; [rewrite length_map, zrange_length; lia|].
  split; [exact Hnth|].
  split.
  { intros Hpos. rewrite (Hnth 0%nat) by (simpl; lia). simpl INR.
    replace (PI * 0 / cepstral_lifter) with 0 by (field; exact Hl).
    rewrite sin_0. ring. }
  split.
  { apply Forall_map. apply Forall_forall. intros i _.
    pose proof (SIN_bound (PI * IZR i / cepstral_lifter)) as [Hs1 Hs2].
    unfold Rabs. destruct (Rcase_abs cepstral_lifter) as [Hc|Hc]; split; nra. }
  intros Hpos i Hi Hle. rewrite Hnth by exact Hi.
  assert (Hsin : 0 <= sin (PI * INR i / cepstral_lifter)).
  { pose proof PI_RGT_0 as Hpi. pose proof (pos_INR i) as Hi0.
    assert (Hq : 0 <= INR i / cepstral_lifter <= 1).
    { split.
      - apply Rmult_le_pos; [exact Hi0|]. apply Rlt_le, Rinv_0_lt_compat. exact Hpos.
      - apply (Rmult_le_reg_r cepstral_lifter); [exact Hpos|].
        unfold Rdiv. rewrite Rmult_assoc, Rinv_l by lra. lra. }
    replace (PI * INR i / cepstral_lifter) with (PI * (INR i / cepstral_lifter))
      by (field; exact Hl).
    apply sin_ge_0; nra. }
  nra.
Qed.

Lemma lifter_coeffs_bounds_witness :
  exists coeffs,
    _get_lifter_coeffs 13 22 = Ok coeffs
    /\ Z.of_nat (length coeffs) = 13%Z
    /\ nth 0 coeffs 0 = 1
    /\ 1 <= nth 11 coeffs 0.
Proof.
  destruct (lifter_coeffs_bounds 13 22) as (coeffs & Hrun & Hlen & _ & Hc0 & _ & Hge).
  - lia.
  - lra.
  - exists coeffs. split; [exact Hrun|]. split; [exact Hlen|].
    split; [apply Hc0; lia|].
    apply Hge; [lra | simpl; lia | simpl; lra].
Defined.

(** ** The resampler at any pair of rates *)

(** A tap whose time offset, in periods of the cutoff frequency, is at
    least [lowpass_filter_width] away from 0 is clamped onto the edge of
    the Hann window, where the window is zero. *)
Lemma sinc_resample_tap_outside (orig_freq new_freq lowpass_filter_width : Z)
      (base_freq : R) (i idx : Z) :
  (0 < lowpass_filter_width)%Z ->
  IZR lowpass_filter_width
  <= Rabs ((- IZR i / IZR new_freq + IZR idx / IZR orig_freq) * base_freq) ->
  sinc_resample_tap orig_freq new_freq lowpass_filter_width base_freq i idx = 0.
Proof.
  intros Hl Hout. unfold sinc_resample_tap, clamp.
  assert (Hpos : 0 < IZR lowpass_filter_width) by (apply IZR_lt; exact Hl).
  set (t := (- IZR i / IZR new_freq + IZR idx / IZR orig_freq) * base_freq) in *.
  set (w := IZR lowpass_filter_width) in *.
  assert (Hedge : Rmin (Rmax t (- w)) w = w \/ Rmin (Rmax t (- w)) w = - w).
  { unfold Rabs in Hout. destruct (Rcase_abs t) as [Hneg|Hnn].
    - right. rewrite Rmax_right by lra. apply Rmin_left. lra.
    - left. rewrite Rmax_left by lra. apply Rmin_right. lra. }
  assert (Hwin : cos (Rmin (Rmax t (- w)) w * PI / w / 2) = 0).
  { destruct Hedge as [-> | ->].
    - replace (w * PI / w / 2) with (PI / 2) by (field; lra). apply cos_PI2.
    - replace (- w * PI / w / 2) with (- (PI / 2)) by (field; lra).
      rewrite cos_neg. apply cos_PI2. }
  rewrite Hwin. ring.
Qed.

(** The kernels for rates of at least 1: one kernel per output phase, each
    over the positions [-width .. width + orig_freq - 1], where [width] is
    the ceiling of the float quotient. *)
Lemma get_sinc_resample_kernel_ok (rnd : rounding)
      (orig_freq new_freq lowpass_filter_width : Z) :
  (1 <= orig_freq)%Z -> (1 <= new_freq)%Z -> (0 < lowpass_filter_width)%Z ->
  let base_freq := rnd (rnd (IZR (Z.min orig_freq new_freq)) * rnd (99 / 100)) in
  let width := Zceil (rnd (rnd (IZR (lowpass_filter_width * orig_freq)) / base_freq)) in
  _get_sinc_resample_kernel rnd orig_freq new_freq lowpass_filter_width
  = Ok (map (fun i =>
               map (fun idx =>
                      sinc_resample_tap orig_freq new_freq lowpass_filter_width
                                        base_freq i idx
                      * (base_freq / IZR orig_freq))
                   (zrange (- width) (width + orig_freq)))
            (zrange 0 new_freq),
        width)
  /\ (0 <= width)%Z
  /\ ((lowpass_filter_width * orig_freq <= 9007199254740992)%Z ->
      (lowpass_filter_width <= width)%Z).
Proof.
  intros Ho Hn Hl base_freq width.
  pose proof (float_099_bounds rnd) as Hc.
  pose proof (base_freq_positive rnd orig_freq new_freq Ho Hn) as Hbase.
  fold base_freq in Hbase.
  assert (Hpos : 0 < base_freq) by lra.
  split; [|split].
  - unfold _get_sinc_resample_kernel.
    rewrite assert_true by (apply Z.ltb_lt; exact Hl). cbn [bind].
    fold base_freq. unfold float_div.
    destruct (Req_dec_T base_freq 0) as [Hz|_]; [lra|]. cbn [bind]. fold width.
    remember (map (fun i => map (sinc_resample_tap orig_freq new_freq
                                   lowpass_filter_width base_freq i)
                                (zrange (- width) (width + orig_freq)))
                  (zrange 0 new_freq)) as kernels eqn:Hk.
    assert (Hlen : length kernels = Z.to_nat new_freq).
    { rewrite Hk, length_map, zrange_length. f_equal. lia. }
    destruct kernels as [|k ks]; [simpl in Hlen; lia|]. cbn [bind].
    rewrite Hk, map_map. do 2 f_equal. apply map_ext. intros i. apply map_map.
  - set (x := rnd (rnd (IZR (lowpass_filter_width * orig_freq)) / base_freq)).
    assert (Hx : 0 <= x).
    { unfold x. apply round_nonneg. apply Rmult_le_pos.
      - apply round_nonneg. apply IZR_le. lia.
      - apply Rlt_le, Rinv_0_lt_compat. exact Hpos. }
    pose proof (Zceil_bound x) as [_ Hceil]. fold x in width.
    apply le_IZR. unfold width. lra.
  - intros Hsmall.
    assert (Hprod : rnd (IZR (lowpass_filter_width * orig_freq))
                    = IZR (lowpass_filter_width * orig_freq))
      by (apply round_integer; lia).
    assert (Hmin : rnd (IZR (Z.min orig_freq new_freq))
                   = IZR (Z.min orig_freq new_freq))
      by (apply round_integer; nia).
    assert (Hmin1 : 1 <= IZR (Z.min orig_freq new_freq)) by (apply IZR_le; lia).
    assert (Hmino : IZR (Z.min orig_freq new_freq) <= IZR orig_freq)
      by (apply IZR_le; lia).
    assert (Hle : base_freq <= IZR orig_freq).
    { apply Rle_trans with (IZR (Z.min orig_freq new_freq)); [|exact Hmino].
      unfold base_freq. rewrite Hmin. rewrite <- Hmin at 2.
      apply round_monotone. nra. }
    assert (Hlpw : 0 < IZR lowpass_filter_width) by (apply IZR_lt; exact Hl).
    assert (Hq : IZR lowpass_filter_width
                 <= rnd (IZR (lowpass_filter_width * orig_freq)) / base_freq).
    { rewrite Hprod, mult_IZR.
      apply (Rmult_le_reg_r base_freq); [exact Hpos|].
      unfold Rdiv. rewrite Rmult_assoc, Rinv_l by lra. nra. }
    assert (Hr : IZR lowpass_filter_width
                 <= rnd (rnd (IZR (lowpass_filter_width * orig_freq)) / base_freq)).
    { rewrite <- (round_integer rnd lowpass_filter_width) at 1 by nia.
      apply round_monotone. exact Hq. }
    pose proof (Zceil_bound
                  (rnd (rnd (IZR (lowpass_filter_width * orig_freq)) / base_freq)))
      as [_ Hceil].
    apply le_IZR. unfold width. lra.
Qed.

(** X20.  For reduced rates of at least 1 and a positive
    [lowpass_filter_width], [_get_sinc_resample_kernel] returns [new_freq]
    kernels of [2 * width + orig_freq] taps each, where [width] is the
    ceiling of the float quotient of [lowpass_filter_width * orig_freq] and
    [base_freq], the float product of [min(orig_freq, new_freq)] and the
    float 0.99.  The width is never negative, and it is at least
    [lowpass_filter_width] when [lowpass_filter_width * orig_freq] is at
    most 2^53.  A tap whose time offset
    [(-i / new_freq + idx / orig_freq) * base_freq] is
    [lowpass_filter_width] or more away from 0 is zero, so the filter never
    reaches further than that many zero crossings. *)
Theorem sinc_resample_kernel_shape (rnd : rounding)
        (orig_freq new_freq lowpass_filter_width : Z) :
  (1 <= orig_freq)%Z -> (1 <= new_freq)%Z -> (0 < lowpass_filter_width)%Z ->
  let base_freq := rnd (rnd (IZR (Z.min orig_freq new_freq)) * rnd (99 / 100)) in
  exists kernels width,
    _get_sinc_resample_kernel rnd orig_freq new_freq lowpass_filter_width
    = Ok (kernels, width)
    /\ width = Zceil (rnd (rnd (IZR (lowpass_filter_width * orig_freq)) / base_freq))
    /\ (0 <= width)%Z
    /\ ((lowpass_filter_width * orig_freq <= 9007199254740992)%Z ->
        (lowpass_filter_width <= width)%Z)
    /\ Z.of_nat (length kernels) = new_freq
    /\ Forall (fun kernel => Z.of_nat (length kernel) = (2 * width + orig_freq)%Z)
              kernels
    /\ (forall i j : nat,
           (Z.of_nat i < new_freq)%Z -> (Z.of_nat j < 2 * width + orig_freq)%Z ->
           IZR lowpass_filter_width
           <= Rabs ((- INR i / IZR new_freq + (INR j - IZR width) / IZR orig_freq)
                    * base_freq) ->
           nth j (nth i kernels []) 0 = 0).
Proof.
  intros Ho Hn Hl base_freq.
  destruct (get_sinc_resample_kernel_ok rnd orig_freq new_freq lowpass_filter_width
              Ho Hn Hl) as (Hrun & Hw0 & Hw).
  fold base_freq in Hrun, Hw0, Hw.
  set (width := Zceil (rnd (rnd (IZR (lowpass_filter_width * orig_freq)) / base_freq)))
    in *.
  eexists. exists width. split; [exact Hrun|]. split; [reflexivity|].
  split; [exact Hw0|]. split; [exact Hw|].
  split; [rewrite length_map, zrange_length; lia|].
  split.
  { apply Forall_map. apply Forall_forall. intros i _.
    rewrite length_map, zrange_length. lia. }
  intros i j Hi Hj Hout.
  set (g := fun i0 => map _ (zrange (- width) (width + orig_freq))).
  rewrite (nth_indep _ [] (g 0%Z)) by (rewrite length_map, zrange_length; lia).
  rewrite map_nth, zrange_nth by lia. unfold g.
  set (tap := fun idx =>
                sinc_resample_tap orig_freq new_freq lowpass_filter_width base_freq
                                  (0 + Z.of_nat i) idx
                * (base_freq / IZR orig_freq)).
  rewrite (nth_indep _ 0 (tap 0%Z)) by (rewrite length_map, zrange_length; lia).
  rewrite map_nth, zrange_nth by lia. unfold tap.
  rewrite sinc_resample_tap_outside; [ring | exact Hl |].
  replace (IZR (0 + Z.of_nat i)) with (INR i)
    by (rewrite Z.add_0_l; apply INR_IZR_INZ).
  replace (IZR (- width + Z.of_nat j)) with (INR j - IZR width).
  2:{ rewrite plus_IZR, opp_IZR, <- INR_IZR_INZ. ring. }
  exact Hout.
Qed.

Lemma sinc_resample_kernel_shape_witness :
  exists kernels width,
    _get_sinc_resample_kernel exact_arithmetic 2 1 6 = Ok (kernels, width)
    /\ (6 <= width)%Z
    /\ Z.of_nat (length kernels) = 1%Z
    /\ Forall (fun kernel => Z.of_nat (length kernel) = (2 * width + 2)%Z) kernels.
Proof.
  destruct (sinc_resample_kernel_shape exact_arithmetic 2 1 6)
    as (kernels & width & Hrun & _ & _ & Hw & Hlen & Htaps & _).
  - lia.
  - lia.
  - lia.
  - exists kernels, width. split; [exact Hrun|]. split; [apply Hw; lia|].
    split; [exact Hlen | exact Htaps].
Defined.

Lemma flat_map_const_length {X Y : Type} (f : X -> list Y) (l : list X) (c : nat) :
  (forall x, length (f x) = c) -> length (flat_map f l) = (length l * c)%nat.
Proof.
  intros Hf. induction l as [|x l IH]; [reflexivity|].
  cbn [flat_map length]. rewrite length_app, Hf, IH. lia.
Qed.

Lemma interleave_length (phases : list (list R)) :
  length (interleave phases) = (length (hd [] phases) * length phases)%nat.
Proof.
  unfold interleave.
  rewrite (flat_map_const_length _ _ (length phases))
    by (intros p; apply length_map).
  rewrite length_seq. reflexivity.
Qed.

(** [ceil(p / q)] on integers. *)
Lemma Zceil_div (p q : Z) :
  (0 < q)%Z -> Zceil (IZR p / IZR q) = ((p + q - 1) / q)%Z.
Proof.
  intros Hq. apply Zceil_eq.
  set (z := ((p + q - 1) / q)%Z).
  pose proof (Z.div_mod (p + q - 1) q ltac:(lia)) as Hdm.
  pose proof (Z.mod_pos_bound (p + q - 1) q Hq) as Hmod.
  fold z in Hdm.
  assert (H1 : (q * (z - 1) < p)%Z) by lia.
  assert (H2 : (p <= q * z)%Z) by lia.
  apply IZR_lt in H1. apply IZR_le in H2.
  rewrite mult_IZR in H1, H2. rewrite minus_IZR in H1.
  assert (Hqr : 0 < IZR q) by (apply IZR_lt; exact Hq).
  split.
  - apply (Rmult_lt_reg_r (IZR q)); [exact Hqr|].
    unfold Rdiv. rewrite Rmult_assoc, Rinv_l by lra. lra.
  - apply (Rmult_le_reg_r (IZR q)); [exact Hqr|].
    unfold Rdiv. rewrite Rmult_assoc, Rinv_l by lra. lra.
Qed.

(** The ceiling of a quotient of two integers below 2^53 is the same
    whether the quotient is rounded to a float or not: when it is not a
    whole number it is at least [1 / q] above the whole number below it,
    which is more than the rounding takes off. *)
Lemma ceil_of_rounded_quotient (rnd : rounding) (p q : Z) :
  (0 <= p < 9007199254740992)%Z -> (0 < q < 9007199254740992)%Z ->
  Zceil (rnd (IZR p / IZR q)) = Zceil (IZR p / IZR q).
Proof.
  intros Hp Hq.
  set (x := IZR p / IZR q).
  set (k := Zceil x).
  pose proof (Zceil_bound x) as [Hlo Hhi]. fold k in Hlo, Hhi.
  assert (Hqr : 0 < IZR q) by (apply IZR_lt; lia).
  assert (Hpr : 0 <= IZR p) by (apply IZR_le; lia).
  assert (Hp53 : IZR p < 9007199254740992) by (apply IZR_lt; lia).
  assert (Hq53 : IZR q < 9007199254740992) by (apply IZR_lt; lia).
  assert (Hx0 : 0 <= x).
  { unfold x, Rdiv. apply Rmult_le_pos; [exact Hpr|].
    apply Rlt_le, Rinv_0_lt_compat. exact Hqr. }
  assert (Hxq : x * IZR q = IZR p) by (unfold x; field; lra).
  assert (Hq1 : 1 <= IZR q) by (apply IZR_le; lia).
  assert (Hxp : x <= IZR p) by nra.
  assert (Hk0 : (0 <= k)%Z) by (apply le_IZR; lra).
  assert (Hkp : (k <= p)%Z).
  { assert (H : IZR k < IZR (p + 1)) by (rewrite plus_IZR; lra).
    apply lt_IZR in H. lia. }
  assert (Hrk : rnd (IZR k) = IZR k) by (apply round_integer; lia).
  apply Zceil_eq. split.
  - destruct (Req_dec x (IZR k)) as [Heq|Hne].
    + rewrite Heq, Hrk. lra.
    + (* [p] is strictly between [q * (k - 1)] and [q * k] *)
      assert (Hlt : x < IZR k) by lra.
      assert (H1 : IZR (q * (k - 1)) < IZR p)
        by (rewrite mult_IZR, minus_IZR; nra).
      assert (H2 : IZR p < IZR (q * k)) by (rewrite mult_IZR; nra).
      apply lt_IZR in H1. apply lt_IZR in H2.
      assert (Hgap : (q * (k - 1) + 1 <= p)%Z) by lia.
      apply IZR_le in Hgap. rewrite plus_IZR, mult_IZR, minus_IZR in Hgap.
      assert (Hfar : IZR k - 1 + / IZR q <= x).
      { apply (Rmult_le_reg_r (IZR q)); [exact Hqr|].
        rewrite Hxq, Rmult_plus_distr_r, Rinv_l by lra. lra. }
      pose proof (round_error rnd x) as Herr.
      rewrite (Rabs_right x) in Herr by lra.
      specialize (Herr ltac:(lra)).
      assert (Hsmall : Rmax 1 x / 9007199254740992 < / IZR q).
      { apply (Rmult_lt_reg_r (IZR q)); [exact Hqr|].
        rewrite Rinv_l by lra.
        unfold Rmax. destruct (Rle_dec 1 x) as [H1x|H1x].
        - replace (x / 9007199254740992 * IZR q)
            with (IZR p / 9007199254740992) by (rewrite <- Hxq; field).
          lra.
        - lra. }
      unfold Rabs in Herr. destruct (Rcase_abs (rnd x - x)); lra.
  - rewrite <- Hrk. apply round_monotone. exact Hhi.
Qed.

Lemma mapM_Forall2 {X Y : Type} (f : X -> result Y) (P : X -> Y -> Prop) (l : list X) :
  (forall x, In x l -> exists y, f x = Ok y /\ P x y) ->
  exists ys, mapM f l = Ok ys /\ Forall2 P l ys.
Proof.
  induction l as [|x l IH]; intros Hf.
  - exists []. split; [reflexivity | constructor].
  - destruct (Hf x (or_introl eq_refl)) as (y & Hy & HP).
    destruct IH as (ys & Hys & HPs); [intros z Hz; apply Hf; now right|].
    exists (y :: ys). split; [|constructor; assumption].
    cbn [mapM]. rewrite Hy. cbn [bind]. rewrite Hys. reflexivity.
Qed.

(** One channel through the bank of kernels: the phases are interleaved
    and cut to [ceil(new_freq * length / orig_freq)] samples, which the
    convolution always provides. *)
Lemma resample_channel_length (kernel : list (list R)) (width orig_freq new_freq : Z)
      (channel : list R) :
  (1 <= orig_freq)%Z -> (1 <= new_freq)%Z -> (0 <= width)%Z ->
  Z.of_nat (length kernel) = new_freq ->
  Forall (fun k => Z.of_nat (length k) = (2 * width + orig_freq)%Z) kernel ->
  exists out,
    (resampled <- conv1d (repeat 0 (Z.to_nat width) ++ channel
                                 ++ repeat 0 (Z.to_nat (width + orig_freq)))
                         kernel orig_freq ;;
     ratio <- float_div (IZR new_freq * IZR (Z.of_nat (length channel)))
                        (IZR orig_freq) ;;
     Ok (slice_to (interleave resampled) (Zceil ratio)))
    = Ok out
    /\ Z.of_nat (length out)
       = Zceil (IZR new_freq * IZR (Z.of_nat (length channel)) / IZR orig_freq).
Proof.
  intros Ho Hn Hw Hlen Htaps.
  set (n := Z.of_nat (length channel)).
  set (padded := repeat 0 (Z.to_nat width) ++ channel
                        ++ repeat 0 (Z.to_nat (width + orig_freq))).
  assert (Hpadded : Z.of_nat (length padded) = (n + 2 * width + orig_freq)%Z).
  { unfold padded. rewrite !length_app, !repeat_length. lia. }
  destruct kernel as [|k ks]; [simpl in Hlen; lia|].
  assert (Hk : Z.of_nat (length k) = (2 * width + orig_freq)%Z)
    by (inversion Htaps; assumption).
  unfold conv1d. cbn [hd]. rewrite Hk, Hpadded.
  replace ((orig_freq <=? 0)%Z || (n + 2 * width + orig_freq <? 2 * width + orig_freq)%Z)
    with false.
  2:{ symmetry. apply orb_false_intro; [apply Z.leb_gt; lia | apply Z.ltb_ge; lia]. }
  cbn [bind].
  replace (n + 2 * width + orig_freq - (2 * width + orig_freq))%Z with n by lia.
  unfold float_div.
  assert (Hor : 0 < IZR orig_freq) by (apply IZR_lt; lia).
  destruct (Req_dec_T (IZR orig_freq) 0) as [Hz|_]; [lra|]. cbn [bind].
  eexists. split; [reflexivity|].
  set (ratio := IZR new_freq * IZR n / IZR orig_freq).
  assert (Hn0 : 0 <= IZR n) by (apply IZR_le; lia).
  assert (Hnr : 1 <= IZR new_freq) by (apply IZR_le; exact Hn).
  assert (Hratio : 0 <= ratio).
  { unfold ratio, Rdiv. apply Rmult_le_pos; [nra|].
    apply Rlt_le, Rinv_0_lt_compat. exact Hor. }
  pose proof (Zceil_bound ratio) as [Hc1 Hc2].
  assert (Hq : (0 <= n / orig_freq)%Z) by (apply Z.div_pos; lia).
  apply slice_to_length.
  rewrite interleave_length. cbn [map hd]. rewrite !length_map, zrange_length.
  cbn [length]. rewrite length_map.
  assert (Hceil0 : (0 <= Zceil ratio)%Z) by (apply le_IZR; lra).
  split; [exact Hceil0|].
  set (P := (n / orig_freq + 1)%Z).
  replace (Z.of_nat (Z.to_nat (P - 0) * S (length ks)))
    with (P * new_freq)%Z by (rewrite <- Hlen; unfold P; simpl length; lia).
  assert (Hcover : (n < P * orig_freq)%Z).
  { pose proof (Z.div_mod n orig_freq ltac:(lia)).
    pose proof (Z.mod_pos_bound n orig_freq ltac:(lia)). unfold P. nia. }
  assert (Hbig : ratio <= IZR (P * new_freq)).
  { rewrite mult_IZR. apply IZR_lt in Hcover. rewrite mult_IZR in Hcover.
    unfold ratio. apply (Rmult_le_reg_r (IZR orig_freq)); [exact Hor|].
    unfold Rdiv. rewrite Rmult_assoc, Rinv_l by lra. nra. }
  assert (Hlt : IZR (Zceil ratio) < IZR (P * new_freq + 1))
    by (rewrite plus_IZR; lra).
  apply lt_IZR in Hlt. lia.
Qed.

(** X21.  For rates of at least 1 Hz and a positive
    [lowpass_filter_width], [resample_waveform] raises a [RuntimeError] on
    a waveform without channels, and on any other waveform returns one
    output channel per input channel, where a channel of [length] samples
    comes back with [ceil(new * length / orig)] samples, [orig] and [new]
    being the two rates truncated to integers: the length depends on the
    ratio of the rates only, and neither on the filter width, nor on the
    rounding of its float computation, nor on the reduction by the GCD. *)
Theorem resample_output_length (rnd : rounding) (waveform : list (list R))
        (orig_freq new_freq : R) (lowpass_filter_width : Z) :
  1 <= orig_freq -> 1 <= new_freq -> (0 < lowpass_filter_width)%Z ->
  let orig := int_of_float orig_freq in
  let new := int_of_float new_freq in
  (waveform = [] ->
   resample_waveform rnd waveform orig_freq new_freq lowpass_filter_width
   = Raise RuntimeError)
  /\ (waveform <> [] ->
      exists resampled,
        resample_waveform rnd waveform orig_freq new_freq lowpass_filter_width
        = Ok resampled
        /\ Forall2 (fun channel out =>
                      Z.of_nat (length out)
                      = ((new * Z.of_nat (length channel) + orig - 1) / orig)%Z)
                   waveform resampled).
Proof.
  intros Ho Hn Hl orig new.
  assert (Horig : (1 <= orig)%Z).
  { unfold orig, int_of_float. destruct (Rle_dec 0 orig_freq) as [_|Hneg]; [|lra].
    apply Zfloor_lub. exact Ho. }
  assert (Hnew : (1 <= new)%Z).
  { unfold new, int_of_float. destruct (Rle_dec 0 new_freq) as [_|Hneg]; [|lra].
    apply Zfloor_lub. exact Hn. }
  unfold resample_waveform.
  rewrite assert_true by (rewrite !Rltb_true by lra; reflexivity). cbn [bind].
  fold orig new.
  pose proof (Z.gcd_nonneg orig new) as Hg0.
  assert (Hg : (0 < Z.gcd orig new)%Z).
  { destruct (Z.eq_dec (Z.gcd orig new) 0) as [Hz|Hnz]; [|lia].
    apply Z.gcd_eq_0_l in Hz. lia. }
  destruct (Z.gcd_divide_l orig new) as [a Ha].
  destruct (Z.gcd_divide_r orig new) as [b Hb].
  set (g := Z.gcd orig new) in *.
  unfold floordiv. destruct (Z.eqb_spec g 0) as [Hz|_]; [lia|]. cbn [bind].
  assert (Hoa : (orig / g = a)%Z) by (rewrite Ha; apply Z.div_mul; lia).
  assert (Hnb : (new / g = b)%Z) by (rewrite Hb; apply Z.div_mul; lia).
  rewrite Hoa, Hnb.
  assert (Ha1 : (1 <= a)%Z) by nia.
  assert (Hb1 : (1 <= b)%Z) by nia.
  destruct (get_sinc_resample_kernel_ok rnd a b lowpass_filter_width Ha1 Hb1 Hl)
    as (Hker & Hwidth & _).
  cbv zeta in Hker, Hwidth. rewrite Hker. cbn [bind].
  set (width := Zceil _) in *.
  set (kernel := map _ (zrange 0 b)).
  split.
  - intros ->. reflexivity.
  - intros Hne. destruct waveform as [|first rest] eqn:Hw; [contradiction|].
    rewrite <- Hw. replace (match waveform with [] => Raise RuntimeError | _ => Ok tt end)
      with (@Ok unit tt) by (rewrite Hw; reflexivity).
    cbn [bind].
    apply mapM_Forall2. intros channel _.
    destruct (resample_channel_length kernel width a b channel Ha1 Hb1 Hwidth)
      as (out & Hout & Hlen).
    { unfold kernel. rewrite length_map, zrange_length. lia. }
    { unfold kernel. apply Forall_map. apply Forall_forall. intros i _.
      rewrite length_map, zrange_length. lia. }
    exists out. split; [exact Hout|].
    rewrite Hlen. rewrite <- (Zceil_div (new * Z.of_nat (length channel)) orig)
      by lia.
    f_equal. rewrite Ha, Hb, !mult_IZR.
    assert (0 < IZR a) by (apply IZR_lt; lia).
    assert (0 < IZR g) by (apply IZR_lt; lia).
    field. lra.
Qed.

Lemma resample_output_length_witness :
  exists resampled,
    resample_waveform exact_arithmetic [[1; 2; 3; 4; 5]; [6; 7; 8; 9; 10]] 3 2 6
    = Ok resampled
    /\ Forall2 (fun channel out => Z.of_nat (length out) = 4%Z)
               [[1; 2; 3; 4; 5]; [6; 7; 8; 9; 10]] resampled.
Proof.
  assert (H3 : int_of_float 3 = 3%Z) by (apply int_of_float_IZR; reflexivity).
  assert (H2 : int_of_float 2 = 2%Z) by (apply int_of_float_IZR; reflexivity).
  destruct (resample_output_length exact_arithmetic
                                   [[1; 2; 3; 4; 5]; [6; 7; 8; 9; 10]] 3 2 6)
    as (_ & Hrun).
  - lra.
  - lra.
  - lia.
  - destruct Hrun as (resampled & Hrun & Hlen); [discriminate|].
    exists resampled. split; [exact Hrun|].
    rewrite H3, H2 in Hlen.
    inversion Hlen as [|c1 o1 cs1 os1 Hl1 Hrest1]; subst.
    inversion Hrest1 as [|c2 o2 cs2 os2 Hl2 Hrest2]; subst.
    inversion Hrest2; subst.
    repeat constructor; [exact Hl1 | exact Hl2].
Defined.

(** X22.  A positive rate below 1 Hz is truncated to 0, and
    [resample_waveform] then ends in a [ZeroDivisionError]: in the
    reduction by the GCD when both rates are below 1 Hz, and in the width of
    the kernel, whose cutoff frequency is 0, when one of them is. *)
Theorem resample_needs_one_hertz (rnd : rounding) (waveform : list (list R))
        (orig_freq new_freq : R) (lowpass_filter_width : Z) :
  0 < orig_freq -> 0 < new_freq -> orig_freq < 1 \/ new_freq < 1 ->
  (0 < lowpass_filter_width)%Z ->
  resample_waveform rnd waveform orig_freq new_freq lowpass_filter_width
  = Raise ZeroDivisionError.
Proof.
  intros Ho Hn Hsmall Hl.
  assert (Htrunc : forall f, 0 < f ->
            (f < 1 /\ int_of_float f = 0%Z) \/ (1 <= f /\ (1 <= int_of_float f)%Z)).
  { intros f Hf. unfold int_of_float. destruct (Rle_dec 0 f) as [_|Hneg]; [|lra].
    destruct (Rlt_dec f 1) as [H1|H1].
    - left. split; [exact H1|]. apply Zfloor_eq. simpl. lra.
    - right. split; [lra|]. apply Zfloor_lub. lra. }
  assert (Hkernel : forall o n, Z.min o n = 0%Z ->
            _get_sinc_resample_kernel rnd o n lowpass_filter_width
            = Raise ZeroDivisionError).
  { intros o n Hmin. unfold _get_sinc_resample_kernel.
    rewrite assert_true by (apply Z.ltb_lt; exact Hl). cbn [bind].
    rewrite Hmin, round_zero, Rmult_0_l, round_zero. unfold float_div.
    destruct (Req_dec_T 0 0) as [_|Hne]; [reflexivity | lra]. }
  unfold resample_waveform.
  rewrite assert_true by (rewrite !Rltb_true by lra; reflexivity). cbn [bind].
  destruct (Htrunc orig_freq Ho) as [[Ho1 Hoz]|[Ho1 Hoz]];
    destruct (Htrunc new_freq Hn) as [[Hn1 Hnz]|[Hn1 Hnz]]; try lra.
  - rewrite Hoz, Hnz. reflexivity.
  - rewrite Hoz. set (n := int_of_float new_freq) in *.
    rewrite Z.gcd_0_l, Z.abs_eq by lia. unfold floordiv.
    destruct (Z.eqb_spec n 0) as [Hz|_]; [lia|]. cbn [bind].
    rewrite Z.div_0_l, Z.div_same by lia.
    rewrite Hkernel by reflexivity. reflexivity.
  - rewrite Hnz. set (o := int_of_float orig_freq) in *.
    rewrite Z.gcd_0_r, Z.abs_eq by lia. unfold floordiv.
    destruct (Z.eqb_spec o 0) as [Hz|_]; [lia|]. cbn [bind].
    rewrite Z.div_0_l, Z.div_same by lia.
    rewrite Hkernel by reflexivity. reflexivity.
Qed.

Lemma resample_needs_one_hertz_witness :
  resample_waveform exact_arithmetic [[1; 2; 3]] (1 / 2) 16000 6
  = Raise ZeroDivisionError.
Proof.
  apply (resample_needs_one_hertz exact_arithmetic [[1; 2; 3]] (1 / 2) 16000 6).
  - lra.
  - lra.
  - left. lra.
  - lia.
Defined.

(** ** Frames that do not overlap *)

Lemma concat_frames_prefix {X : Type} (w : list X) (k m : nat) :
  concat (map (fun i => firstn k (skipn (i * k) w)) (seq 0 m)) = firstn (m * k) w.
Proof.
  induction m as [|m IH]; [reflexivity|].
  rewrite seq_S, map_app, concat_app, IH. cbn [map concat Nat.add].
  rewrite app_nil_r.
  rewrite <- (firstn_skipn (m * k) (firstn (S m * k) w)).
  rewrite firstn_firstn.
  replace (Nat.min (m * k) (S m * k)) with (m * k)%nat by lia.
  f_equal. rewrite firstn_skipn_comm. f_equal. f_equal. lia.
Qed.

(** X23.  With [snip_edges] and a shift equal to the window size the
    frames tile the signal, whatever the positive stride of the waveform in
    its storage: there are [num_samples // window_size] of them, and
    concatenated they give back the signal without its last
    [num_samples mod window_size] samples, in order and without a sample
    lost or repeated in between. *)
Theorem frames_tile_signal {A : Type} (stride : Z) (waveform : list A) (window_size : Z) :
  (0 < stride)%Z ->
  (0 < window_size <= Z.of_nat (length waveform))%Z ->
  let num_samples := Z.of_nat (length waveform) in
  exists frames,
    _get_strided stride waveform window_size window_size true
    = Ok (Tensor2 (num_samples / window_size) window_size frames)
    /\ Z.of_nat (length frames) = (num_samples / window_size)%Z
    /\ concat frames
       = firstn (Z.to_nat (num_samples - num_samples mod window_size)) waveform
    /\ concat frames
       ++ skipn (Z.to_nat (num_samples - num_samples mod window_size)) waveform
       = waveform.
Proof.
  intros Hstride Hws num_samples.
  pose proof (get_strided_snip_ok stride waveform window_size window_size
                Hstride ltac:(lia) ltac:(lia) ltac:(lia)) as Hrun.
  cbv zeta in Hrun. fold num_samples in Hrun.
  assert (Hm : (1 + (num_samples - window_size) / window_size
                = num_samples / window_size)%Z).
  { replace (num_samples - window_size)%Z with (num_samples + (-1) * window_size)%Z
      by lia.
    rewrite Z.div_add by lia. lia. }
  rewrite Hm in Hrun.
  pose proof (Z.div_mod num_samples window_size ltac:(lia)) as Hdm.
  pose proof (Z.mod_pos_bound num_samples window_size ltac:(lia)) as Hmod.
  assert (Hq : (0 <= num_samples / window_size)%Z) by (apply Z.div_pos; lia).
  assert (Hconcat :
            concat (map (fun i => frame_at waveform (Z.of_nat i * window_size)
                                           window_size)
                        (seq 0 (Z.to_nat (num_samples / window_size))))
            = firstn (Z.to_nat (num_samples - num_samples mod window_size)) waveform).
  { replace (Z.to_nat (num_samples - num_samples mod window_size))
      with (Z.to_nat (num_samples / window_size) * Z.to_nat window_size)%nat by nia.
    rewrite <- concat_frames_prefix. f_equal. apply map_ext. intros i.
    unfold frame_at. do 2 f_equal. nia. }
  eexists. split; [exact Hrun|].
  split; [rewrite length_map, length_seq; lia|].
  split; [exact Hconcat|].
  rewrite Hconcat. apply firstn_skipn.
Qed.

Lemma frames_tile_signal_witness :
  exists frames,
    _get_strided 1 [1; 2; 3; 4; 5; 6; 7]%Z 3 3 true = Ok (Tensor2 2 3 frames)
    /\ concat frames = [1; 2; 3; 4; 5; 6]%Z.
Proof.
  destruct (frames_tile_signal 1 [1; 2; 3; 4; 5; 6; 7]%Z 3)
    as (frames & Hrun & _ & Hconcat & _).
  - lia.
  - simpl. lia.
  - exists frames. split; [exact Hrun | exact Hconcat].
Defined.

(** ** Removal of the DC offset *)

Lemma zip_with_ones (frame : list R) :
  zip_with Rmult (repeat 1 (length frame)) frame = frame.
Proof.
  induction frame as [|x frame IH]; [reflexivity|].
  cbn [length repeat zip_with]. rewrite IH, Rmult_1_l. reflexivity.
Qed.

Lemma sum_app (a b : list R) : sum (a ++ b) = sum a + sum b.
Proof.
  unfold sum. induction a as [|x a IH]; cbn [app fold_right]; [ring|].
  rewrite IH. ring.
Qed.

Lemma sum_zeros (k : nat) : sum (repeat 0 k) = 0.
Proof.
  unfold sum. induction k as [|k IH]; cbn [repeat fold_right]; [reflexivity|].
  rewrite IH. ring.
Qed.

Lemma sum_centred (frame : list R) :
  frame <> [] -> sum (map (fun x => x - mean frame) frame) = 0.
Proof.
  intros Hne.
  pose proof (sum_map_minus (fun x => x) (mean frame) frame) as H.
  cbv beta in H. rewrite map_id in H. rewrite H. unfold mean.
  assert (Hlen : INR (length frame) <> 0).
  { apply not_0_INR. destruct frame; [contradiction | discriminate]. }
  field. exact Hlen.
Qed.

(** X24.  For a waveform that is contiguous in its storage, or a view of
    positive stride framed with [snip_edges], with [remove_dc_offset], no
    pre-emphasis and the rectangular window, every frame [_get_window]
    returns adds up to zero, whatever the dither and the random numbers
    drawn for it, the framing mode and the padding: the mean is taken off
    after the dither is added, and the zeros of the padding do not change
    the sum. *)
Theorem get_window_removes_dc (torch_rand : nat -> nat -> R) (stride : Z) (waveform : list R)
        (padded_window_size window_size window_shift : Z) (blackman_coeff : R)
        (snip_edges raw_energy : bool) (energy_floor dither : R) (dt : dtype) :
  (0 < stride)%Z -> snip_edges = true \/ stride = 1%Z ->
  (2 <= window_size <= Z.of_nat (length waveform))%Z ->
  (0 < window_shift)%Z ->
  (window_size <= padded_window_size)%Z ->
  0 <= energy_floor ->
  exists frames energy,
    _get_window torch_rand stride waveform padded_window_size window_size window_shift
                RECTANGULAR blackman_coeff snip_edges raw_energy energy_floor dither
                true 0 dt
    = Ok (frames, energy)
    /\ Forall (fun frame => sum frame = 0) frames.
Proof.
  intros Hstride Hlayout Hsize Hshift Hpadded Hfloor. unfold _get_window.
  destruct (get_strided_frames stride waveform window_size window_shift snip_edges
                               Hstride Hlayout)
    as (m & frames0 & Hstrided & Hlen0); [lia | lia |].
  rewrite Hstrided. cbn [bind rows size1].
  set (n := Z.to_nat window_size) in *.
  set (f1 := if Reqb dither 0 then frames0 else mapi _ frames0).
  assert (H1 : Forall (fun frame => length frame = n) f1).
  { unfold f1. destruct (Reqb dither 0); [exact Hlen0|].
    unfold mapi at 1.
    apply (mapi_from_Forall (fun frame : list R => length frame = n)); [|exact Hlen0].
    intros j x Hx. rewrite mapi_length. exact Hx. }
  set (f2 := map (fun frame => map (fun x => x - mean frame) frame) f1).
  assert (H2 : Forall (fun frame => length frame = n /\ sum frame = 0) f2).
  { unfold f2. apply Forall_map. eapply Forall_impl; [|exact H1].
    intros frame Hlen. cbv beta. split; [rewrite length_map; exact Hlen|].
    apply sum_centred. intros ->. simpl in Hlen. lia. }
  rewrite Z.eqb_refl. rewrite (Reqb_true 0 0) by reflexivity.
  assert (Hwin : _feature_window_function RECTANGULAR window_size blackman_coeff
                 = Ok (repeat 1 n)).
  { unfold _feature_window_function. simpl String.eqb. cbv iota.
    destruct (Z.ltb_spec window_size 0); [lia | reflexivity]. }
  assert (Hall : Forall (fun frame => sum frame = 0)
                   (if (padded_window_size =? window_size)%Z
                    then map (zip_with Rmult (repeat 1 n)) f2
                    else map (fun frame =>
                                pad_right frame (padded_window_size - window_size))
                             (map (zip_with Rmult (repeat 1 n)) f2))).
  { assert (H4 : Forall (fun frame => sum frame = 0)
                        (map (zip_with Rmult (repeat 1 n)) f2)).
    { apply Forall_map. eapply Forall_impl; [|exact H2].
      intros frame [Hlen Hsum]. cbv beta. rewrite <- Hlen, zip_with_ones. exact Hsum. }
    destruct (Z.eqb_spec padded_window_size window_size) as [_|_]; [exact H4|].
    apply Forall_map. eapply Forall_impl; [|exact H4].
    intros frame Hsum. cbv beta. unfold pad_right.
    destruct (Z.leb_spec 0 (padded_window_size - window_size)); [|lia].
    rewrite sum_app, sum_zeros, Hsum. ring. }
  destruct raw_energy.
  - rewrite get_log_energy_ok by exact Hfloor. cbn [bind].
    rewrite Hwin. cbn [bind].
    eexists. eexists. split; [reflexivity | exact Hall].
  - cbn [bind]. rewrite Hwin. cbn [bind].
    rewrite get_log_energy_ok by exact Hfloor. cbn [bind].
    eexists. eexists. split; [reflexivity | exact Hall].
Qed.

Lemma get_window_removes_dc_witness :
  exists frames energy,
    _get_window rand_half 1 [1; 2; 3; 4; 5; 6; 7; 8] 4 3 2 RECTANGULAR (42 / 100)
                true true 0 1 true 0 float32
    = Ok (frames, energy)
    /\ Forall (fun frame => sum frame = 0) frames.
Proof.
  apply (get_window_removes_dc rand_half 1 [1; 2; 3; 4; 5; 6; 7; 8] 4 3 2 (42 / 100)
           true true 0 1 float32).
  - lia.
  - left. reflexivity.
  - simpl. lia.
  - lia.
  - lia.
  - lra.
Defined.
